(** * footStepMeter (React Native): a shallow embedding of the GPS sample
    validators, the speed calculation, the collection-session store, the
    route catalog, the route materialisation of the storage service and the
    CSV export, with the properties the specification states about them;
    and of the coordinate calculations, the mail export and the location
    service, with properties read off the code.

    Conventions of the embedding:
    - a JavaScript [number] is an IEEE 754 binary64 value, i.e. Rocq's
      primitive [float]; comparisons are the IEEE ones ([NaN] compares
      false with everything);
    - a valid [Date] is its time value in milliseconds, a [Z];
    - [T | null] is [option T];
    - a [throw] is the [Throw] branch of [completion];
    - the zustand [set] of a store is modelled by the state update function
      that is handed to it. *)

From Stdlib Require Import ZArith Floats Uint63 Bool List String Ascii Lia.
From Stdlib Require Import Permutation Sorted.
From stdpp Require Import base option list gmap strings.

Local Open Scope Z_scope.

(** ** JavaScript runtime pieces used by the sources *)

Module Js.

Definition number := float.

(** The global [isFinite] and [isNaN] on a value that already is a number. *)
Definition isFinite (x : number) : bool := PrimFloat.is_finite x.
Definition isNaN (x : number) : bool := PrimFloat.is_nan x.

Definition Math_abs (x : number) : number := PrimFloat.abs x.

(** [Math.round]: the integral number closest to [x], ties towards
    +Infinity; NaN, the infinities and the zeros are returned as they are,
    and a negative [x] that rounds to zero gives -0.  A finite binary64
    is [(-1)^s * m * 2^e]; for [e >= 0] it is integral already. *)
Definition Math_round (x : number) : number :=
  match Prim2SF x with
  | S754_finite s m e =>
      if e <? 0 then
        let v := if s then - Z.pos m else Z.pos m in
        let n := (2 * v + 2 ^ (- e)) / 2 ^ (1 - e) in
        if n =? 0 then (if s then PrimFloat.neg_zero else PrimFloat.zero)
        else if n <? 0 then (- of_uint63 (Uint63.of_Z (- n)))%float
        else of_uint63 (Uint63.of_Z n)
      else x
  | _ => x
  end.

(** [Array.prototype.join] on an array of strings. *)
Fixpoint join (sep : string) (l : list string) : string :=
  match l with
  | [] => EmptyString
  | [x] => x
  | x :: rest => (x ++ sep ++ join sep rest)%string
  end.

(** [Array.prototype.sort] with a comparator that returns a finite
    number: the sort is stable, so its result is the one of a stable
    insertion sort. *)
Section Sort.
Context {A : Type} (compareFn : A -> A -> Z).

Fixpoint sort_insert (x : A) (l : list A) : list A :=
    match l with
    | [] => [x]
    | y :: l' => if compareFn x y <=? 0 then x :: y :: l' else y :: sort_insert x l'
    end.

Definition sort (l : list A) : list A := foldr sort_insert [] l.
End Sort.

(** What a JavaScript function body completes with. *)
Inductive completion (E A : Type) : Type :=
| Return (a : A)
| Throw (e : E).
Arguments Return {E A} a.
Arguments Throw {E A} e.

End Js.

Import Js.

(** ** utils/errors *)

Module Errors.

Inductive ValidationErrorCode : Set :=
| INVALID_VALUE
| NEGATIVE_VALUE
| ZERO_OR_NEGATIVE_VALUE
| OUT_OF_RANGE
| INVALID_TYPE.

Inductive LocationErrorCode : Set :=
| INVALID_COORDINATES
| LATITUDE_OUT_OF_RANGE
| LONGITUDE_OUT_OF_RANGE
| IDENTICAL_POINTS
| NEGATIVE_ACCURACY
| NEGATIVE_SPEED
| INVALID_HEADING
| INVALID_GPS_ACCURACY.

(** [class ValidationError extends BaseError]: code, message, field. *)
Record ValidationError : Type := {
  ve_code : ValidationErrorCode;
  ve_message : string;
  ve_field : option string
}.

(** [class LocationError extends BaseError]. *)
Record LocationError : Type := {
  le_code : LocationErrorCode;
  le_message : string;
  le_field : option string
}.

Definition createValidationError (code : ValidationErrorCode) (message field : string)
  : ValidationError :=
  {| ve_code := code; ve_message := message; ve_field := Some field |}.

Definition newLocationError (code : LocationErrorCode) (message field : string)
  : LocationError :=
  {| le_code := code; le_message := message; le_field := Some field |}.

End Errors.

Import Errors.

(** ** utils/calculations: [calculateSpeed] *)

Module Calculations.

Local Open Scope float_scope.

Definition calculateSpeed (distanceInMeters timeInSeconds : number)
  : completion ValidationError number :=
  if negb (isFinite distanceInMeters) || isNaN distanceInMeters then
    Throw (createValidationError INVALID_VALUE
             "Distance must be a valid finite number" "distanceInMeters")
  else if negb (isFinite timeInSeconds) || isNaN timeInSeconds then
    Throw (createValidationError INVALID_VALUE
             "Time must be a valid finite number" "timeInSeconds")
  else if distanceInMeters <? 0 then
    Throw (createValidationError NEGATIVE_VALUE
             "Distance must be non-negative" "distanceInMeters")
  else if timeInSeconds <=? 0 then
    Throw (createValidationError ZERO_OR_NEGATIVE_VALUE
             "Time must be greater than 0" "timeInSeconds")
  else
    let metersPerSecond := distanceInMeters / timeInSeconds in
    let kmPerHour := (metersPerSecond * 3600) / 1000 in
    Return (Math_round (kmPerHour * 1000000) / 1000000).

(** Rounding to six decimal digits, as the last line of [calculateSpeed]
    and of [calculateDirection] does it. *)
Definition round6 (x : number) : number := Math_round (x * 1000000) / 1000000.

(** The error kind a failed call reports. *)
Definition fails_with (r : completion ValidationError number)
    (code : ValidationErrorCode) (field : string) : Prop :=
  exists e, r = Throw e /\ ve_code e = code /\ ve_field e = Some field.

End Calculations.

(** ** utils/coordinates *)

Module Coordinates.

Local Open Scope float_scope.

Definition MAX_LATITUDE : number := 90.
Definition MAX_LONGITUDE : number := 180.

Definition isValidLatitude (latitude : number) : bool :=
  Math_abs latitude <=? MAX_LATITUDE.

Definition isValidLongitude (longitude : number) : bool :=
  Math_abs longitude <=? MAX_LONGITUDE.

Definition isValidCoordinate (latitude longitude : number) : bool :=
  isValidLatitude latitude && isValidLongitude longitude.

End Coordinates.

Import Coordinates.

(** ** types/location *)

Module Location.

Local Open Scope string_scope.
Local Open Scope float_scope.

Definition Date := Z.

(** [GPS_ACCURACY], an object literal: its properties in source order. *)
Definition GPS_ACCURACY : list (string * string) :=
  [ ("BEST", "best");
    ("NEAREST_TEN_METERS", "nearest-ten-meters");
    ("HUNDRED_METERS", "hundred-meters");
    ("KILOMETER", "kilometer");
    ("THREE_KILOMETERS", "three-kilometers") ].

Definition Object_values {A : Type} (o : list (string * A)) : list A := map snd o.

Record ValidationResult : Type := {
  isValid : bool;
  error : option LocationError
}.

Record LocationPoint : Type := {
  latitude : number;
  longitude : number;
  timestamp : Date;
  accuracy : number;
  speed : option number;
  heading : option number
}.

(** The values [validateGPSAccuracyDetailed] can be handed at run time
    (its parameter is [unknown]): the primitive values of JavaScript. *)
Inductive JsValue : Type :=
| JsUndefined
| JsNull
| JsBoolean (b : bool)
| JsNumber (x : number)
| JsString (s : string).

(** [new Set<GPSAccuracy>(Object.values(GPS_ACCURACY))] *)
Definition VALID_GPS_ACCURACIES : gset string := list_to_set (Object_values GPS_ACCURACY).

(** [Set.prototype.has] on a set of strings: only a string can be a member. *)
Definition Set_has (s : gset string) (v : JsValue) : bool :=
  match v with
  | JsString x => bool_decide (x ∈ s)
  | _ => false
  end.

Definition validateGPSAccuracy (accuracy : JsValue) : bool :=
  Set_has VALID_GPS_ACCURACIES accuracy.

Section Validation.

(** The string a template literal puts for a number ([Number::toString])
    and for an arbitrary primitive value ([ToString]). *)
Variable Number_toString : number -> string.
Variable ToString : JsValue -> string.

(** A [number | null] inside a template literal. *)
Definition Nullable_toString (x : option number) : string :=
  match x with
  | Some v => Number_toString v
  | None => "null"
  end.

Definition validateGPSAccuracyDetailed (accuracy : JsValue) : ValidationResult :=
  if negb (validateGPSAccuracy accuracy) then
    {| isValid := false;
       error := Some (newLocationError INVALID_GPS_ACCURACY
                  ("Invalid GPS accuracy: " ++ ToString accuracy ++ ". Must be one of: "
                     ++ join ", " (Object_values GPS_ACCURACY) ++ ".")
                  "accuracy") |}
  else {| isValid := true; error := None |}.

Definition validateLocationPointDetailed (location : LocationPoint) : ValidationResult :=
  if negb (isValidLatitude (latitude location)) then
    {| isValid := false;
       error := Some (newLocationError LATITUDE_OUT_OF_RANGE
                  ("Invalid latitude: " ++ Number_toString (latitude location)
                     ++ ". Must be between -90 and 90.")
                  "latitude") |}
  else if negb (isValidLongitude (longitude location)) then
    {| isValid := false;
       error := Some (newLocationError LONGITUDE_OUT_OF_RANGE
                  ("Invalid longitude: " ++ Number_toString (longitude location)
                     ++ ". Must be between -180 and 180.")
                  "longitude") |}
  else if accuracy location <? 0 then
    {| isValid := false;
       error := Some (newLocationError NEGATIVE_ACCURACY
                  ("Invalid accuracy: " ++ Number_toString (accuracy location)
                     ++ ". Must be non-negative.")
                  "accuracy") |}
  else if match speed location with Some v => v <? 0 | None => false end then
    {| isValid := false;
       error := Some (newLocationError NEGATIVE_SPEED
                  ("Invalid speed: " ++ Nullable_toString (speed location)
                     ++ ". Must be non-negative or null.")
                  "speed") |}
  else if match heading location with
          | Some h => (h <? 0) || (360 <? h)
          | None => false
          end then
    {| isValid := false;
       error := Some (newLocationError INVALID_HEADING
                  ("Invalid heading: " ++ Nullable_toString (heading location)
                     ++ ". Must be between 0 and 360 or null.")
                  "heading") |}
  else {| isValid := true; error := None |}.

Definition validateLocationPoint (location : LocationPoint) : bool :=
  isValid (validateLocationPointDetailed location).

End Validation.

End Location.

(** ** The order of the sample checks, as the specification words it

    [validateSample] checks latitude, longitude, accuracy, speed and
    heading in this order and reports the first failure.  A field fails
    its check when the comparison the source makes on it holds. *)

Module SampleChecks.

Import Location.
Local Open Scope string_scope.
Local Open Scope float_scope.

Inductive SampleField : Set :=
| FLatitude
| FLongitude
| FAccuracy
| FSpeed
| FHeading.

Definition check_order : list SampleField :=
  [FLatitude; FLongitude; FAccuracy; FSpeed; FHeading].

Definition field_index (f : SampleField) : nat :=
  match f with
  | FLatitude => 0
  | FLongitude => 1
  | FAccuracy => 2
  | FSpeed => 3
  | FHeading => 4
  end.

Definition field_invalid (p : LocationPoint) (f : SampleField) : bool :=
  match f with
  | FLatitude => negb (Math_abs (latitude p) <=? 90)
  | FLongitude => negb (Math_abs (longitude p) <=? 180)
  | FAccuracy => accuracy p <? 0
  | FSpeed => match speed p with Some v => v <? 0 | None => false end
  | FHeading =>
      match heading p with
      | Some h => (h <? 0) || (360 <? h)
      | None => false
      end
  end.

Definition first_failure (p : LocationPoint) : option SampleField :=
  List.find (field_invalid p) check_order.

Definition error_kind (f : SampleField) : LocationErrorCode :=
  match f with
  | FLatitude => LATITUDE_OUT_OF_RANGE
  | FLongitude => LONGITUDE_OUT_OF_RANGE
  | FAccuracy => NEGATIVE_ACCURACY
  | FSpeed => NEGATIVE_SPEED
  | FHeading => INVALID_HEADING
  end.

Definition field_name (f : SampleField) : string :=
  match f with
  | FLatitude => "latitude"
  | FLongitude => "longitude"
  | FAccuracy => "accuracy"
  | FSpeed => "speed"
  | FHeading => "heading"
  end.

(** The number a field holds, when it holds one. *)
Definition field_value (p : LocationPoint) (f : SampleField) : option number :=
  match f with
  | FLatitude => Some (latitude p)
  | FLongitude => Some (longitude p)
  | FAccuracy => Some (accuracy p)
  | FSpeed => speed p
  | FHeading => heading p
  end.

(** The result of a validation that failed on field [f] of [p]: not valid,
    with an error of the field's kind that names the field and whose
    message contains the rendering of the field's value. *)
Definition reports (toStr : number -> string) (r : ValidationResult)
    (p : LocationPoint) (f : SampleField) : Prop :=
  exists e v pre post,
    r = {| isValid := false; error := Some e |} /\
    le_code e = error_kind f /\
    le_field e = Some (field_name f) /\
    field_value p f = Some v /\
    le_message e = pre ++ toStr v ++ post.

Definition valid_result : ValidationResult := {| isValid := true; error := None |}.

(** Samples used as concrete inputs. *)
Definition sample (lat lon acc : number) (spd hdg : option number) : LocationPoint :=
  {| latitude := lat; longitude := lon; timestamp := 1672567200000%Z;
     accuracy := acc; speed := spd; heading := hdg |}.

End SampleChecks.

(** ** stores/footprintStore

    The store is created by zustand's [create]; an action calls [set] with
    a function from the current state to the next one.  Every such
    function below returns all five data fields, so the merge [set] makes
    with the previous state is the returned state itself.  [new Date()] is
    the [now] argument of [startCollecting]. *)

Module FootprintStore.

Import Location.

Record FootprintState : Type := {
  isCollecting : bool;
  startTime : option Date;
  locationPoints : list LocationPoint;
  currentLocation : option LocationPoint;
  currentSpeed : option number
}.

Definition initialState : FootprintState :=
  {| isCollecting := false;
     startTime := None;
     locationPoints := [];
     currentLocation := None;
     currentSpeed := None |}.

Definition startCollecting (now : Date) (state : FootprintState) : FootprintState :=
  {| isCollecting := true;
     startTime := Some now;
     locationPoints := locationPoints state;
     currentLocation := currentLocation state;
     currentSpeed := currentSpeed state |}.

Definition stopCollecting (state : FootprintState) : FootprintState := initialState.

Definition reset (state : FootprintState) : FootprintState := initialState.

Definition addLocationPoint (location : LocationPoint) (state : FootprintState)
  : FootprintState :=
  if negb (isCollecting state) then state
  else
    let updatedLocationPoints := locationPoints state ++ [location] in
    {| isCollecting := isCollecting state;
       startTime := startTime state;
       locationPoints := updatedLocationPoints;
       currentLocation := Some location;
       currentSpeed := speed location |}.

(** The actions of the store, and a run of them from a state. *)
Inductive Action : Type :=
| StartCollecting (now : Date)
| StopCollecting
| Reset
| AddLocationPoint (location : LocationPoint).

Definition step (state : FootprintState) (a : Action) : FootprintState :=
  match a with
  | StartCollecting now => startCollecting now state
  | StopCollecting => stopCollecting state
  | Reset => reset state
  | AddLocationPoint location => addLocationPoint location state
  end.

Definition run (state : FootprintState) (actions : list Action) : FootprintState :=
  foldl step state actions.

(** A collecting session that holds one sample. *)
Definition point0 : LocationPoint :=
  {| latitude := 35.5%float; longitude := 139.75%float; timestamp := 1672567200000;
     accuracy := 5%float; speed := Some 2.5%float; heading := Some 45%float |}.

Definition collecting_one : FootprintState :=
  addLocationPoint point0 (startCollecting 1672567200000 initialState).

End FootprintStore.

(** ** types/route and stores/routeStore *)

Module RouteStore.

Import Location.

Record Route : Type := {
  id : string;
  name : string;
  locationPoints : list LocationPoint;
  startTime : Date;
  endTime : Date;
  pointCount : Z
}.

Record RouteState : Type := {
  routes : list Route;
  routeMap : gmap string Route
}.

Definition initialState : RouteState := {| routes := []; routeMap := ∅ |}.

(** [routes.sort((a, b) => b.startTime.getTime() - a.startTime.getTime())] *)
Definition sortRoutesByTime (routes : list Route) : list Route :=
  sort (fun a b => startTime b - startTime a) routes.

Definition addRoute (route : Route) (state : RouteState) : RouteState :=
  let updatedRoutes := routes state ++ [route] in
  let sortedRoutes := sortRoutesByTime updatedRoutes in
  let newRouteMap := <[id route := route]> (routeMap state) in
  {| routes := sortedRoutes; routeMap := newRouteMap |}.

Definition getAllRoutes (state : RouteState) : list Route := routes state.

Definition getRoutesByTitle (title : string) (state : RouteState) : list Route :=
  List.filter (fun route => String.eqb (name route) title) (routes state).

(** The boolean returned, and the state after the call. *)
Definition deleteRouteByTitle (title : string) (state : RouteState)
  : bool * RouteState :=
  let routesToDelete :=
    List.filter (fun route => String.eqb (name route) title) (routes state) in
  if (length routesToDelete =? 0)%nat then (false, state)
  else
    let newRouteMap :=
      foldl (fun m route => delete (id route) m) (routeMap state) routesToDelete in
    (true,
     {| routes := List.filter (fun route => negb (String.eqb (name route) title))
                   (routes state);
        routeMap := newRouteMap |}).

Definition getRouteCount (state : RouteState) : nat := length (routes state).

(** Newest first: [a] stands before [b] when it did not start earlier. *)
Definition newer_first (a b : Route) : Prop := startTime b <= startTime a.

(** The catalog operations that change the state. *)
Inductive Op : Type :=
| AddRoute (route : Route)
| DeleteRouteByTitle (title : string).

Definition apply_op (state : RouteState) (op : Op) : RouteState :=
  match op with
  | AddRoute route => addRoute route state
  | DeleteRouteByTitle title => snd (deleteRouteByTitle title state)
  end.

(** Every entry of the mapping is a route of the sequence, stored under
    its own id. *)
Definition map_in_routes (state : RouteState) : Prop :=
  forall k r, routeMap state !! k = Some r -> id r = k /\ In r (routes state).

(** Every route of the sequence is the entry of the mapping for its id. *)
Definition routes_in_map (state : RouteState) : Prop :=
  forall r, In r (routes state) -> routeMap state !! id r = Some r.

(** The sequence and the mapping correspond one to one. *)
Definition consistent (state : RouteState) : Prop :=
  List.NoDup (map id (routes state)) /\ routes_in_map state /\ map_in_routes state.

(** The number of routes of the sequence that carry the id [k]. *)
Definition count_id (k : string) (state : RouteState) : nat :=
  count_occ string_dec (map id (routes state)) k.

Definition route1 : Route :=
  {| id := "route-1"; name := "Morning Walk"; locationPoints := [];
     startTime := 1704103200000; endTime := 1704105000000; pointCount := 0 |}.

(** A second route that carries the id of [route1]. *)
Definition route1b : Route :=
  {| id := "route-1"; name := "Evening Jog"; locationPoints := [];
     startTime := 1704218400000; endTime := 1704221100000; pointCount := 0 |}.

(** Both are added, then the title of the first is deleted. *)
Definition after_delete : RouteState :=
  snd (deleteRouteByTitle "Morning Walk" (addRoute route1b (addRoute route1 initialState))).

End RouteStore.

(** ** services/exportService *)

Module ExportService.

Import Location.
Local Open Scope string_scope.

(** The line feed and the double quote. *)
Definition LF : string := String "010" EmptyString.
Definition DQUOTE : string := String "034" EmptyString.

(** The test of [escapeCsvValue]: the value holds a comma, a double quote
    or a line feed. *)
Fixpoint needs_escape (value : string) : bool :=
  match value with
  | EmptyString => false
  | String c rest =>
      Ascii.eqb c "," || Ascii.eqb c "034" || Ascii.eqb c "010" || needs_escape rest
  end.

(** The replacement of [escapeCsvValue]: every double quote is doubled. *)
Fixpoint double_quotes (value : string) : string :=
  match value with
  | EmptyString => EmptyString
  | String c rest =>
      if Ascii.eqb c "034" then String "034" (String "034" (double_quotes rest))
      else String c (double_quotes rest)
  end.

Definition escapeCsvValue (value : string) : string :=
  if needs_escape value then DQUOTE ++ double_quotes value ++ DQUOTE else value.

(** [s || ''] for [s] a string or undefined: the empty string is falsy. *)
Definition or_empty (s : option string) : string :=
  match s with
  | Some EmptyString => EmptyString
  | Some t => t
  | None => EmptyString
  end.

Section Csv.

(** [Number.prototype.toString] and [Date.prototype.toISOString]. *)
Variable Number_toString : number -> string.
Variable Date_toISOString : Date -> string.

Definition formatCsvRow (routeName : string) (latitude longitude : number)
    (timestamp : Date) (accuracy speed heading : option number) : string :=
  join ","
    [ routeName;
      Number_toString latitude;
      Number_toString longitude;
      Date_toISOString timestamp;
      or_empty (option_map Number_toString accuracy);
      or_empty (option_map Number_toString speed);
      or_empty (option_map Number_toString heading) ].

Definition headers : string :=
  "Route,Latitude,Longitude,Timestamp,Accuracy,Speed,Heading" ++ LF.

(** The rows written for one route, in the order of its points. *)
Definition route_rows (route : RouteStore.Route) : list string :=
  let escapedRouteName := escapeCsvValue (RouteStore.name route) in
  map (fun point =>
         formatCsvRow escapedRouteName
           (Location.latitude point) (Location.longitude point)
           (Location.timestamp point) (Some (Location.accuracy point))
           (Location.speed point) (Location.heading point))
      (RouteStore.locationPoints route).

(** [csvRows] is allocated with [totalPoints + 1] slots, slot 0 takes
    [headers] and the loops fill the slots 1 .. [totalPoints] in order, so
    the array that is joined is [headers] followed by the rows. *)
Definition makeCSVData (routes : list RouteStore.Route) : string :=
  if (length routes =? 0)%nat then headers
  else
    let csvRows := headers :: flat_map route_rows routes in
    join LF csvRows ++ LF.

End Csv.

(** The header line without its line feed. *)
Definition header_line : string :=
  "Route,Latitude,Longitude,Timestamp,Accuracy,Speed,Heading".

(** A route of one sample whose speed and heading are null. *)
Definition point_nulls : LocationPoint :=
  {| latitude := 35.5%float; longitude := 139.75%float; timestamp := 1641031200000;
     accuracy := 5%float; speed := None; heading := None |}.

Definition route_nulls : RouteStore.Route :=
  {| RouteStore.id := "route-123"; RouteStore.name := "Morning Walk";
     RouteStore.locationPoints := [point_nulls];
     RouteStore.startTime := 1641031200000; RouteStore.endTime := 1641033000000;
     RouteStore.pointCount := 1 |}.

End ExportService.

(** ** services/storageService: route materialisation *)

Module StorageService.

Local Open Scope string_scope.

(** A row of the [footprints] table.  [timestamp] is the time value of
    [new Date(footprint.timestamp)]; the rows [createFootprint] writes hold
    the ISO string of a valid date. *)
Record Footprint : Type := {
  id : Z;
  title : string;
  latitude : number;
  longitude : number;
  accuracy : number;
  speed : option number;
  direction : option number;
  timestamp : Location.Date
}.

Inductive Exception : Type :=
| Error (message : string)
| TypeError (message : string).

(** *** A plain object used as a dictionary

    [grouped] starts as the object literal without properties.  Its own
    properties are kept in creation order.  A read of a name that is not
    an own property goes to [Object.prototype], which answers for the
    names below with a function or, for [__proto__], with itself: a value
    that is truthy and has no [push]. *)

Definition Object_prototype_names : list string :=
  [ "constructor"; "__defineGetter__"; "__defineSetter__"; "hasOwnProperty";
    "__lookupGetter__"; "__lookupSetter__"; "isPrototypeOf";
    "propertyIsEnumerable"; "toString"; "valueOf"; "__proto__";
    "toLocaleString" ].

Definition inherited (key : string) : bool :=
  existsb (String.eqb key) Object_prototype_names.

Definition object (V : Type) : Type := list (string * V).

Fixpoint own {V : Type} (o : object V) (key : string) : option V :=
  match o with
  | [] => None
  | (k, v) :: o' => if String.eqb k key then Some v else own o' key
  end.

(** What [o[key]] evaluates to. *)
Inductive property (V : Type) : Type :=
| OwnValue (v : V)
| FromPrototype
| Undefined.
Arguments OwnValue {V} v.
Arguments FromPrototype {V}.
Arguments Undefined {V}.

Definition get {V : Type} (o : object V) (key : string) : property V :=
  match own o key with
  | Some v => OwnValue v
  | None => if inherited key then FromPrototype else Undefined
  end.

(** [o[key] = v] for a name that is no accessor of the prototype: an own
    property keeps its place, a new one goes to the end. *)
Fixpoint set {V : Type} (o : object V) (key : string) (v : V) : object V :=
  match o with
  | [] => [(key, v)]
  | (k, w) :: o' =>
      if String.eqb k key then (k, v) :: o' else (k, w) :: set o' key v
  end.

(** Property names that are array indices, the canonical decimal numerals
    below 2^32 - 1, are enumerated first, in ascending order. *)
Definition digit (c : ascii) : option N :=
  let n := N_of_ascii c in
  if ((48 <=? n) && (n <=? 57))%N then Some (n - 48)%N else None.

Fixpoint digits (s : string) (acc : N) : option N :=
  match s with
  | EmptyString => Some acc
  | String c rest =>
      match digit c with
      | Some d => digits rest (10 * acc + d)%N
      | None => None
      end
  end.

Definition array_index (key : string) : option N :=
  match key with
  | EmptyString => None
  | String c rest =>
      if Ascii.eqb c "0" then
        match rest with EmptyString => Some 0%N | _ => None end
      else
        match digits key 0 with
        | Some n => if (n <? 2 ^ 32 - 1)%N then Some n else None
        | None => None
        end
  end.

Fixpoint insert_index {V : Type} (n : N) (e : string * V)
    (l : list (N * (string * V))) : list (N * (string * V)) :=
  match l with
  | [] => [(n, e)]
  | (m, e') :: l' =>
      if (n <=? m)%N then (n, e) :: (m, e') :: l' else (m, e') :: insert_index n e l'
  end.

Fixpoint index_entries {V : Type} (o : object V) : list (N * (string * V)) :=
  match o with
  | [] => []
  | (k, v) :: o' =>
      match array_index k with
      | Some n => insert_index n (k, v) (index_entries o')
      | None => index_entries o'
      end
  end.

Fixpoint name_entries {V : Type} (o : object V) : list (string * V) :=
  match o with
  | [] => []
  | (k, v) :: o' =>
      match array_index k with
      | Some _ => name_entries o'
      | None => (k, v) :: name_entries o'
      end
  end.

Definition Object_entries {V : Type} (o : object V) : list (string * V) :=
  (map snd (index_entries o) ++ name_entries o)%list.

(** *** The service *)

Definition transformFootprintToLocationPoint (footprint : Footprint)
  : Location.LocationPoint :=
  {| Location.latitude := latitude footprint;
     Location.longitude := longitude footprint;
     Location.timestamp := timestamp footprint;
     Location.accuracy := accuracy footprint;
     Location.speed := speed footprint;
     Location.heading := direction footprint |}.

(** The loop that fills [grouped]: a title never seen gets an empty array,
    then the row is pushed.  For a title that [Object.prototype] answers
    for, no array is made and the call of [push] throws. *)
Fixpoint group_rows (grouped : object (list Footprint)) (footprints : list Footprint)
  : completion Exception (object (list Footprint)) :=
  match footprints with
  | [] => Return grouped
  | footprint :: rest =>
      match get grouped (title footprint) with
      | OwnValue titleFootprints =>
          group_rows (set grouped (title footprint) (titleFootprints ++ [footprint])%list) rest
      | Undefined =>
          group_rows (set grouped (title footprint) ([] ++ [footprint])%list) rest
      | FromPrototype =>
          Throw (TypeError "grouped[footprint.title].push is not a function")
      end
  end.

Section Service.

(** [title.replace(/\s+/g, '-').toLowerCase()] and the decimal numeral of
    a row id. *)
Variable slug : string -> string.
Variable Number_toString : Z -> string.

Definition generateRouteId (title : string) (firstFootprintId : Z) : string :=
  slug title ++ "-" ++ Number_toString firstFootprintId.

(** [Math.min(...)] and [Math.max(...)] of at least one time value. *)
Definition Math_min (t : Z) (ts : list Z) : Z := foldl Z.min t ts.
Definition Math_max (t : Z) (ts : list Z) : Z := foldl Z.max t ts.

(** The route made of one entry of [grouped].  [titleFootprints[0].id] of
    an empty array would throw. *)
Definition route_of_entry (entry : string * list Footprint)
  : completion Exception RouteStore.Route :=
  let (title, titleFootprints) := entry in
  let locationPoints := map transformFootprintToLocationPoint titleFootprints in
  let timestamps := map Location.timestamp locationPoints in
  match titleFootprints, timestamps with
  | first :: _, t :: ts =>
      Return {| RouteStore.id := generateRouteId title (id first);
                RouteStore.name := title;
                RouteStore.locationPoints := locationPoints;
                RouteStore.startTime := Math_min t ts;
                RouteStore.endTime := Math_max t ts;
                RouteStore.pointCount := Z.of_nat (length locationPoints) |}
  | _, _ => Throw (TypeError "Cannot read properties of undefined (reading 'id')")
  end.

Fixpoint map_entries (entries : list (string * list Footprint))
  : completion Exception (list RouteStore.Route) :=
  match entries with
  | [] => Return []
  | entry :: rest =>
      match route_of_entry entry with
      | Throw e => Throw e
      | Return route =>
          match map_entries rest with
          | Throw e => Throw e
          | Return routes => Return (route :: routes)
          end
      end
  end.

Definition groupFootprintsByTitle (footprints : list Footprint)
  : completion Exception (list RouteStore.Route) :=
  match group_rows [] footprints with
  | Throw e => Throw e
  | Return grouped => map_entries (Object_entries grouped)
  end.

(** [database] is the handle, [None] before [initialize]; an opened
    database answers the query with the rows it holds. *)
Definition fetchFootprints (database : option (list Footprint))
  : completion Exception (list RouteStore.Route) :=
  match database with
  | None => Throw (Error "Database not initialized")
  | Some footprints =>
      if (length footprints =? 0)%nat then Return []
      else groupFootprintsByTitle footprints
  end.

End Service.

(** *** What the specification asks of the routes *)

(** The rows of [footprints] that carry [title], in their order. *)
Definition rows_of (title : string) (footprints : list Footprint) : list Footprint :=
  List.filter (fun f => String.eqb (StorageService.title f) title) footprints.

(** [t] is the least (greatest) of the time values [ts]. *)
Definition is_min (t : Z) (ts : list Z) : Prop := In t ts /\ forall u, In u ts -> t <= u.
Definition is_max (t : Z) (ts : list Z) : Prop := In t ts /\ forall u, In u ts -> u <= t.

(** The route [r] is the aggregate of the rows of its title. *)
Definition aggregates (footprints : list Footprint) (r : RouteStore.Route) : Prop :=
  let group := rows_of (RouteStore.name r) footprints in
  group <> [] /\
  RouteStore.locationPoints r = map transformFootprintToLocationPoint group /\
  is_min (RouteStore.startTime r) (map timestamp group) /\
  is_max (RouteStore.endTime r) (map timestamp group) /\
  RouteStore.pointCount r = Z.of_nat (length group).

(** One route per distinct title: the names of the routes are the titles
    of the rows, each once. *)
Definition one_per_title (footprints : list Footprint) (routes : list RouteStore.Route)
  : Prop :=
  List.NoDup (map RouteStore.name routes) /\
  forall t, In t (map RouteStore.name routes) <-> In t (map title footprints).

(** [grouped] holds, for each title met so far, the rows of that title in
    their order, and nothing else. *)
Definition grouped_of (done : list Footprint) (grouped : object (list Footprint)) : Prop :=
  List.NoDup (map fst grouped) /\
  forall k, own grouped k =
            match rows_of k done with
            | [] => None
            | rows => Some rows
            end.

(** A single row whose title is the name of a property of
    [Object.prototype]. *)
Definition row_constructor : Footprint :=
  {| id := 1; title := "constructor"; latitude := 35.5%float;
     longitude := 139.75%float; accuracy := 5%float; speed := Some 2.5%float;
     direction := Some 45%float; timestamp := 1641031200000 |}.

End StorageService.

(** ** Data of the repository's test suites *)

Module TestData.

Import Location.

Definition mockLocationPoint1 : LocationPoint :=
  {| latitude := 35.5%float; longitude := 139.75%float; timestamp := 1704103200000;
     accuracy := 5%float; speed := Some 2.5%float; heading := Some 45%float |}.

Definition mockLocationPoint2 : LocationPoint :=
  {| latitude := 35.75%float; longitude := 139.5%float; timestamp := 1704103260000;
     accuracy := 4%float; speed := Some 3%float; heading := Some 50%float |}.

Definition mockRoute1 : RouteStore.Route :=
  {| RouteStore.id := "route-1"; RouteStore.name := "Morning Walk";
     RouteStore.locationPoints := [mockLocationPoint1; mockLocationPoint2];
     RouteStore.startTime := 1704103200000; RouteStore.endTime := 1704105000000;
     RouteStore.pointCount := 2 |}.

Definition mockRoute2 : RouteStore.Route :=
  {| RouteStore.id := "route-2"; RouteStore.name := "Evening Jog";
     RouteStore.locationPoints := [mockLocationPoint1];
     RouteStore.startTime := 1704218400000; RouteStore.endTime := 1704221100000;
     RouteStore.pointCount := 1 |}.

Definition mockRoute3 : RouteStore.Route :=
  {| RouteStore.id := "route-3"; RouteStore.name := "Weekend Hike";
     RouteStore.locationPoints := [mockLocationPoint1; mockLocationPoint2];
     RouteStore.startTime := 1704272400000; RouteStore.endTime := 1704283200000;
     RouteStore.pointCount := 2 |}.

Definition footprintRow (rowId : Z) (rowTitle : string) (time : Date)
  : StorageService.Footprint :=
  {| StorageService.id := rowId; StorageService.title := rowTitle;
     StorageService.latitude := 35.5%float; StorageService.longitude := 139.75%float;
     StorageService.accuracy := 5%float; StorageService.speed := Some 2.5%float;
     StorageService.direction := Some 45%float; StorageService.timestamp := time |}.

Definition mockFootprintRows : list StorageService.Footprint :=
  [ footprintRow 1 "Morning Walk" 1641031200000;
    footprintRow 2 "Morning Walk" 1641031260000 ].

End TestData.

(** ** The session the footprint store keeps *)

Module FootprintSession.

Import Location FootprintStore.

(** What holds of every state of the store: an idle session is the
    initial one, a collecting session has a start time, and the current
    sample and speed are those of the sample recorded last. *)
Definition session_ok (s : FootprintState) : Prop :=
  (isCollecting s = false -> s = initialState) /\
  (isCollecting s = true -> exists t, startTime s = Some t) /\
  currentLocation s = last (locationPoints s) /\
  currentSpeed s = last (locationPoints s) ≫= speed.

End FootprintSession.

(** ** Reading a CSV field back

    The reading side of the escaping of [escapeCsvValue], after the
    grammar of RFC 4180.  A field that opens with a double quote runs to
    the closing one, a pair of double quotes inside standing for one, and
    is followed by a comma, a line break or the end of the text.  Any
    other field runs up to the next comma, carriage return or line feed
    and holds no double quote.  The text data of the RFC is printable
    ASCII; every other character that is not one of these four is taken
    as text here as well.  The reader returns the field and the text that
    follows it, or nothing for text that is no field. *)

Module CsvReader.

Local Open Scope string_scope.

Definition CR : ascii := "013".

Definition cons_field (c : ascii) (r : string * string) : string * string :=
  (String c (fst r), snd r).

(** What may follow a field: a comma, a line break, or nothing. *)
Definition ends_field (s : string) : bool :=
  match s with
  | EmptyString => true
  | String c _ => Ascii.eqb c "," || Ascii.eqb c CR || Ascii.eqb c "010"
  end.

(** The text behind the opening quote. *)
Fixpoint read_quoted (s : string) : option (string * string) :=
  match s with
  | EmptyString => None
  | String c rest =>
      if Ascii.eqb c "034" then
        match rest with
        | String c' rest' =>
            if Ascii.eqb c' "034" then option_map (cons_field "034") (read_quoted rest')
            else if ends_field rest then Some (EmptyString, rest) else None
        | EmptyString => Some (EmptyString, EmptyString)
        end
      else option_map (cons_field c) (read_quoted rest)
  end.

Fixpoint read_plain (s : string) : option (string * string) :=
  match s with
  | EmptyString => Some (EmptyString, EmptyString)
  | String c rest =>
      if Ascii.eqb c "," || Ascii.eqb c CR || Ascii.eqb c "010" then Some (EmptyString, s)
      else if Ascii.eqb c "034" then None
      else option_map (cons_field c) (read_plain rest)
  end.

Definition read_field (s : string) : option (string * string) :=
  match s with
  | String c rest => if Ascii.eqb c "034" then read_quoted rest else read_plain s
  | EmptyString => Some (EmptyString, EmptyString)
  end.

(** Whether a text holds a carriage return. *)
Fixpoint has_CR (s : string) : bool :=
  match s with
  | EmptyString => false
  | String c rest => Ascii.eqb c CR || has_CR rest
  end.

(** The text before the first carriage return, and the text from it on. *)
Fixpoint before_CR (s : string) : string * string :=
  match s with
  | EmptyString => (EmptyString, EmptyString)
  | String c rest => if Ascii.eqb c CR then (EmptyString, s) else cons_field c (before_CR rest)
  end.

End CsvReader.

(** ** services/exportService: [sendMailWithCSV]

    The calls into the file system and mail composer modules are recorded
    in a log; what each call answers is given by [Apis].  A promise that
    rejects and a [throw] are the [Throw] completion. *)

Module MailExport.

Import Location.
Local Open Scope string_scope.

(** A thrown value: an [Error] with its message, or something else. *)
Inductive Thrown : Type :=
| ThrownError (message : string)
| ThrownOther.

Record ExportResult : Type := {
  success : bool;
  error : option string
}.

Inductive Call : Type :=
| IsAvailableAsync
| WriteAsStringAsync (path data : string)
| ComposeAsync (recipient attachment : string)
| DeleteAsync (path : string)
| ConsoleWarn.

(** The answers of the modules: whether mail is available, the document
    directory, the outcome of writing a file, the status of the composed
    mail and the outcome of deleting a file. *)
Record Apis : Type := {
  isAvailableAsync : completion Thrown bool;
  documentDirectory : string;
  writeAsStringAsync : string -> string -> completion Thrown unit;
  composeAsync : string -> string -> completion Thrown string;
  deleteAsync : string -> completion Thrown unit
}.

(** The calls made so far and the variable [tempFilePath]. *)
Record Store : Type := {
  calls : list Call;
  tempFilePath : option string
}.

Definition M (A : Type) : Type := Store -> Store * completion Thrown A.

Definition ret {A : Type} (a : A) : M A := fun st => (st, Return a).

Definition bind {A B : Type} (m : M A) (k : A -> M B) : M B :=
  fun st =>
    match m st with
    | (st', Return a) => k a st'
    | (st', Throw e) => (st', Throw e)
    end.

Notation "'do' x <- m ; k" := (bind m (fun x => k))
  (at level 10, x name, m at level 100, k at level 200).

(** A call into a module: logged, then completed as the module answers. *)
Definition call {A : Type} (c : Call) (outcome : completion Thrown A) : M A :=
  fun st => ({| calls := calls st ++ [c]; tempFilePath := tempFilePath st |}, outcome).

Definition set_tempFilePath (path : string) : M unit :=
  fun st => ({| calls := calls st; tempFilePath := Some path |}, Return tt).

Definition get_tempFilePath : M (option string) :=
  fun st => (st, Return (tempFilePath st)).

(** [try { body } catch (error) { handler }] *)
Definition try_catch {A : Type} (body : M A) (handler : Thrown -> M A) : M A :=
  fun st =>
    match body st with
    | (st', Throw e) => handler e st'
    | r => r
    end.

(** [try { body } finally { cleanup }]: the cleanup runs either way, and
    the completion of the body stands unless the cleanup throws. *)
Definition try_finally {A : Type} (body : M A) (cleanup : M unit) : M A :=
  fun st =>
    match body st with
    | (st', r) =>
        match cleanup st' with
        | (st'', Return _) => (st'', r)
        | (st'', Throw e) => (st'', Throw e)
        end
    end.

Definition createErrorResult (error : string) : ExportResult :=
  {| success := false; error := Some error |}.

Section Service.

Variable Number_toString : number -> string.
Variable Date_toISOString : Date -> string.
(** The numeral of [Date.now()] in the file name. *)
Variable Timestamp_toString : Z -> string.
Variable apis : Apis.
(** [Date.now()] *)
Variable now : Z.

(** The path of the temporary file: the document directory, then
    [routes_], the time of the call and [.csv]. *)
Definition temp_file_path : string :=
  documentDirectory apis ++ "routes_" ++ Timestamp_toString now ++ ".csv".

Definition cleanupTempFile (path : option string) : M unit :=
  match path with
  | None | Some EmptyString => ret tt
  | Some p =>
      try_catch (call (DeleteAsync p) (deleteAsync apis p))
        (fun deleteError => call ConsoleWarn (Return tt))
  end.

Definition sendMailWithCSV (routes : list RouteStore.Route) (recipientEmail : string)
  : M ExportResult :=
  try_finally
    (try_catch
       (do isMailAvailable <- call IsAvailableAsync (isAvailableAsync apis);
        if negb isMailAvailable then
          ret (createErrorResult "Mail service is not available on this device")
        else
          let csvData :=
            ExportService.makeCSVData Number_toString Date_toISOString routes in
          let path := temp_file_path in
          do _ <- set_tempFilePath path;
          do _ <- call (WriteAsStringAsync path csvData)
                    (writeAsStringAsync apis path csvData);
          do status <- call (ComposeAsync recipientEmail path)
                         (composeAsync apis recipientEmail path);
          if String.eqb status "cancelled" then
            ret (createErrorResult "Email composition was cancelled")
          else ret {| success := true; error := None |})
       (fun error =>
          ret (createErrorResult
                 match error with
                 | ThrownError message => message
                 | ThrownOther => "Unknown error occurred"
                 end)))
    (do path <- get_tempFilePath; cleanupTempFile path).

(** A run from the state of a fresh call. *)
Definition run_sendMailWithCSV (routes : list RouteStore.Route) (recipientEmail : string)
  : list Call * completion Thrown ExportResult :=
  let (st, r) := sendMailWithCSV routes recipientEmail
                   {| calls := []; tempFilePath := None |} in
  (calls st, r).

End Service.

(** The calls that touch a file or compose a mail. *)
Definition is_write (c : Call) : bool :=
  match c with WriteAsStringAsync _ _ => true | _ => false end.
Definition is_compose (c : Call) : bool :=
  match c with ComposeAsync _ _ => true | _ => false end.
Definition is_delete (c : Call) : bool :=
  match c with DeleteAsync _ => true | _ => false end.

End MailExport.

(** ** services/storageService: the query for one title *)

Module StorageQueries.

Import StorageService.
Local Open Scope string_scope.

(** The queries the service sends for reading rows. *)
Inductive Query : Type :=
| SelectAll
| SelectByTitle (title : string).

Section Service.

Variable slug : string -> string.
Variable Number_toString : Z -> string.

(** [database] is the handle, [None] before [initialize]; an opened
    database answers a query with rows. *)
Definition fetchFootprintsByTitle (database : option (Query -> list Footprint))
    (title : string) : completion Exception (list RouteStore.Route) :=
  match database with
  | None => Throw (Error "Database not initialized")
  | Some getAllAsync =>
      let footprints := getAllAsync (SelectByTitle title) in
      if (length footprints =? 0)%nat then Return []
      else groupFootprintsByTitle slug Number_toString footprints
  end.

End Service.

(** A database that holds the two rows of the test suite. *)
Definition two_rows (q : Query) : list Footprint :=
  match q with
  | SelectAll => TestData.mockFootprintRows
  | SelectByTitle title =>
      List.filter (fun f => String.eqb (StorageService.title f) title)
        TestData.mockFootprintRows
  end.

End StorageQueries.

(** ** utils/calculations: the functions on coordinates

    [Math.sin], [Math.cos] and [Math.atan2] are approximated by the engine
    and [%] on numbers is not among the operations of primitive floats:
    the four are parameters of the section.  [Math.sqrt] is the correctly
    rounded square root.  A point argument is [None] when the value handed
    over fails the test [!point || typeof point !== 'object'];
    [validateLocationPoint], which returns nothing in the source, returns
    here the object that passed its checks, the one the caller goes on
    reading. *)

Module Geodesy.

Local Open Scope string_scope.
Local Open Scope float_scope.

(** The [LocationPoint] of utils/calculations: the two coordinates. *)
Record LocationPoint : Type := {
  latitude : number;
  longitude : number
}.

(** What the functions of the file throw. *)
Inductive Thrown : Type :=
| ThrownValidation (e : ValidationError)
| ThrownLocation (e : LocationError).

(** [createLocationError] of utils/errors, whose field is optional. *)
Definition createLocationError (code : LocationErrorCode) (message : string)
    (field : option string) : LocationError :=
  {| le_code := code; le_message := message; le_field := field |}.

Definition Math_PI : number := 0x1.921fb54442d18p+1.
Definition Math_sqrt (x : number) : number := PrimFloat.sqrt x.

(** [Math.max] of two numbers: NaN when one of them is, and +0 is larger
    than -0. *)
Definition Math_max (x y : number) : number :=
  if isNaN x || isNaN y then nan
  else if x <? y then y
  else if y <? x then x
  else if get_sign x then y else x.

Definition validateLocationPoint (point : option LocationPoint) (paramName : string)
  : completion Thrown LocationPoint :=
  match point with
  | None =>
      Throw (ThrownValidation (createValidationError INVALID_TYPE
               (paramName ++ " must be a valid LocationPoint object") paramName))
  | Some p =>
      if negb (isFinite (latitude p)) || isNaN (latitude p) then
        Throw (ThrownValidation (createValidationError INVALID_VALUE
                 (paramName ++ ".latitude must be a valid finite number")
                 (paramName ++ ".latitude")))
      else if negb (isFinite (longitude p)) || isNaN (longitude p) then
        Throw (ThrownValidation (createValidationError INVALID_VALUE
                 (paramName ++ ".longitude must be a valid finite number")
                 (paramName ++ ".longitude")))
      else if 90 <? Math_abs (latitude p) then
        Throw (ThrownLocation (createLocationError LATITUDE_OUT_OF_RANGE
                 "Invalid latitude" (Some (paramName ++ ".latitude"))))
      else if 180 <? Math_abs (longitude p) then
        Throw (ThrownLocation (createLocationError LONGITUDE_OUT_OF_RANGE
                 "Invalid longitude" (Some (paramName ++ ".longitude"))))
      else Return p
  end.

Definition EPSILON : number := 0x1.b7cdfd9d7bdbbp-34.

Definition arePointsEqual (from to : LocationPoint) : bool :=
  (Math_abs (latitude from - latitude to) <? EPSILON) &&
  (Math_abs (longitude from - longitude to) <? EPSILON).

Definition toRadians (degrees : number) : number := degrees * (Math_PI / 180).
Definition toDegrees (radians : number) : number := radians * (180 / Math_PI).

Section Trigonometry.

Variables Math_sin Math_cos : number -> number.
Variable Math_atan2 : number -> number -> number.
(** [x % y] on numbers. *)
Variable Number_remainder : number -> number -> number.

Definition calculateDistance (from to : option LocationPoint) : completion Thrown number :=
  match validateLocationPoint from "from" with
  | Throw e => Throw e
  | Return from =>
  match validateLocationPoint to "to" with
  | Throw e => Throw e
  | Return to =>
      if arePointsEqual from to then Return 0
      else
        let R := 0x1.84db033333333p+22 in
        let fromLatRad := toRadians (latitude from) in
        let toLatRad := toRadians (latitude to) in
        let deltaLatRad := toRadians (latitude to - latitude from) in
        let deltaLonRad := toRadians (longitude to - longitude from) in
        let sinDeltaLat := Math_sin (deltaLatRad / 2) in
        let sinDeltaLon := Math_sin (deltaLonRad / 2) in
        let angularDistanceFactor :=
          sinDeltaLat * sinDeltaLat +
          Math_cos fromLatRad * Math_cos toLatRad * sinDeltaLon * sinDeltaLon in
        let centralAngleRad :=
          2 * Math_atan2 (Math_sqrt angularDistanceFactor)
                (Math_sqrt (1 - angularDistanceFactor)) in
        let distance := R * centralAngleRad in
        Return (Math_max 0 distance)
  end
  end.

Definition calculateDirection (from to : option LocationPoint) : completion Thrown number :=
  match validateLocationPoint from "from" with
  | Throw e => Throw e
  | Return from =>
  match validateLocationPoint to "to" with
  | Throw e => Throw e
  | Return to =>
      if arePointsEqual from to then
        Throw (ThrownLocation (createLocationError IDENTICAL_POINTS
                 "Cannot calculate direction for identical points" None))
      else
        let fromLatRad := toRadians (latitude from) in
        let toLatRad := toRadians (latitude to) in
        let deltaLonRad := toRadians (longitude to - longitude from) in
        let y := Math_sin deltaLonRad * Math_cos toLatRad in
        let x := Math_cos fromLatRad * Math_sin toLatRad -
                 Math_sin fromLatRad * Math_cos toLatRad * Math_cos deltaLonRad in
        let bearingRad := Math_atan2 y x in
        let bearingDeg := toDegrees bearingRad in
        let normalizedBearing := Number_remainder (bearingDeg + 360) 360 in
        Return (Math_round (normalizedBearing * 1000000) / 1000000)
  end
  end.

End Trigonometry.

(** The two coordinates of a stored sample. *)
Definition coordinates_of (p : Location.LocationPoint) : LocationPoint :=
  {| latitude := Location.latitude p; longitude := Location.longitude p |}.

(** Stand-ins for the engine's functions in concrete evaluations. *)
Definition const0 (x : number) : number := 0.
Definition const0_2 (x y : number) : number := 0.

End Geodesy.

(** ** Signs of binary64 values, on their specification *)

Module FloatSign.

(** A number that is at least zero: a zero of either sign, a positive
    finite number or +Infinity. *)
Definition at_least_zero (x : spec_float) : bool :=
  match x with
  | S754_zero _ => true
  | S754_infinity s => negb s
  | S754_nan => false
  | S754_finite s _ _ => negb s
  end.

Definition positive_finite (x : spec_float) : bool :=
  match x with
  | S754_finite s _ _ => negb s
  | _ => false
  end.

End FloatSign.

(** ** services/locationService

    The service object is the record [Service] of its mutable fields; a
    method is a function from the service to the service it leaves and
    the way it completes: with a value, or with what it throws (for an
    [async] method, what its promise is rejected with).  The calls it
    makes, to the location and task modules and to the installed event
    handlers, are recorded in [trace] in the order they are made;
    [this.events?.handler(...)] makes the call when handlers are
    installed, and the handlers return normally.  An awaited call
    completes as the module answers.  One method runs from its call to
    its completion.

    A value of type [any] is a [JsValue]; a configuration or a location
    datum is [None] when the value handed over is [null] or [undefined].
    The value thrown when a property of [undefined] is read and the date
    a string parses to are parameters. *)

Module LocationService.

Import Location.
Local Open Scope string_scope.
Local Open Scope float_scope.

(** *** types/locationService *)

Inductive LocationServiceStatus : Set :=
| STOPPED
| STARTING
| RUNNING
| STOPPING
| ERROR.

Inductive LocationPermissionStatus : Set :=
| GRANTED
| DENIED
| UNDETERMINED.

Record LocationServiceConfig : Type := {
  accuracy : JsValue;
  enableBackground : JsValue;
  distanceInterval : JsValue;
  timeInterval : JsValue
}.

(** *** What the location module hands over, and what is made of it *)

Record Coords : Type := {
  coords_latitude : JsValue;
  coords_longitude : JsValue;
  coords_accuracy : JsValue;
  coords_speed : JsValue;
  coords_heading : JsValue
}.

Record LocationData : Type := {
  coords : option Coords;
  timestamp : JsValue
}.

(** A [Date] object: its time value, or [None] for an invalid date. *)
Definition JsDate : Type := option Z.

(** The object [transformLocationData] builds. *)
Record LocationPoint : Type := {
  point_latitude : JsValue;
  point_longitude : JsValue;
  point_timestamp : JsDate;
  point_accuracy : JsValue;
  point_speed : JsValue;
  point_heading : JsValue
}.

Definition typeof (v : JsValue) : string :=
  match v with
  | JsUndefined => "undefined"
  | JsNull => "object"
  | JsBoolean _ => "boolean"
  | JsNumber _ => "number"
  | JsString _ => "string"
  end.

Definition ToBoolean (v : JsValue) : bool :=
  match v with
  | JsUndefined | JsNull => false
  | JsBoolean b => b
  | JsNumber x => negb (PrimFloat.is_zero x || isNaN x)
  | JsString s => negb (String.eqb s "")
  end.

(** The integral part of a finite number. *)
Definition ToIntegerOrInfinity (x : number) : Z :=
  match Prim2SF x with
  | S754_finite s m e =>
      let a := if (0 <=? e)%Z then (Z.pos m * 2 ^ e)%Z else (Z.pos m / 2 ^ (- e))%Z in
      if s then (- a)%Z else a
  | _ => 0%Z
  end.

(** [TimeClip]: a time value is within 8.64e15 ms of the epoch. *)
Definition TimeClip (time : number) : JsDate :=
  if negb (isFinite time) then None
  else if 8640000000000000 <? Math_abs time then None
  else Some (ToIntegerOrInfinity time).

Definition mapPermissionStatus (status : JsValue) : LocationPermissionStatus :=
  match status with
  | JsString s =>
      if String.eqb s "granted" then GRANTED
      else if String.eqb s "denied" then DENIED
      else UNDETERMINED
  | _ => UNDETERMINED
  end.

(** [new Set(Object.values(GPS_ACCURACY))] *)
Definition validGPSAccuracies : gset string := list_to_set (Object_values GPS_ACCURACY).

Definition validateConfig (config : option LocationServiceConfig) : bool :=
  match config with
  | None => false
  | Some config =>
      if negb (Set_has validGPSAccuracies (accuracy config)) then false
      else if negb (String.eqb (typeof (enableBackground config)) "boolean") then false
      else if match distanceInterval config with
              | JsUndefined => false
              | JsNumber x => x <? 0
              | _ => true
              end then false
      else if match timeInterval config with
              | JsUndefined => false
              | JsNumber x => x <? 0
              | _ => true
              end then false
      else true
  end.

(** The conjunction of the source is evaluated left to right and stops at
    the first operand that is false; the comparisons are made on numbers
    only. *)
Definition validateLocationData (locationData : option LocationData) : bool :=
  match locationData with
  | None => false
  | Some data =>
      match coords data with
      | None => false
      | Some coords =>
          match coords_latitude coords, coords_longitude coords, timestamp data with
          | JsNumber latitude, JsNumber longitude, JsNumber timestamp =>
              isValidCoordinate latitude longitude && (0 <? timestamp)
          | _, _, _ => false
          end
      end
  end.

(** What a call to [createLocationServiceError] is handed as the
    original error. *)
Inductive Cause (Thrown : Type) : Type :=
| NewError (message : string)
| Caught (error : Thrown).
Arguments NewError {Thrown} message.
Arguments Caught {Thrown} error.

Inductive Subscription : Set :=
| subscription (id : nat).

Record WatchOptions : Type := {
  watch_accuracy : StorageService.property Z;
  watch_distanceInterval : JsValue;
  watch_timeInterval : JsValue
}.

Section Service.

Variable Number_toString : number -> string.
Variable Date_parse : string -> JsDate.

(** What a call throws or rejects with; [TypeError] is thrown by a read
    of a property of [undefined] or [null]. *)
Context {Thrown : Type}.
Variable TypeError : Thrown.

(** The name of the property a value used as a key stands for. *)
Definition ToPropertyKey (v : JsValue) : string :=
  match v with
  | JsUndefined => "undefined"
  | JsNull => "null"
  | JsBoolean b => if b then "true" else "false"
  | JsNumber x => Number_toString x
  | JsString s => s
  end.

(** [GPS_ACCURACY.name], for a name that [Object.prototype] does not
    have: the own property, or [undefined]. *)
Definition GPS_ACCURACY_member (name : string) : JsValue :=
  match StorageService.own GPS_ACCURACY name with
  | Some v => JsString v
  | None => JsUndefined
  end.

(** The object literal with computed keys: the properties are defined in
    source order under the names their keys stand for. *)
Definition accuracyMap : StorageService.object Z :=
  fold_left
    (fun o entry =>
       StorageService.set o (ToPropertyKey (GPS_ACCURACY_member (fst entry))) (snd entry))
    [ ("BEST_FOR_NAVIGATION", 1%Z);
      ("BEST", 2%Z);
      ("NEAREST_TEN_METERS", 3%Z);
      ("HUNDRED_METERS", 4%Z);
      ("KILOMETER", 5%Z);
      ("THREE_KILOMETERS", 6%Z) ]
    [].

Definition mapGPSAccuracyToExpo (gpsAccuracy : JsValue) : StorageService.property Z :=
  StorageService.get accuracyMap (ToPropertyKey gpsAccuracy).

(** [new Date(value)] for a value that is not a [Date]. *)
Definition new_Date (value : JsValue) : JsDate :=
  match value with
  | JsUndefined => None
  | JsNull => Some 0%Z
  | JsBoolean b => Some (if b then 1%Z else 0%Z)
  | JsNumber x => TimeClip x
  | JsString s => Date_parse s
  end.

Definition transformLocationData (locationData : option LocationData)
  : completion Thrown LocationPoint :=
  match locationData with
  | None => Throw TypeError
  | Some data =>
      match coords data with
      | None => Throw TypeError
      | Some coords =>
          Return {| point_latitude := coords_latitude coords;
                    point_longitude := coords_longitude coords;
                    point_timestamp := new_Date (timestamp data);
                    point_accuracy :=
                      if ToBoolean (coords_accuracy coords) then coords_accuracy coords
                      else JsNumber 0;
                    point_speed := coords_speed coords;
                    point_heading := coords_heading coords |}
      end
  end.

(** *** The service and its calls *)

(** [LocationServiceError] is imported from utils/errors as a type only:
    [emitError] and the handler [onError] take any value. *)
Definition LocationServiceError : Type := JsValue.

Inductive Effect : Type :=
| OnLocationUpdate (location : LocationPoint)
| OnStatusChange (status : LocationServiceStatus)
| OnError (error : LocationServiceError)
| HasServicesEnabledAsync
| RequestForegroundPermissionsAsync
| RequestBackgroundPermissionsAsync
| DefineTask
| WatchPositionAsync (watchOptions : WatchOptions)
| GetCurrentPositionAsync (accuracy : StorageService.property Z)
| SubscriptionRemove (s : Subscription)
| StopLocationUpdatesAsync.

(** The answers of the location and task modules: whether the services
    are enabled (the truth value of the answer), the [status] of a
    permission answer, the subscription of a watch ([None] for a value
    that is not truthy), the datum of a one-time request. *)
Record Apis : Type := {
  hasServicesEnabledAsync : completion Thrown bool;
  requestForegroundPermissionsAsync : completion Thrown JsValue;
  requestBackgroundPermissionsAsync : completion Thrown JsValue;
  defineTask : completion Thrown unit;
  watchPositionAsync : WatchOptions -> completion Thrown (option Subscription);
  getCurrentPositionAsync :
    StorageService.property Z -> completion Thrown (option LocationData);
  remove : Subscription -> completion Thrown unit;
  stopLocationUpdatesAsync : completion Thrown unit
}.

Record Service : Type := {
  config : option LocationServiceConfig;
  status : LocationServiceStatus;
  events : bool;
  locationSubscription : option Subscription;
  trace : list Effect
}.

(** [new LocationService(...)] *)
Definition initial : Service :=
  {| config := None; status := STOPPED; events := false;
     locationSubscription := None; trace := [] |}.

(** A computation of a method: from the service to the service it
    leaves and its completion. *)
Definition M (A : Type) : Type := Service -> Service * completion Thrown A.

Definition ret {A : Type} (a : A) : M A := fun s => (s, Return a).

Definition throw {A : Type} (e : Thrown) : M A := fun s => (s, Throw e).

Definition bind {A B : Type} (m : M A) (k : A -> M B) : M B :=
  fun s =>
    match m s with
    | (s', Return a) => k a s'
    | (s', Throw e) => (s', Throw e)
    end.

Notation "'do' x <- m ; k" := (bind m (fun x => k))
  (at level 10, x name, m at level 100, k at level 200).

(** [try { body } catch (error) { handler }] *)
Definition try_catch {A : Type} (body : M A) (handler : Thrown -> M A) : M A :=
  fun s =>
    match body s with
    | (s', Throw e) => handler e s'
    | r => r
    end.

Definition record (e : Effect) (s : Service) : Service :=
  {| config := config s; status := status s; events := events s;
     locationSubscription := locationSubscription s;
     trace := (trace s ++ [e])%list |}.

(** A call into a module: recorded, then completed as the module
    answers. *)
Definition call {A : Type} (e : Effect) (outcome : completion Thrown A) : M A :=
  fun s => (record e s, outcome).

(** [this.events?.handler(...)] *)
Definition notify (e : Effect) : M unit :=
  fun s => (if events s then record e s else s, Return tt).

Definition set_config (c : option LocationServiceConfig) : M unit :=
  fun s =>
    ({| config := c; status := status s; events := events s;
        locationSubscription := locationSubscription s; trace := trace s |}, Return tt).

Definition set_status (st : LocationServiceStatus) : M unit :=
  fun s =>
    ({| config := config s; status := st; events := events s;
        locationSubscription := locationSubscription s; trace := trace s |}, Return tt).

Definition set_locationSubscription (sub : option Subscription) : M unit :=
  fun s =>
    ({| config := config s; status := status s; events := events s;
        locationSubscription := sub; trace := trace s |}, Return tt).

Definition setEventHandlers : M unit :=
  fun s =>
    ({| config := config s; status := status s; events := true;
        locationSubscription := locationSubscription s; trace := trace s |}, Return tt).

(** utils/errors exports neither LOCATION_SERVICE_ERROR_CODES nor
    [createLocationServiceError]: in the service both imports are
    [undefined].  A call
    [createLocationServiceError(LOCATION_SERVICE_ERROR_CODES.code, message, originalError)]
    evaluates its first argument, a read of a property of [undefined],
    and throws the TypeError of the engine: no error is built. *)
Definition createLocationServiceError (code message : string)
    (originalError : option (Cause Thrown)) : M LocationServiceError :=
  throw TypeError.

Definition setStatus (st : LocationServiceStatus) : M unit :=
  do _ <- set_status st;
  notify (OnStatusChange st).

Definition emitError (error : LocationServiceError) : M unit :=
  notify (OnError error).

Definition configure (c : option LocationServiceConfig) : M unit :=
  if negb (validateConfig c) then
    do error <- createLocationServiceError "CONFIGURATION_ERROR"
                  "Invalid location service configuration" None;
    emitError error
  else set_config c.

Section Calls.

Variable apis : Apis.

Definition requestPermissions (enableBackground : JsValue)
  : M (LocationPermissionStatus * option LocationPermissionStatus) :=
  try_catch
    (do foregroundPermission <-
       call RequestForegroundPermissionsAsync (requestForegroundPermissionsAsync apis);
     let foregroundStatus := mapPermissionStatus foregroundPermission in
     if ToBoolean enableBackground &&
        match foregroundStatus with GRANTED => true | _ => false end then
       do backgroundPermission <-
         call RequestBackgroundPermissionsAsync (requestBackgroundPermissionsAsync apis);
       ret (foregroundStatus, Some (mapPermissionStatus backgroundPermission))
     else ret (foregroundStatus, None))
    (fun error =>
       do e <- createLocationServiceError "PERMISSION_DENIED"
                 "Failed to request location permissions" (Some (Caught error));
       do _ <- emitError e;
       ret (DENIED, Some DENIED)).

Definition setupBackgroundTask : M unit :=
  try_catch
    (call DefineTask (defineTask apis))
    (fun error =>
       do e <- createLocationServiceError "CONFIGURATION_ERROR"
                 "Failed to setup background location task" (Some (Caught error));
       emitError e).

Definition handleLocationUpdate (locationData : option LocationData) : M unit :=
  if negb (validateLocationData locationData) then
    do e <- createLocationServiceError "LOCATION_UNAVAILABLE"
              "Invalid location data received"
              (Some (NewError "Invalid location coordinates or timestamp"));
    emitError e
  else
    do locationPoint <- (fun s => (s, transformLocationData locationData));
    notify (OnLocationUpdate locationPoint).

Definition checkLocationServices : M bool :=
  try_catch
    (do isEnabled <- call HasServicesEnabledAsync (hasServicesEnabledAsync apis);
     do _ <- (if negb isEnabled then
                do e <- createLocationServiceError "SERVICE_UNAVAILABLE"
                          "Location services are disabled" None;
                emitError e
              else ret tt);
     ret isEnabled)
    (fun error =>
       do e <- createLocationServiceError "SERVICE_UNAVAILABLE"
                 "Failed to check location services" (Some (Caught error));
       do _ <- emitError e;
       ret false).

Definition getCurrentLocation : M (option LocationPoint) :=
  try_catch
    (do accuracy <-
       (fun s =>
          (s, Return match config s with
                     | Some c => mapGPSAccuracyToExpo (accuracy c)
                     | None => StorageService.OwnValue 2%Z
                     end));
     do locationData <-
       call (GetCurrentPositionAsync accuracy) (getCurrentPositionAsync apis accuracy);
     if validateLocationData locationData then
       do locationPoint <- (fun s => (s, transformLocationData locationData));
       ret (Some locationPoint)
     else ret None)
    (fun error =>
       do e <- createLocationServiceError "LOCATION_UNAVAILABLE"
                 "Failed to get current location" (Some (Caught error));
       do _ <- emitError e;
       ret None).

(** The constant [watchOptions] of [startTracking]. *)
Definition watchOptions (config : LocationServiceConfig) : WatchOptions :=
  {| watch_accuracy := mapGPSAccuracyToExpo (accuracy config);
     watch_distanceInterval := distanceInterval config;
     watch_timeInterval := timeInterval config |}.

Definition startTracking (c : option LocationServiceConfig) : M unit :=
  match c with
  | None =>
      do e <- createLocationServiceError "CONFIGURATION_ERROR"
                "Configuration required to start tracking" None;
      emitError e
  | Some config =>
      do _ <- configure c;
      do _ <- setStatus STARTING;
      try_catch
        (do servicesEnabled <- checkLocationServices;
         if negb servicesEnabled then setStatus ERROR
         else
           do permissions <- requestPermissions (enableBackground config);
           match fst permissions with
           | GRANTED =>
               do _ <- (if ToBoolean (enableBackground config)
                        then setupBackgroundTask else ret tt);
               do sub <- call (WatchPositionAsync (watchOptions config))
                           (watchPositionAsync apis (watchOptions config));
               do _ <- set_locationSubscription sub;
               setStatus RUNNING
           | _ => setStatus ERROR
           end)
        (fun error =>
           do e <- createLocationServiceError "LOCATION_UNAVAILABLE"
                     "Failed to start location tracking" (Some (Caught error));
           do _ <- emitError e;
           setStatus ERROR)
  end.

Definition stopTracking : M unit :=
  do _ <- setStatus STOPPING;
  try_catch
    (do _ <- (fun s =>
                match locationSubscription s with
                | Some sub =>
                    (do _ <- call (SubscriptionRemove sub) (remove apis sub);
                     set_locationSubscription None) s
                | None => ret tt s
                end);
     do _ <- (fun s =>
                if match config s with
                   | Some c => ToBoolean (enableBackground c)
                   | None => false
                   end
                then call StopLocationUpdatesAsync (stopLocationUpdatesAsync apis) s
                else ret tt s);
     setStatus STOPPED)
    (fun error =>
       do e <- createLocationServiceError "CONFIGURATION_ERROR"
                 "Failed to stop location tracking" (Some (Caught error));
       do _ <- emitError e;
       setStatus ERROR).

End Calls.

(** The status changes among the calls made. *)
Definition status_changes (l : list Effect) : list LocationServiceStatus :=
  omap (fun e => match e with OnStatusChange st => Some st | _ => None end) l.

Definition is_module_call (e : Effect) : bool :=
  match e with
  | OnLocationUpdate _ | OnStatusChange _ | OnError _ => false
  | _ => true
  end.

Definition module_calls (l : list Effect) : list Effect :=
  List.filter is_module_call l.

Definition is_onError (e : Effect) : bool :=
  match e with
  | OnError _ => true
  | _ => false
  end.

(** [made s l s']: the service [s'] is [s] after the calls [l] were
    made, with the same handlers. *)
Definition made (s : Service) (l : list Effect) (s' : Service) : Prop :=
  events s' = events s /\ trace s' = (trace s ++ l)%list.

End Service.

(** *** Runs of the service

    A call of a public method, with the answers the modules give during
    it.  A run goes on after a method that throws, as a caller that
    catches does. *)
Inductive Call {Thrown : Type} : Type :=
| Configure (c : option LocationServiceConfig)
| SetEventHandlers
| StartTracking (apis : @Apis Thrown) (c : option LocationServiceConfig)
| StopTracking (apis : @Apis Thrown)
| HandleLocationUpdate (locationData : option LocationData)
| GetCurrentLocation (apis : @Apis Thrown).

Section Runs.

Variable Number_toString : number -> string.
Variable Date_parse : string -> JsDate.
Context {Thrown : Type}.
Variable TypeError : Thrown.

Definition step (s : Service) (c : Call) : Service :=
  match c with
  | Configure c => fst (configure TypeError c s)
  | SetEventHandlers => fst (setEventHandlers (Thrown := Thrown) s)
  | StartTracking apis c => fst (startTracking Number_toString TypeError apis c s)
  | StopTracking apis => fst (stopTracking TypeError apis s)
  | HandleLocationUpdate d => fst (handleLocationUpdate Date_parse TypeError d s)
  | GetCurrentLocation apis =>
      fst (getCurrentLocation Number_toString Date_parse TypeError apis s)
  end.

Definition run (calls : list Call) : Service := fold_left step calls initial.

End Runs.

(** A configuration and a datum used as concrete inputs. *)
Definition config0 : LocationServiceConfig :=
  {| accuracy := JsString "best"; enableBackground := JsBoolean false;
     distanceInterval := JsNumber 10; timeInterval := JsUndefined |}.

Definition data0 : LocationData :=
  {| coords := Some {| coords_latitude := JsNumber 35.5; coords_longitude := JsNumber 139.75;
                       coords_accuracy := JsNumber 5; coords_speed := JsNull;
                       coords_heading := JsNull |};
     timestamp := JsNumber 1672567200000 |}.

(** Answers of the modules used in concrete evaluations: every call
    succeeds; the services are disabled. *)
Definition apis0 : @Apis string :=
  {| hasServicesEnabledAsync := Return true;
     requestForegroundPermissionsAsync := Return (JsString "granted");
     requestBackgroundPermissionsAsync := Return (JsString "granted");
     defineTask := Return tt;
     watchPositionAsync := fun _ => Return (Some (subscription 1));
     getCurrentPositionAsync := fun _ => Return (Some data0);
     remove := fun _ => Return tt;
     stopLocationUpdatesAsync := Return tt |}.

Definition apis_disabled : @Apis string :=
  {| hasServicesEnabledAsync := Return false;
     requestForegroundPermissionsAsync := Return (JsString "granted");
     requestBackgroundPermissionsAsync := Return (JsString "granted");
     defineTask := Return tt;
     watchPositionAsync := fun _ => Return (Some (subscription 1));
     getCurrentPositionAsync := fun _ => Return (Some data0);
     remove := fun _ => Return tt;
     stopLocationUpdatesAsync := Return tt |}.

End LocationService.

(** ** A sample with one of its optional measurements replaced *)

Module SampleUpdates.

Import Location.

Definition with_accuracy (a : number) (p : LocationPoint) : LocationPoint :=
  {| latitude := latitude p; longitude := longitude p; timestamp := timestamp p;
     accuracy := a; speed := speed p; heading := heading p |}.

Definition with_speed (s : option number) (p : LocationPoint) : LocationPoint :=
  {| latitude := latitude p; longitude := longitude p; timestamp := timestamp p;
     accuracy := accuracy p; speed := s; heading := heading p |}.

Definition with_heading (h : option number) (p : LocationPoint) : LocationPoint :=
  {| latitude := latitude p; longitude := longitude p; timestamp := timestamp p;
     accuracy := accuracy p; speed := speed p; heading := h |}.

End SampleUpdates.

(** ** The value of [Math.round], and the speed as the specification
    words it *)

Module Rounding.

Import Calculations.
Local Open Scope float_scope.

(** The integral significand of a finite binary64 number with its
    sign: the number is [signed s m * 2 ^ e]. *)
Definition signed (s : bool) (m : positive) : Z := if s then (- Z.pos m)%Z else Z.pos m.

(** [holds_integer x n]: the number [x] is the integer [n]. *)
Definition holds_integer (x : spec_float) (n : Z) : Prop :=
  match x with
  | S754_zero _ => n = 0%Z
  | S754_finite s m e =>
      if (0 <=? e)%Z then (signed s m * 2 ^ e)%Z = n
      else signed s m = (n * 2 ^ (- e))%Z
  | _ => False
  end.

(** [nearest_up x n]: [n] is the integer nearest to the finite number
    [x], the larger one when two integers are as near, that is
    [2 x - 1 < 2 n <= 2 x + 1]; the inequalities are written for
    [x = signed s m / 2 ^ (- e)], multiplied by [2 ^ (- e)]. *)
Definition nearest_up (x : spec_float) (n : Z) : Prop :=
  match x with
  | S754_zero _ => n = 0%Z
  | S754_finite s m e =>
      if (0 <=? e)%Z then n = (signed s m * 2 ^ e)%Z
      else (2 * signed s m - 2 ^ (- e) < 2 ^ (1 - e) * n <= 2 * signed s m + 2 ^ (- e))%Z
  | _ => False
  end.

(** As the specification words it: distanceMeters / seconds * 3.6,
    rounded to 6 decimal digits (in binary64, 3.6 being the number
    nearest to it). *)
Definition speedKmh (distanceMeters seconds : number) : number :=
  round6 (distanceMeters / seconds * 0x1.ccccccccccccdp+1).

End Rounding.

(** * Properties *)

(** ** Facts about binary64 comparisons with zero *)

Module FloatFacts.

Local Open Scope float_scope.

Lemma Prim2SF_zero : Prim2SF 0 = S754_zero false.
Proof. reflexivity. Qed.

Lemma leb_zero_not_ltb (x : float) : (0 <=? x) = true -> (x <? 0) = false.
Proof.
  rewrite FloatAxioms.leb_spec, FloatAxioms.ltb_spec, Prim2SF_zero.
  destruct (Prim2SF x) as [s|s| |s m e]; try destruct s; cbn; congruence.
Qed.

Lemma ltb_zero_not_leb (x : float) : (0 <? x) = true -> (x <=? 0) = false.
Proof.
  rewrite FloatAxioms.leb_spec, FloatAxioms.ltb_spec, Prim2SF_zero.
  destruct (Prim2SF x) as [s|s| |s m e]; try destruct s; cbn; congruence.
Qed.

Lemma is_finite_not_nan (x : float) : is_finite x = true -> is_nan x = false.
Proof.
  unfold is_finite. destruct (is_nan x); cbn; congruence.
Qed.

(** A number that is not NaN is negative or at least zero. *)
Lemma not_nan_sign (x : float) :
  is_nan x = false -> (x <? 0) = true \/ (0 <=? x) = true.
Proof.
  unfold is_nan. rewrite FloatAxioms.eqb_spec, FloatAxioms.leb_spec, FloatAxioms.ltb_spec, Prim2SF_zero.
  destruct (Prim2SF x) as [s|s| |s m e]; try destruct s; cbn; auto; congruence.
Qed.

Lemma not_nan_sign' (x : float) :
  is_nan x = false -> (x <=? 0) = true \/ (0 <? x) = true.
Proof.
  unfold is_nan. rewrite FloatAxioms.eqb_spec, FloatAxioms.leb_spec, FloatAxioms.ltb_spec, Prim2SF_zero.
  destruct (Prim2SF x) as [s|s| |s m e]; try destruct s; cbn; auto; congruence.
Qed.

End FloatFacts.

(** ** utils/calculations *)

Module CalculationsSpec.

Import Calculations FloatFacts.
Local Open Scope float_scope.

Lemma guard_finite (x : number) :
  isFinite x = true -> negb (isFinite x) || isNaN x = false.
Proof.
  unfold isFinite, isNaN. intros H.
  rewrite (is_finite_not_nan x H), H. reflexivity.
Qed.

(** Every pair of numbers falls in one of four cases: an argument that is
    not finite, a negative distance, a time that is not positive, or a
    distance that is not negative with a positive time. *)
Lemma calculateSpeed_cases (d t : number) :
  (isFinite d = false \/ isFinite t = false) \/
  (isFinite d = true /\ isFinite t = true /\
   ((d <? 0) = true \/
    ((0 <=? d) = true /\ ((t <=? 0) = true \/ (0 <? t) = true)))).
Proof.
  destruct (isFinite d) eqn:Hd; [|auto].
  destruct (isFinite t) eqn:Ht; [|auto].
  right. repeat split.
  destruct (not_nan_sign d (is_finite_not_nan d Hd)) as [H|H]; [auto|].
  right. split; [exact H|].
  exact (not_nan_sign' t (is_finite_not_nan t Ht)).
Qed.

(** The outcome of [calculateSpeed] in each of the four cases. *)
Lemma calculateSpeed_outcomes (d t : number) :
  (isFinite d = false \/ isFinite t = false ->
     exists field, fails_with (calculateSpeed d t) INVALID_VALUE field) /\
  (isFinite d = true -> isFinite t = true -> (d <? 0) = true ->
     fails_with (calculateSpeed d t) NEGATIVE_VALUE "distanceInMeters") /\
  (isFinite d = true -> isFinite t = true -> (0 <=? d) = true -> (t <=? 0) = true ->
     fails_with (calculateSpeed d t) ZERO_OR_NEGATIVE_VALUE "timeInSeconds") /\
  (isFinite d = true -> isFinite t = true -> (0 <=? d) = true -> (0 <? t) = true ->
     calculateSpeed d t = Return (round6 (d / t * 3600 / 1000))).
Proof.
  unfold fails_with. split; [|split; [|split]].
  - intros [Hd|Ht].
    + exists "distanceInMeters"%string. unfold calculateSpeed. rewrite Hd. cbn.
      eexists; repeat split.
    + unfold calculateSpeed.
      destruct (negb (isFinite d) || isNaN d).
      * exists "distanceInMeters"%string. eexists; repeat split.
      * exists "timeInSeconds"%string. rewrite Ht. cbn. eexists; repeat split.
  - intros Hd Ht Hneg. unfold calculateSpeed.
    rewrite (guard_finite d Hd), (guard_finite t Ht), Hneg.
    eexists; repeat split.
  - intros Hd Ht Hpos Hle. unfold calculateSpeed.
    rewrite (guard_finite d Hd), (guard_finite t Ht), (leb_zero_not_ltb d Hpos), Hle.
    eexists; repeat split.
  - intros Hd Ht Hpos Hlt. unfold calculateSpeed.
    rewrite (guard_finite d Hd), (guard_finite t Ht), (leb_zero_not_ltb d Hpos),
      (ltb_zero_not_leb t Hlt).
    reflexivity.
Qed.

End CalculationsSpec.

(** ** types/location: accuracy tiers *)

Module LocationSpec.

Import Location SampleChecks.
Local Open Scope string_scope.

Lemma VALID_GPS_ACCURACIES_elem (s : string) :
  s ∈ VALID_GPS_ACCURACIES <->
  s = "best" \/ s = "nearest-ten-meters" \/ s = "hundred-meters" \/
  s = "kilometer" \/ s = "three-kilometers".
Proof.
  unfold VALID_GPS_ACCURACIES. rewrite elem_of_list_to_set. cbn.
  rewrite !elem_of_cons, elem_of_nil. tauto.
Qed.

(** [validateGPSAccuracy] accepts exactly the five strings of
    [GPS_ACCURACY]. *)
Lemma validateGPSAccuracy_true_iff (v : JsValue) :
  validateGPSAccuracy v = true <->
  exists s, v = JsString s /\
    (s = "best" \/ s = "nearest-ten-meters" \/ s = "hundred-meters" \/
     s = "kilometer" \/ s = "three-kilometers").
Proof.
  unfold validateGPSAccuracy, Set_has. split.
  - destruct v; try discriminate. intros H%bool_decide_eq_true.
    eexists; split; [reflexivity|]. apply VALID_GPS_ACCURACIES_elem, H.
  - intros (s & -> & H). apply bool_decide_eq_true, VALID_GPS_ACCURACIES_elem, H.
Qed.

(** C3. On the tier string best-for-navigation, which the location
    service maps to an accuracy of its own, [validateGPSAccuracy] answers
    [false] and [validateGPSAccuracyDetailed] reports
    INVALID_GPS_ACCURACY: [GPS_ACCURACY] holds five tiers, not six. *)
Theorem validateGPSAccuracy_best_for_navigation (ToString : JsValue -> string) :
  validateGPSAccuracy (JsString "best-for-navigation") = false /\
  isValid (validateGPSAccuracyDetailed ToString (JsString "best-for-navigation")) = false /\
  (exists e, error (validateGPSAccuracyDetailed ToString (JsString "best-for-navigation")) = Some e
             /\ le_code e = INVALID_GPS_ACCURACY) /\
  length (Object_values GPS_ACCURACY) = 5%nat.
Proof.
  assert (H : validateGPSAccuracy (JsString "best-for-navigation") = false).
  { apply not_true_iff_false. intros (s & [= <-] & Hs)%validateGPSAccuracy_true_iff.
    repeat destruct Hs as [Hs|Hs]; discriminate. }
  unfold validateGPSAccuracyDetailed. rewrite H. cbn.
  repeat split. eexists; split; reflexivity.
Qed.

End LocationSpec.

(** ** types/location: sample validation *)

Module SampleValidationSpec.

Import Location SampleChecks SampleUpdates.
Local Open Scope string_scope.
Local Open Scope float_scope.

(** The first failure is the earliest field of the order whose check
    fails: every field before it passes, whatever the later ones hold. *)
Lemma first_failure_earliest (p : LocationPoint) (f : SampleField) :
  first_failure p = Some f <->
  field_invalid p f = true /\
  forall g, (field_index g < field_index f)%nat -> field_invalid p g = false.
Proof.
  unfold first_failure, check_order. cbn [List.find]. split.
  - intros H.
    destruct (field_invalid p FLatitude) eqn:E1;
      [injection H as <-; split; [exact E1|intros []; cbn; lia]|].
    destruct (field_invalid p FLongitude) eqn:E2;
      [injection H as <-; split; [exact E2|intros []; cbn; intros; (lia || assumption)]|].
    destruct (field_invalid p FAccuracy) eqn:E3;
      [injection H as <-; split; [exact E3|intros []; cbn; intros; (lia || assumption)]|].
    destruct (field_invalid p FSpeed) eqn:E4;
      [injection H as <-; split; [exact E4|intros []; cbn; intros; (lia || assumption)]|].
    destruct (field_invalid p FHeading) eqn:E5;
      [injection H as <-; split; [exact E5|intros []; cbn; intros; (lia || assumption)]|].
    discriminate.
  - intros [Hf Hlt].
    assert (Hb : forall g, (field_index g <? field_index f)%nat = true ->
                           field_invalid p g = false).
    { intros g Hg. apply Hlt, Nat.ltb_lt, Hg. }
    destruct f; cbn in Hb;
      repeat match goal with
        | |- context [field_invalid p ?g] =>
            first [ rewrite (Hb g eq_refl) | rewrite Hf ]
        end; reflexivity.
Qed.

(** What [validateLocationPointDetailed] returns, read off the first
    failing check. *)
Lemma validate_by_first_failure (toStr : number -> string) (p : LocationPoint) :
  match first_failure p with
  | Some f => reports toStr (validateLocationPointDetailed toStr p) p f
  | None => validateLocationPointDetailed toStr p = valid_result
  end.
Proof.
  unfold first_failure, check_order, reports, validateLocationPointDetailed,
    isValidLatitude, isValidLongitude, MAX_LATITUDE, MAX_LONGITUDE.
  cbn [List.find field_invalid].
  destruct (negb (Math_abs (latitude p) <=? 90)).
  { do 4 eexists. repeat split. }
  destruct (negb (Math_abs (longitude p) <=? 180)).
  { do 4 eexists. repeat split. }
  destruct (accuracy p <? 0).
  { do 4 eexists. repeat split. }
  destruct (speed p) as [v|] eqn:Es; [destruct (v <? 0)|].
  { exists (newLocationError NEGATIVE_SPEED
              ("Invalid speed: " ++ toStr v ++ ". Must be non-negative or null.")
              "speed"), v.
    do 2 eexists. repeat split. exact Es. }
  all: destruct (heading p) as [h|] eqn:Eh; [destruct ((h <? 0) || (360 <? h))|];
    try reflexivity.
  all: exists (newLocationError INVALID_HEADING
              ("Invalid heading: " ++ toStr h ++ ". Must be between 0 and 360 or null.")
              "heading"), h.
  all: do 2 eexists; repeat split; exact Eh.
Qed.

Lemma validate_reports_earliest (toStr : number -> string) (p : LocationPoint)
    (f : SampleField) :
  field_invalid p f = true ->
  (forall g, (field_index g < field_index f)%nat -> field_invalid p g = false) ->
  reports toStr (validateLocationPointDetailed toStr p) p f.
Proof.
  intros Hf Hlt.
  assert (E : first_failure p = Some f) by (apply first_failure_earliest; auto).
  pose proof (validate_by_first_failure toStr p) as Hmain.
  rewrite E in Hmain. exact Hmain.
Qed.

Lemma reports_not_valid (toStr : number -> string) (r : ValidationResult)
    (p : LocationPoint) (f : SampleField) :
  reports toStr r p f -> isValid r = false.
Proof. intros (e & v & pre & post & -> & _). reflexivity. Qed.

(** C9. [validateLocationPointDetailed] checks latitude, longitude,
    accuracy, speed and heading in this order and stops at the first check
    that fails: the error it returns has the kind of the earliest failing
    field, names that field, and its message contains the field's value;
    this holds in particular when several fields are invalid.  A sample
    that passes the five checks gets [isValid = true] and no error. *)
Theorem validateLocationPointDetailed_first_failure
    (toStr : number -> string) (p : LocationPoint) :
  match first_failure p with
  | Some f => reports toStr (validateLocationPointDetailed toStr p) p f
  | None => validateLocationPointDetailed toStr p = valid_result
  end /\
  (forall f, field_invalid p f = true ->
     (forall g, (field_index g < field_index f)%nat -> field_invalid p g = false) ->
     reports toStr (validateLocationPointDetailed toStr p) p f) /\
  ((forall f, field_invalid p f = false) ->
     validateLocationPointDetailed toStr p = valid_result).
Proof.
  split; [apply validate_by_first_failure|split].
  - intros f. apply validate_reports_earliest.
  - intros Hall.
    assert (E : first_failure p = None).
    { unfold first_failure, check_order. cbn [List.find]. rewrite !Hall. reflexivity. }
    pose proof (validate_by_first_failure toStr p) as Hmain.
    rewrite E in Hmain. exact Hmain.
Qed.

(** A sample whose latitude, longitude and accuracy are all out of range:
    the latitude error is the one reported. *)
Lemma validateLocationPointDetailed_first_failure_witness :
  reports (fun _ => "v") (validateLocationPointDetailed (fun _ => "v")
     (sample 91 (-181) (-1) (Some (-1)) (Some 361)))
     (sample 91 (-181) (-1) (Some (-1)) (Some 361)) FLatitude.
Proof.
  apply (validateLocationPointDetailed_first_failure (fun _ => "v")
           (sample 91 (-181) (-1) (Some (-1)) (Some 361))).
  - reflexivity.
  - intros g Hg. destruct g; cbn in Hg; lia.
Defined.

(** The boolean wrapper answers [true] exactly when none of the five
    comparisons of the source holds. *)
Lemma validateLocationPoint_true_iff (toStr : number -> string) (p : LocationPoint) :
  validateLocationPoint toStr p = true <->
  isValidLatitude (latitude p) = true /\
  isValidLongitude (longitude p) = true /\
  (accuracy p <? 0) = false /\
  match speed p with Some v => v <? 0 | None => false end = false /\
  match heading p with Some h => (h <? 0) || (360 <? h) | None => false end = false.
Proof.
  unfold validateLocationPoint, validateLocationPointDetailed.
  destruct (isValidLatitude (latitude p)); cbn [negb]; [|cbn; intuition congruence].
  destruct (isValidLongitude (longitude p)); cbn [negb]; [|cbn; intuition congruence].
  destruct (accuracy p <? 0); [cbn; intuition congruence|].
  destruct (match speed p with Some v => v <? 0 | None => false end);
    [cbn; intuition congruence|].
  destruct (match heading p with Some h => (h <? 0) || (360 <? h) | None => false end);
    cbn; intuition congruence.
Qed.

(** The specification's sentence fails as worded: with latitude and
    longitude in range, a sample whose accuracy is NaN is rejected when
    its speed is negative, and the values +Infinity in the heading and -Infinity in
    the accuracy, the speed or the heading, none of them finite, are
    rejected. *)
Lemma validateLocationPoint_non_finite_rejected :
  (isValidLatitude 35.5 = true /\ isValidLongitude 139.75 = true) /\
  (is_nan nan = true /\
   validateLocationPoint (fun _ => "v") (sample 35.5 139.75 nan (Some (-1)) None) = false /\
   isValid (validateLocationPointDetailed (fun _ => "v")
              (sample 35.5 139.75 nan (Some (-1)) None)) = false) /\
  (is_finite infinity = false /\
   validateLocationPoint (fun _ => "v") (sample 35.5 139.75 5 None (Some infinity)) = false) /\
  (is_finite neg_infinity = false /\
   validateLocationPoint (fun _ => "v") (sample 35.5 139.75 neg_infinity None None) = false /\
   validateLocationPoint (fun _ => "v") (sample 35.5 139.75 5 (Some neg_infinity) None) = false /\
   validateLocationPoint (fun _ => "v") (sample 35.5 139.75 5 None (Some neg_infinity)) = false).
Proof. repeat split. Qed.

(** C10. A NaN in the accuracy, the speed or the heading passes the
    check of its field: the sample is judged as it is with accuracy 0,
    with no speed, with no heading; so with latitude and longitude in
    range a sample whose three measurements are NaN is valid.  Of the
    infinite values, +Infinity passes as accuracy and as speed, while
    -Infinity as accuracy or speed and either infinity as heading are
    reported as NEGATIVE_ACCURACY, NEGATIVE_SPEED and INVALID_HEADING
    when the checks before them pass.  A NaN latitude or longitude is
    rejected.  The boolean wrapper [validateLocationPoint] answers
    accordingly. *)
Theorem validateLocationPoint_non_finite (toStr : number -> string) (p : LocationPoint) :
  (validateLocationPointDetailed toStr (with_accuracy nan p)
     = validateLocationPointDetailed toStr (with_accuracy 0 p) /\
   validateLocationPointDetailed toStr (with_speed (Some nan) p)
     = validateLocationPointDetailed toStr (with_speed None p) /\
   validateLocationPointDetailed toStr (with_heading (Some nan) p)
     = validateLocationPointDetailed toStr (with_heading None p)) /\
  (isValidLatitude (latitude p) = true -> isValidLongitude (longitude p) = true ->
   validateLocationPointDetailed toStr
     (with_accuracy nan (with_speed (Some nan) (with_heading (Some nan) p))) = valid_result /\
   validateLocationPoint toStr
     (with_accuracy nan (with_speed (Some nan) (with_heading (Some nan) p))) = true) /\
  (validateLocationPointDetailed toStr (with_accuracy infinity p)
     = validateLocationPointDetailed toStr (with_accuracy 0 p) /\
   validateLocationPointDetailed toStr (with_speed (Some infinity) p)
     = validateLocationPointDetailed toStr (with_speed None p)) /\
  (isValidLatitude (latitude p) = true -> isValidLongitude (longitude p) = true ->
   (accuracy p = neg_infinity ->
    validateLocationPoint toStr p = false /\
    reports toStr (validateLocationPointDetailed toStr p) p FAccuracy) /\
   ((accuracy p <? 0) = false -> speed p = Some neg_infinity ->
    validateLocationPoint toStr p = false /\
    reports toStr (validateLocationPointDetailed toStr p) p FSpeed) /\
   ((accuracy p <? 0) = false ->
    match speed p with Some v => v <? 0 | None => false end = false ->
    heading p = Some infinity \/ heading p = Some neg_infinity ->
    validateLocationPoint toStr p = false /\
    reports toStr (validateLocationPointDetailed toStr p) p FHeading)) /\
  (latitude p = nan ->
   validateLocationPoint toStr p = false /\
   reports toStr (validateLocationPointDetailed toStr p) p FLatitude) /\
  (isValidLatitude (latitude p) = true -> longitude p = nan ->
   validateLocationPoint toStr p = false /\
   reports toStr (validateLocationPointDetailed toStr p) p FLongitude).
Proof.
  assert (R : forall f,
             field_invalid p f = true ->
             (forall g, (field_index g < field_index f)%nat -> field_invalid p g = false) ->
             validateLocationPoint toStr p = false /\
             reports toStr (validateLocationPointDetailed toStr p) p f).
  { intros f Hf Hg. pose proof (validate_reports_earliest toStr p f Hf Hg) as H.
    split; [exact (reports_not_valid _ _ _ _ H)|exact H]. }
  split; [|split; [|split; [|split; [|split]]]].
  - unfold validateLocationPointDetailed, with_accuracy, with_speed, with_heading.
    cbn [latitude longitude accuracy speed heading].
    change (nan <? 0) with false. change (0 <? 0) with false.
    change ((nan <? 0) || (360 <? nan)) with false.
    repeat split.
  - intros Hlat Hlon.
    unfold validateLocationPoint, validateLocationPointDetailed,
      with_accuracy, with_speed, with_heading.
    cbn [latitude longitude accuracy speed heading]. rewrite Hlat, Hlon.
    split; reflexivity.
  - unfold validateLocationPointDetailed, with_accuracy, with_speed.
    cbn [latitude longitude accuracy speed heading].
    change (infinity <? 0) with false. change (0 <? 0) with false.
    split; reflexivity.
  - intros Hlat Hlon.
    assert (Ha : field_invalid p FLatitude = false)
      by (change (negb (isValidLatitude (latitude p)) = false); rewrite Hlat; reflexivity).
    assert (Ho : field_invalid p FLongitude = false)
      by (change (negb (isValidLongitude (longitude p)) = false); rewrite Hlon; reflexivity).
    split; [|split].
    + intros Hacc. apply R; [cbn; rewrite Hacc; reflexivity|].
      intros g Hg. destruct g; cbn [field_index] in Hg; try lia; assumption.
    + intros Hacc Hspd. apply R; [cbn; rewrite Hspd; reflexivity|].
      intros g Hg. destruct g; cbn [field_index] in Hg; try lia; assumption.
    + intros Hacc Hspd Hhdg.
      apply R; [cbn; destruct Hhdg as [-> | ->]; reflexivity|].
      intros g Hg. destruct g; cbn [field_index] in Hg; try lia; assumption.
  - intros Hnan. apply R; [cbn; rewrite Hnan; reflexivity|].
    intros g Hg. destruct g; cbn in Hg; lia.
  - intros Hlat Hnan. apply R; [cbn; rewrite Hnan; reflexivity|].
    intros g Hg. destruct g; cbn [field_index] in Hg; try lia.
    change (negb (isValidLatitude (latitude p)) = false). rewrite Hlat. reflexivity.
Qed.

Lemma validateLocationPoint_non_finite_witness :
  validateLocationPoint (fun _ => "v")
    (with_accuracy nan (with_speed (Some nan) (with_heading (Some nan)
       (sample 35.5 139.75 5 (Some 2.5) (Some 45))))) = true /\
  reports (fun _ => "v")
    (validateLocationPointDetailed (fun _ => "v")
       (sample 35.5 139.75 5 (Some neg_infinity) (Some infinity)))
    (sample 35.5 139.75 5 (Some neg_infinity) (Some infinity)) FSpeed /\
  validateLocationPoint (fun _ => "v") (sample nan 139.75 5 (Some 2.5) (Some 45)) = false.
Proof.
  split; [|split].
  - destruct (validateLocationPoint_non_finite (fun _ => "v")
                (sample 35.5 139.75 5 (Some 2.5) (Some 45))) as (_ & H & _).
    exact (proj2 (H eq_refl eq_refl)).
  - destruct (validateLocationPoint_non_finite (fun _ => "v")
                (sample 35.5 139.75 5 (Some neg_infinity) (Some infinity)))
      as (_ & _ & _ & H & _).
    destruct (H eq_refl eq_refl) as (_ & Hs & _).
    exact (proj2 (Hs eq_refl eq_refl)).
  - destruct (validateLocationPoint_non_finite (fun _ => "v")
                (sample nan 139.75 5 (Some 2.5) (Some 45))) as (_ & _ & _ & _ & H & _).
    exact (proj1 (H eq_refl)).
Defined.

End SampleValidationSpec.

(** ** stores/footprintStore *)

Module FootprintStoreSpec.

Import Location FootprintStore.

(** A session that collects and holds a sample still holds it after
    [startCollecting]: the samples are not cleared. *)
Lemma startCollecting_keeps_samples :
  isCollecting collecting_one = true /\
  locationPoints collecting_one <> [] /\
  locationPoints (startCollecting 1672567260000 collecting_one) = [point0] /\
  locationPoints (startCollecting 1672567260000 collecting_one) <> [].
Proof.
  repeat split; try reflexivity; cbn; discriminate.
Qed.

(** A state that is not collecting and was reached from the initial state
    is the initial state: stopping resets everything. *)
Lemma idle_is_initial (actions : list Action) (s : FootprintState) :
  (isCollecting s = false -> s = initialState) ->
  isCollecting (run s actions) = false -> run s actions = initialState.
Proof.
  unfold run. revert s. induction actions as [|a actions IH]; intros s Hs; cbn [foldl].
  - exact Hs.
  - apply IH. destruct a; cbn [step].
    + discriminate.
    + reflexivity.
    + reflexivity.
    + unfold addLocationPoint. destruct (isCollecting s) eqn:E; cbn.
      * discriminate.
      * intros _. apply Hs. reflexivity.
Qed.

(** C1 (as the code has it). [startCollecting] sets [isCollecting] and
    stamps [startTime] with the injected time; the samples, the current
    sample and the current speed stay as they were.  A repeated start only
    re-stamps the time: samples are neither cleared nor duplicated.  A
    start from an idle state that the store can reach has no samples,
    since that state has none. *)
Theorem startCollecting_restamps (now : Date) (s : FootprintState) :
  isCollecting (startCollecting now s) = true /\
  startTime (startCollecting now s) = Some now /\
  locationPoints (startCollecting now s) = locationPoints s /\
  currentLocation (startCollecting now s) = currentLocation s /\
  currentSpeed (startCollecting now s) = currentSpeed s /\
  (forall now', startCollecting now' (startCollecting now s) = startCollecting now' s) /\
  (forall actions,
     isCollecting (run initialState actions) = false ->
     locationPoints (startCollecting now (run initialState actions)) = []).
Proof.
  repeat split.
  intros actions H. cbn.
  rewrite (idle_is_initial actions initialState (fun _ => eq_refl) H). reflexivity.
Qed.

Lemma startCollecting_restamps_witness :
  locationPoints
    (startCollecting 1672567260000
       (run initialState
          [StartCollecting 1672567200000; AddLocationPoint point0; StopCollecting]))
  = [].
Proof.
  apply (startCollecting_restamps 1672567260000 initialState). reflexivity.
Defined.

Lemma addLocationPoint_idle (p : LocationPoint) (s : FootprintState) :
  isCollecting s = false -> addLocationPoint p s = s.
Proof.
  intros H. unfold addLocationPoint. rewrite H. reflexivity.
Qed.

Lemma addLocationPoint_collecting (p : LocationPoint) (s : FootprintState) :
  isCollecting s = true ->
  addLocationPoint p s =
    {| isCollecting := true; startTime := startTime s;
       locationPoints := locationPoints s ++ [p];
       currentLocation := Some p; currentSpeed := speed p |}.
Proof.
  intros H. unfold addLocationPoint. rewrite H. reflexivity.
Qed.

(** Samples added one after the other while collecting end up behind the
    earlier ones, in the order of arrival. *)
Lemma addLocationPoint_many (ps : list LocationPoint) (s : FootprintState) :
  isCollecting s = true ->
  isCollecting (foldl (fun st q => addLocationPoint q st) s ps) = true /\
  locationPoints (foldl (fun st q => addLocationPoint q st) s ps)
    = locationPoints s ++ ps.
Proof.
  revert s. induction ps as [|q ps IH]; intros s Hs; cbn [foldl].
  - split; [exact Hs|]. symmetry. apply app_nil_r.
  - destruct (IH (addLocationPoint q s)) as [Hc Hl].
    + rewrite (addLocationPoint_collecting q s Hs). reflexivity.
    + split; [exact Hc|]. rewrite Hl, (addLocationPoint_collecting q s Hs). cbn.
      rewrite <- app_assoc. reflexivity.
Qed.

(** C5. While the session is not collecting, [addLocationPoint] returns
    the state it was given.  While it is collecting, the sample is put
    behind the samples already held, which keep their order, it becomes
    the current sample, and the current speed is the sample's [speed]
    field as it is; the other fields do not change. *)
Theorem addLocationPoint_spec (p : LocationPoint) (s : FootprintState) :
  (isCollecting s = false -> addLocationPoint p s = s) /\
  (isCollecting s = true ->
     locationPoints (addLocationPoint p s) = locationPoints s ++ [p] /\
     currentLocation (addLocationPoint p s) = Some p /\
     currentSpeed (addLocationPoint p s) = speed p /\
     isCollecting (addLocationPoint p s) = true /\
     startTime (addLocationPoint p s) = startTime s) /\
  (isCollecting s = true ->
     forall ps, locationPoints (foldl (fun st q => addLocationPoint q st) s ps)
                = locationPoints s ++ ps).
Proof.
  split; [apply addLocationPoint_idle|split].
  - intros H. rewrite (addLocationPoint_collecting p s H). repeat split.
  - intros H ps. apply addLocationPoint_many, H.
Qed.

Lemma addLocationPoint_spec_witness :
  addLocationPoint point0 initialState = initialState /\
  locationPoints (addLocationPoint point0 collecting_one) = [point0; point0] /\
  currentSpeed (addLocationPoint point0 collecting_one) = Some 2.5%float.
Proof.
  destruct (addLocationPoint_spec point0 initialState) as [Hidle _].
  destruct (addLocationPoint_spec point0 collecting_one) as (_ & Hcol & _).
  split; [apply Hidle; reflexivity|].
  destruct (Hcol eq_refl) as (Hl & _ & Hs & _).
  split; [exact Hl|exact Hs].
Defined.

(** C6. [stopCollecting] and [reset] both give the initial state, whatever
    the state they are called in: not collecting, no start time, no
    samples, no current sample and no current speed. *)
Theorem stopCollecting_reset_initial (s : FootprintState) :
  stopCollecting s = reset s /\
  stopCollecting s = initialState /\
  reset s = initialState /\
  isCollecting (stopCollecting s) = false /\
  startTime (stopCollecting s) = None /\
  locationPoints (stopCollecting s) = [] /\
  currentLocation (stopCollecting s) = None /\
  currentSpeed (stopCollecting s) = None.
Proof.
  repeat split.
Qed.

End FootprintStoreSpec.

(** ** Array.prototype.sort as a stable insertion sort *)

Module SortFacts.

Section Sort.
Context {A : Type} (compareFn : A -> A -> Z).

Lemma sort_insert_perm (x : A) (l : list A) :
  Permutation (sort_insert compareFn x l) (x :: l).
Proof.
  induction l as [|y l IH]; cbn.
  - reflexivity.
  - destruct (compareFn x y <=? 0).
    + reflexivity.
    + rewrite IH. apply perm_swap.
Qed.

Lemma sort_perm (l : list A) : Permutation (sort compareFn l) l.
Proof.
  induction l as [|x l IH]; cbn.
  - reflexivity.
  - rewrite sort_insert_perm. apply perm_skip, IH.
Qed.

Lemma sort_In (x : A) (l : list A) : In x (sort compareFn l) <-> In x l.
Proof.
  split; apply Permutation_in; [|symmetry]; apply sort_perm.
Qed.

End Sort.

End SortFacts.

(** ** stores/routeStore *)

Module RouteStoreSpec.

Import Location RouteStore SortFacts.

Lemma routes_addRoute_perm (r : Route) (st : RouteState) :
  Permutation (routes (addRoute r st)) (r :: routes st).
Proof.
  cbn. unfold sortRoutesByTime. rewrite sort_perm.
  symmetry. apply Permutation_cons_append.
Qed.

Lemma In_routes_addRoute (r x : Route) (st : RouteState) :
  In x (routes (addRoute r st)) <-> x = r \/ In x (routes st).
Proof.
  split; intros H.
  - apply (Permutation_in _ (routes_addRoute_perm r st)) in H.
    destruct H as [H|H]; auto.
  - apply (Permutation_in _ (Permutation_sym (routes_addRoute_perm r st))).
    destruct H as [H|H]; [left; auto|right; exact H].
Qed.

Lemma sort_insert_newer_first (x : Route) (l : list Route) :
  Sorted newer_first l ->
  Sorted newer_first (sort_insert (fun a b => startTime b - startTime a) x l).
Proof.
  induction 1 as [|y l Hs IH Hhd]; cbn.
  - repeat constructor.
  - destruct (startTime y - startTime x <=? 0) eqn:E.
    + constructor; [constructor; assumption|]. constructor. unfold newer_first. lia.
    + constructor; [exact IH|].
      destruct Hhd as [|z l Hyz]; cbn.
      * constructor. unfold newer_first. lia.
      * destruct (startTime z - startTime x <=? 0); constructor;
          unfold newer_first in *; lia.
Qed.

Lemma sortRoutesByTime_sorted (l : list Route) : Sorted newer_first (sortRoutesByTime l).
Proof.
  unfold sortRoutesByTime, sort. induction l as [|x l IH]; cbn [foldr].
  - constructor.
  - apply sort_insert_newer_first, IH.
Qed.

Lemma routeMap_addRoute_eq (r : Route) (st : RouteState) :
  routeMap (addRoute r st) !! id r = Some r.
Proof. cbn. apply lookup_insert_eq. Qed.

Lemma routeMap_addRoute_ne (r : Route) (st : RouteState) (k : string) :
  k <> id r -> routeMap (addRoute r st) !! k = routeMap st !! k.
Proof. intros H. cbn. apply lookup_insert_ne. congruence. Qed.

(** The mapping after [routesToDelete.forEach(route => newRouteMap.delete(route.id))]. *)
Lemma lookup_delete_all_notin (l : list Route) (m : gmap string Route) (k : string) :
  ~ In k (map id l) ->
  foldl (fun m route => delete (id route) m) m l !! k = m !! k.
Proof.
  revert m. induction l as [|d l IH]; intros m Hk; cbn in *.
  - reflexivity.
  - rewrite IH by tauto. apply lookup_delete_ne. intros E. apply Hk. left. exact E.
Qed.

Lemma lookup_delete_all_Some (l : list Route) (m : gmap string Route)
    (k : string) (v : Route) :
  foldl (fun m route => delete (id route) m) m l !! k = Some v ->
  m !! k = Some v /\ ~ In k (map id l).
Proof.
  revert m. induction l as [|d l IH]; intros m H; cbn in *.
  - split; [exact H|tauto].
  - apply IH in H. destruct H as [H Hn].
    destruct (decide (id d = k)) as [E|E].
    + subst k. rewrite lookup_delete_eq in H. discriminate.
    + rewrite lookup_delete_ne in H by exact E. split; [exact H|tauto].
Qed.

Lemma eqb_name_true (r : Route) (title : string) :
  String.eqb (name r) title = true <-> name r = title.
Proof. apply String.eqb_eq. Qed.

Lemma deleteRouteByTitle_state (title : string) (st : RouteState) :
  snd (deleteRouteByTitle title st) = st \/
  snd (deleteRouteByTitle title st) =
    {| routes := List.filter (fun route => negb (String.eqb (name route) title)) (routes st);
       routeMap := foldl (fun m route => delete (id route) m) (routeMap st)
                     (List.filter (fun route => String.eqb (name route) title) (routes st)) |}.
Proof.
  unfold deleteRouteByTitle.
  destruct (length _ =? 0)%nat; [left|right]; reflexivity.
Qed.

Lemma map_in_routes_initial : map_in_routes initialState.
Proof. intros k r H. cbn in H. rewrite lookup_empty in H. discriminate. Qed.

Lemma map_in_routes_addRoute (r : Route) (st : RouteState) :
  map_in_routes st -> map_in_routes (addRoute r st).
Proof.
  intros Hst k x H. destruct (decide (k = id r)) as [->|Hne].
  - rewrite routeMap_addRoute_eq in H. injection H as <-.
    split; [reflexivity|]. apply In_routes_addRoute. left. reflexivity.
  - rewrite routeMap_addRoute_ne in H by exact Hne.
    destruct (Hst k x H) as [Hid Hin]. split; [exact Hid|].
    apply In_routes_addRoute. right. exact Hin.
Qed.

Lemma map_in_routes_delete (title : string) (st : RouteState) :
  map_in_routes st -> map_in_routes (snd (deleteRouteByTitle title st)).
Proof.
  intros Hst. destruct (deleteRouteByTitle_state title st) as [->| ->]; [exact Hst|].
  intros k x H. cbn in *.
  apply lookup_delete_all_Some in H. destruct H as [H Hn].
  destruct (Hst k x H) as [Hid Hin]. split; [exact Hid|].
  apply filter_In. split; [exact Hin|].
  destruct (String.eqb (name x) title) eqn:E; [|reflexivity].
  exfalso. apply Hn. subst k. apply in_map. apply filter_In. auto.
Qed.

(** After any run of catalog operations from the empty catalog, every
    entry of the mapping is a route of the sequence. *)
Lemma map_in_routes_run (ops : list Op) (st : RouteState) :
  map_in_routes st -> map_in_routes (foldl apply_op st ops).
Proof.
  revert st. induction ops as [|op ops IH]; intros st Hst; cbn.
  - exact Hst.
  - apply IH. destruct op; cbn.
    + apply map_in_routes_addRoute, Hst.
    + apply map_in_routes_delete, Hst.
Qed.

Lemma NoDup_map_filter {A B : Type} (f : A -> B) (p : A -> bool) (l : list A) :
  List.NoDup (map f l) -> List.NoDup (map f (List.filter p l)).
Proof.
  induction l as [|a l IH]; cbn; intros H.
  - constructor.
  - apply NoDup_cons_iff in H. destruct H as [Hn Hd].
    destruct (p a); cbn; [|auto].
    apply NoDup_cons_iff. split; [|auto].
    intros Hin. apply Hn. apply in_map_iff in Hin.
    destruct Hin as (x & Hx & Hin). apply filter_In in Hin.
    apply in_map_iff. exists x. tauto.
Qed.

Lemma NoDup_map_inj_on {A B : Type} (f : A -> B) (l : list A) (a b : A) :
  List.NoDup (map f l) -> In a l -> In b l -> f a = f b -> a = b.
Proof.
  induction l as [|x l IH]; cbn; intros H Ha Hb E; [tauto|].
  apply NoDup_cons_iff in H. destruct H as [Hn Hd].
  destruct Ha as [->|Ha], Hb as [->|Hb]; auto.
  - exfalso. apply Hn. rewrite E. apply in_map, Hb.
  - exfalso. apply Hn. rewrite <- E. apply in_map, Ha.
Qed.

Lemma consistent_initial : consistent initialState.
Proof.
  split; [constructor|split].
  - intros r [].
  - apply map_in_routes_initial.
Qed.

Lemma consistent_delete (title : string) (st : RouteState) :
  consistent st -> consistent (snd (deleteRouteByTitle title st)).
Proof.
  intros (Hnd & Hrm & Hmr). split; [|split].
  - destruct (deleteRouteByTitle_state title st) as [->| ->]; [exact Hnd|].
    cbn. apply NoDup_map_filter, Hnd.
  - destruct (deleteRouteByTitle_state title st) as [->| ->]; [exact Hrm|].
    intros r Hin. cbn in *. apply filter_In in Hin. destruct Hin as [Hin Hname].
    rewrite lookup_delete_all_notin; [apply Hrm, Hin|].
    intros Hk. apply in_map_iff in Hk. destruct Hk as (d & Hid & Hd).
    apply filter_In in Hd. destruct Hd as [Hd Hdn].
    assert (d = r) by (apply (NoDup_map_inj_on id (routes st)); auto).
    subst d. rewrite Hdn in Hname. discriminate.
  - apply map_in_routes_delete, Hmr.
Qed.

Lemma consistent_addRoute_fresh (r : Route) (st : RouteState) :
  consistent st -> ~ In (id r) (map id (routes st)) -> consistent (addRoute r st).
Proof.
  intros (Hnd & Hrm & Hmr) Hfresh. split; [|split].
  - apply (Permutation_NoDup (l := map id (r :: routes st))).
    + apply Permutation_map. symmetry. apply routes_addRoute_perm.
    + cbn. apply NoDup_cons_iff. split; assumption.
  - intros x Hx. apply In_routes_addRoute in Hx. destruct Hx as [->|Hx].
    + apply routeMap_addRoute_eq.
    + rewrite routeMap_addRoute_ne; [apply Hrm, Hx|].
      intros E. apply Hfresh. rewrite <- E. apply in_map, Hx.
  - apply map_in_routes_addRoute, Hmr.
Qed.

Lemma count_id_addRoute (r : Route) (st : RouteState) (k : string) :
  count_id k (addRoute r st) =
  ((if string_dec (id r) k then 1 else 0) + count_id k st)%nat.
Proof.
  unfold count_id.
  transitivity (count_occ string_dec (map id (r :: routes st)) k).
  - apply (Permutation_count_occ string_dec).
    apply Permutation_map, routes_addRoute_perm.
  - cbn [map count_occ]. destruct (string_dec (id r) k); reflexivity.
Qed.

(** Adding a route twice leaves it twice in the sequence, under one entry
    of the mapping; and with two routes under one id, deleting the title
    of one drops the mapping entry of the other, which stays in the
    sequence. *)
Lemma addRoute_twice_two_entries :
  routes (addRoute route1 (addRoute route1 initialState)) = [route1; route1] /\
  count_id "route-1" (addRoute route1 (addRoute route1 initialState)) = 2%nat /\
  ~ consistent (addRoute route1 (addRoute route1 initialState)) /\
  routes after_delete = [route1b] /\
  routeMap after_delete !! "route-1"%string = None /\
  ~ routes_in_map after_delete.
Proof.
  assert (Hr : routes after_delete = [route1b]) by reflexivity.
  assert (Hm : routeMap after_delete !! "route-1"%string = None).
  { change (routeMap after_delete)
      with (delete "route-1"%string
              (<["route-1"%string := route1b]> (<["route-1"%string := route1]> ∅))
            : gmap string Route).
    apply lookup_delete_eq. }
  split; [reflexivity|split; [reflexivity|split; [|split; [exact Hr|split; [exact Hm|]]]]].
  - intros (Hnd & _). cbn in Hnd.
    apply NoDup_cons_iff in Hnd. destruct Hnd as [Hn _]. apply Hn. left. reflexivity.
  - intros H. specialize (H route1b). rewrite Hr in H.
    change (id route1b) with "route-1"%string in H. rewrite Hm in H.
    specialize (H (or_introl eq_refl)). discriminate.
Qed.

(** C2 (as the code has it). [addRoute r] sets the mapping entry of
    [id r] to [r], leaves the other entries, and puts [r] into the
    sequence next to the routes already there, none of which it removes;
    the sequence it leaves is sorted newest first.
    After every catalog operation each entry of the mapping is a route of
    the sequence, stored under its id.  The sequence and the mapping
    correspond one to one after [deleteRouteByTitle], and after [addRoute]
    when the id is new to the catalog.  Two calls of [addRoute] with one
    id leave one mapping entry (the second route) and two more routes of
    that id in the sequence. *)
Theorem catalog_consistency (st : RouteState) (r r' : Route) (title : string) :
  (routeMap (addRoute r st) !! id r = Some r /\
   (forall k, k <> id r -> routeMap (addRoute r st) !! k = routeMap st !! k) /\
   Permutation (routes (addRoute r st)) (r :: routes st) /\
   Sorted newer_first (routes (addRoute r st))) /\
  (map_in_routes st ->
     map_in_routes (addRoute r st) /\
     map_in_routes (snd (deleteRouteByTitle title st))) /\
  (forall ops, map_in_routes (foldl apply_op initialState ops)) /\
  (consistent st ->
     consistent (snd (deleteRouteByTitle title st)) /\
     (~ In (id r) (map id (routes st)) -> consistent (addRoute r st))) /\
  (id r' = id r ->
     count_id (id r) (addRoute r' (addRoute r st)) = (2 + count_id (id r) st)%nat /\
     routeMap (addRoute r' (addRoute r st)) !! id r = Some r').
Proof.
  split; [|split; [|split; [|split]]].
  - split; [apply routeMap_addRoute_eq|split; [|split]].
    + intros k. apply routeMap_addRoute_ne.
    + apply routes_addRoute_perm.
    + apply sortRoutesByTime_sorted.
  - intros H. split; [apply map_in_routes_addRoute|apply map_in_routes_delete]; exact H.
  - intros ops. apply map_in_routes_run, map_in_routes_initial.
  - intros H. split; [apply consistent_delete, H|apply consistent_addRoute_fresh, H].
  - intros E. split.
    + rewrite !count_id_addRoute, E.
      destruct (string_dec (id r) (id r)); [reflexivity|congruence].
    + rewrite <- E. apply routeMap_addRoute_eq.
Qed.

Lemma catalog_consistency_witness :
  count_id "route-1" (addRoute route1b (addRoute route1 initialState)) = 2%nat /\
  routeMap (addRoute route1b (addRoute route1 initialState)) !! "route-1"%string
    = Some route1b.
Proof.
  destruct (catalog_consistency initialState route1 route1b "Morning Walk")
    as (_ & _ & _ & _ & H).
  exact (H eq_refl).
Defined.

End RouteStoreSpec.

(** ** services/exportService *)

Module ExportServiceSpec.

Import Location ExportService.
Local Open Scope string_scope.

Lemma append_assoc (a b c : string) : (a ++ b) ++ c = a ++ b ++ c.
Proof.
  induction a as [|x a IH]; [reflexivity|].
  change (String x ((a ++ b) ++ c) = String x (a ++ b ++ c)).
  f_equal. exact IH.
Qed.

(** Joining [h :: rows] with line feeds puts a line feed in front of every
    row. *)
Lemma join_LF_cons (h : string) (rows : list string) (tail : string) :
  join LF (h :: rows) ++ tail = h ++ foldr (fun r acc => LF ++ r ++ acc) tail rows.
Proof.
  revert h. induction rows as [|r rows IH]; intros h.
  - reflexivity.
  - change (join LF (h :: r :: rows)) with (h ++ LF ++ join LF (r :: rows)).
    rewrite !append_assoc, IH. reflexivity.
Qed.

Section Csv.
Variable Number_toString : number -> string.
Variable Date_toISOString : Date -> string.

Lemma makeCSVData_empty : makeCSVData Number_toString Date_toISOString [] = header_line ++ LF.
Proof. reflexivity. Qed.

(** For a route list that is not empty the text is the header line, its
    line feed, then a line feed and a row for every sample, then a final
    line feed: [headers] ends in a line feed already and is joined to the
    rows by another. *)
Lemma makeCSVData_nonempty (routes : list RouteStore.Route) :
  routes <> [] ->
  makeCSVData Number_toString Date_toISOString routes =
    (header_line ++ LF)
      ++ foldr (fun r acc => LF ++ r ++ acc) LF (flat_map (route_rows Number_toString Date_toISOString) routes).
Proof.
  intros Hne. unfold makeCSVData.
  destruct routes as [|r routes]; [contradiction|].
  cbn [length Nat.eqb]. cbv zeta. rewrite join_LF_cons. reflexivity.
Qed.

(** One row per sample, in the order of the routes and of their points. *)
Lemma rows_count (routes : list RouteStore.Route) :
  length (flat_map (route_rows Number_toString Date_toISOString) routes)
  = length (flat_map RouteStore.locationPoints routes).
Proof.
  induction routes as [|r routes IH]; cbn; [reflexivity|].
  rewrite !length_app, IH. unfold route_rows. rewrite length_map.
  reflexivity.
Qed.

(** The seven fields of a row; a null accuracy, speed or heading is
    written as the empty field. *)
Lemma formatCsvRow_fields (routeName : string) (lat lon : number) (ts : Date)
    (acc spd hdg : option number) :
  formatCsvRow Number_toString Date_toISOString routeName lat lon ts acc spd hdg =
    routeName ++ "," ++ Number_toString lat ++ "," ++ Number_toString lon ++ ","
      ++ Date_toISOString ts ++ ","
      ++ or_empty (option_map Number_toString acc) ++ ","
      ++ or_empty (option_map Number_toString spd) ++ ","
      ++ or_empty (option_map Number_toString hdg).
Proof. reflexivity. Qed.

Lemma or_empty_null : or_empty (option_map Number_toString None) = EmptyString.
Proof. reflexivity. Qed.

End Csv.

(** C4. For the empty route list [makeCSVData] gives the header line and
    a line feed.  For the route of one sample with null speed and heading
    it gives the header line, a line feed, an empty line, and then the row
    of the sample, whose last two fields are empty: there is a line
    between the header and the first row that is no row of a sample. *)
Theorem makeCSVData_blank_line (Number_toString : number -> string)
    (Date_toISOString : Date -> string) :
  makeCSVData Number_toString Date_toISOString [] = header_line ++ LF /\
  makeCSVData Number_toString Date_toISOString [route_nulls] =
    header_line ++ LF ++
    EmptyString ++ LF ++
    ("Morning Walk," ++ Number_toString 35.5%float ++ ","
       ++ Number_toString 139.75%float ++ ","
       ++ Date_toISOString 1641031200000 ++ ","
       ++ or_empty (Some (Number_toString 5%float)) ++ ",,") ++ LF.
Proof.
  split; [reflexivity|].
  rewrite makeCSVData_nonempty by discriminate. reflexivity.
Qed.

End ExportServiceSpec.

(** ** services/storageService *)

Module StorageServiceSpec.

Import StorageService.
Local Open Scope string_scope.

(** *** The object used as a dictionary *)

Section Object.
Context {V : Type}.
Implicit Types (o : object V) (k : string) (v : V).

Lemma own_set_eq o k v : own (set o k v) k = Some v.
Proof.
  induction o as [|[k' w] o IH]; cbn.
  - rewrite String.eqb_refl. reflexivity.
  - destruct (String.eqb_spec k' k) as [->|Hne]; cbn.
    + rewrite String.eqb_refl. reflexivity.
    + destruct (String.eqb_spec k' k); [contradiction|exact IH].
Qed.

Lemma own_set_ne o k k' v : k' <> k -> own (set o k v) k' = own o k'.
Proof.
  intros Hne. induction o as [|[k0 w] o IH]; cbn.
  - destruct (String.eqb_spec k k'); [congruence|reflexivity].
  - destruct (String.eqb_spec k0 k) as [->|Hk]; cbn.
    + destruct (String.eqb_spec k k'); [congruence|reflexivity].
    + destruct (String.eqb_spec k0 k'); [reflexivity|exact IH].
Qed.

Lemma own_None_iff o k : own o k = None <-> ~ In k (map fst o).
Proof.
  induction o as [|[k' w] o IH]; cbn.
  - tauto.
  - destruct (String.eqb_spec k' k) as [->|Hne].
    + split; [discriminate|tauto].
    + rewrite IH. tauto.
Qed.

Lemma own_Some_In o k v : own o k = Some v -> In (k, v) o.
Proof.
  induction o as [|[k' w] o IH]; cbn; [discriminate|].
  destruct (String.eqb_spec k' k) as [->|Hne].
  - intros [= ->]. left. reflexivity.
  - intros H. right. exact (IH H).
Qed.

Lemma In_own o k v : List.NoDup (map fst o) -> In (k, v) o -> own o k = Some v.
Proof.
  induction o as [|[k' w] o IH]; cbn; [tauto|].
  intros Hnd Hin. apply NoDup_cons_iff in Hnd. destruct Hnd as [Hn Hnd].
  destruct Hin as [[= -> ->]|Hin].
  - rewrite String.eqb_refl. reflexivity.
  - destruct (String.eqb_spec k' k) as [->|Hne]; [|exact (IH Hnd Hin)].
    exfalso. apply Hn. apply in_map_iff. exists (k, v). split; [reflexivity|exact Hin].
Qed.

Lemma keys_set o k v :
  map fst (set o k v) =
  match own o k with
  | Some _ => map fst o
  | None => (map fst o ++ [k])%list
  end.
Proof.
  induction o as [|[k' w] o IH]; cbn; [reflexivity|].
  destruct (String.eqb_spec k' k) as [->|Hne]; cbn; [reflexivity|].
  rewrite IH. destruct (own o k); reflexivity.
Qed.

Lemma insert_index_perm (n : N) (e : string * V) (l : list (N * (string * V))) :
  Permutation (map snd (insert_index n e l)) (e :: map snd l).
Proof.
  induction l as [|[m e'] l IH]; cbn; [reflexivity|].
  destruct (n <=? m)%N; cbn; [reflexivity|].
  rewrite IH. apply perm_swap.
Qed.

(** [Object.entries] lists every own property once. *)
Lemma Object_entries_perm o : Permutation (Object_entries o) o.
Proof.
  unfold Object_entries. induction o as [|[k v] o IH]; cbn; [reflexivity|].
  destruct (array_index k).
  - rewrite insert_index_perm. cbn. apply perm_skip, IH.
  - symmetry. apply Permutation_cons_app. symmetry. exact IH.
Qed.

End Object.

(** *** The grouping loop *)

Lemma rows_of_snoc (k : string) (done : list Footprint) (f : Footprint) :
  rows_of k (done ++ [f]) =
  (rows_of k done ++ if String.eqb (title f) k then [f] else [])%list.
Proof.
  unfold rows_of. rewrite List.filter_app. cbn.
  destruct (String.eqb (title f) k); reflexivity.
Qed.

Lemma rows_of_nonempty_iff (k : string) (footprints : list Footprint) :
  rows_of k footprints <> [] <-> In k (map title footprints).
Proof.
  unfold rows_of. split.
  - intros H. destruct (List.filter _ footprints) as [|f l] eqn:E; [contradiction|].
    assert (Hf : In f (List.filter (fun f => String.eqb (title f) k) footprints))
      by (rewrite E; left; reflexivity).
    apply filter_In in Hf. destruct Hf as [Hin Ht].
    apply String.eqb_eq in Ht. subst k. apply in_map, Hin.
  - intros H Hnil. apply in_map_iff in H. destruct H as (f & <- & Hin).
    assert (Hf : In f (List.filter (fun g => String.eqb (title g) (title f)) footprints))
      by (apply filter_In; split; [exact Hin|apply String.eqb_refl]).
    rewrite Hnil in Hf. destruct Hf.
Qed.

Lemma grouped_of_nil : grouped_of [] [].
Proof. split; [constructor|reflexivity]. Qed.

Lemma grouped_of_step (done : list Footprint) (grouped : object (list Footprint))
    (f : Footprint) (rows : list Footprint) :
  grouped_of done grouped ->
  rows = rows_of (title f) done ->
  grouped_of (done ++ [f]) (set grouped (title f) (rows ++ [f])%list).
Proof.
  intros [Hnd Hown] ->. split.
  - rewrite keys_set. destruct (own grouped (title f)) eqn:E; [exact Hnd|].
    apply own_None_iff in E.
    apply (Permutation_NoDup (l := title f :: map fst grouped)).
    + apply Permutation_cons_append.
    + apply NoDup_cons_iff. split; assumption.
  - intros k. rewrite rows_of_snoc.
    destruct (String.eqb_spec (title f) k) as [<-|Hne].
    + rewrite own_set_eq.
      destruct (rows_of (title f) done ++ [f])%list eqn:E; [|reflexivity].
      apply app_eq_nil in E. destruct E as [_ E]. discriminate.
    + rewrite own_set_ne by congruence. rewrite app_nil_r. apply Hown.
Qed.

Lemma group_rows_ok (rest done : list Footprint) (grouped : object (list Footprint)) :
  grouped_of done grouped ->
  (forall f, In f rest -> inherited (title f) = false) ->
  exists grouped',
    group_rows grouped rest = Return grouped' /\ grouped_of (done ++ rest) grouped'.
Proof.
  revert done grouped. induction rest as [|f rest IH]; intros done grouped Hg Hrest.
  - exists grouped. rewrite app_nil_r. split; [reflexivity|exact Hg].
  - assert (Hf : inherited (title f) = false) by (apply Hrest; left; reflexivity).
    assert (Hnext : forall g, In g rest -> inherited (title g) = false)
      by (intros g Hin; apply Hrest; right; exact Hin).
    pose proof (proj2 Hg (title f)) as Hown.
    cbn [group_rows]. unfold get. rewrite Hf.
    replace (done ++ f :: rest)%list with ((done ++ [f]) ++ rest)%list
      by (rewrite <- app_assoc; reflexivity).
    destruct (own grouped (title f)) as [rows|] eqn:E.
    + apply IH; [|exact Hnext]. apply grouped_of_step; [exact Hg|].
      destruct (rows_of (title f) done); congruence.
    + apply IH; [|exact Hnext]. apply grouped_of_step; [exact Hg|].
      destruct (rows_of (title f) done); congruence.
Qed.

(** *** From the entries to the routes *)

Lemma Math_min_is_min (t : Z) (ts : list Z) : is_min (Math_min t ts) (t :: ts).
Proof.
  unfold Math_min. revert t. induction ts as [|u ts IH]; intros t; cbn [foldl].
  - split; [left; reflexivity|]. intros v [<-|[]]. lia.
  - destruct (IH (Z.min t u)) as [Hin Hle]. split.
    + destruct Hin as [Hin|Hin]; [|right; right; exact Hin].
      rewrite <- Hin. destruct (Z.min_spec t u) as [[_ ->]|[_ ->]]; cbn; auto.
    + intros v [<-|[<-|Hv]].
      * specialize (Hle (Z.min t u) (or_introl eq_refl)). lia.
      * specialize (Hle (Z.min t u) (or_introl eq_refl)). lia.
      * apply Hle. right. exact Hv.
Qed.

Lemma Math_max_is_max (t : Z) (ts : list Z) : is_max (Math_max t ts) (t :: ts).
Proof.
  unfold Math_max. revert t. induction ts as [|u ts IH]; intros t; cbn [foldl].
  - split; [left; reflexivity|]. intros v [<-|[]]. lia.
  - destruct (IH (Z.max t u)) as [Hin Hle]. split.
    + destruct Hin as [Hin|Hin]; [|right; right; exact Hin].
      rewrite <- Hin. destruct (Z.max_spec t u) as [[_ ->]|[_ ->]]; cbn; auto.
    + intros v [<-|[<-|Hv]].
      * specialize (Hle (Z.max t u) (or_introl eq_refl)). lia.
      * specialize (Hle (Z.max t u) (or_introl eq_refl)). lia.
      * apply Hle. right. exact Hv.
Qed.

Lemma Forall2_In_right {A B : Type} (R : A -> B -> Prop) (l : list A) (l' : list B)
    (b : B) :
  Forall2 R l l' -> In b l' -> exists a, In a l /\ R a b.
Proof.
  induction 1 as [|x y l l' Hxy Hall IH]; cbn; [tauto|].
  intros [<-|Hin].
  - exists x. auto.
  - destruct (IH Hin) as (a & Ha & HR). exists a. auto.
Qed.

Section Service.
Variable slug : string -> string.
Variable Number_toString : Z -> string.

(** The route made of the rows [rows] of the title [k]. *)
Lemma route_of_entry_ok (k : string) (rows : list Footprint) :
  rows <> [] ->
  exists r,
    route_of_entry slug Number_toString (k, rows) = Return r /\
    RouteStore.name r = k /\
    RouteStore.locationPoints r = map transformFootprintToLocationPoint rows /\
    is_min (RouteStore.startTime r) (map timestamp rows) /\
    is_max (RouteStore.endTime r) (map timestamp rows) /\
    RouteStore.pointCount r = Z.of_nat (length rows).
Proof.
  destruct rows as [|f rows]; [contradiction|]. intros _.
  assert (E : map Location.timestamp (map transformFootprintToLocationPoint rows)
              = map timestamp rows).
  { rewrite map_map. reflexivity. }
  eexists. cbn [route_of_entry map]. split; [reflexivity|]. cbn.
  rewrite E, length_map. repeat split.
  - apply (Math_min_is_min (timestamp f) (map timestamp rows)).
  - apply (Math_min_is_min (timestamp f) (map timestamp rows)).
  - apply (Math_max_is_max (timestamp f) (map timestamp rows)).
  - apply (Math_max_is_max (timestamp f) (map timestamp rows)).
Qed.

Lemma map_entries_ok (entries : list (string * list Footprint)) :
  (forall k rows, In (k, rows) entries -> rows <> []) ->
  exists routes,
    map_entries slug Number_toString entries = Return routes /\
    Forall2 (fun e r => route_of_entry slug Number_toString e = Return r) entries routes.
Proof.
  induction entries as [|[k rows] entries IH]; intros Hne.
  - exists []. split; [reflexivity|constructor].
  - destruct (route_of_entry_ok k rows) as (r & Hr & _).
    { apply (Hne k). left. reflexivity. }
    destruct IH as (routes & Hm & Hall).
    { intros k' rows' Hin. apply (Hne k'). right. exact Hin. }
    exists (r :: routes). cbn [map_entries]. rewrite Hr, Hm.
    split; [reflexivity|constructor; assumption].
Qed.

(** When no title is the name of a property of [Object.prototype], the
    rows are materialised without an exception into one route per distinct
    title, each the aggregate of the rows of its title. *)
Lemma groupFootprintsByTitle_groups (footprints : list Footprint) :
  (forall f, In f footprints -> inherited (title f) = false) ->
  exists routes,
    groupFootprintsByTitle slug Number_toString footprints = Return routes /\
    one_per_title footprints routes /\
    Forall (aggregates footprints) routes.
Proof.
  intros Hok.
  destruct (group_rows_ok footprints [] [] grouped_of_nil Hok)
    as (grouped & Hg & Hnd & Hown).
  cbn [app] in Hnd, Hown.
  assert (Hentry : forall k rows, In (k, rows) (Object_entries grouped) ->
                     rows = rows_of k footprints /\ rows <> []).
  { intros k rows Hin.
    apply (Permutation_in _ (Object_entries_perm grouped)) in Hin.
    apply (In_own _ _ _ Hnd) in Hin. rewrite Hown in Hin.
    destruct (rows_of k footprints); [discriminate|].
    injection Hin as <-. split; [reflexivity|discriminate]. }
  destruct (map_entries_ok (Object_entries grouped)) as (routes & Hm & Hall).
  { intros k rows Hin. apply (Hentry k rows Hin). }
  exists routes. unfold groupFootprintsByTitle. rewrite Hg.
  split; [exact Hm|].
  assert (Hnames : map RouteStore.name routes = map fst (Object_entries grouped)).
  { clear Hm. induction Hall as [|[k rows] r entries routes Hr Hall IH];
      [reflexivity|].
    cbn [map]. rewrite IH.
    - destruct (route_of_entry_ok k rows) as (r' & Hr' & Hn & _).
      { apply (Hentry k rows). left. reflexivity. }
      rewrite Hr in Hr'. injection Hr' as <-. cbn. rewrite Hn. reflexivity.
    - intros k' rows' Hin. apply Hentry. right. exact Hin. }
  assert (Hkeys : Permutation (map fst (Object_entries grouped)) (map fst grouped))
    by (apply Permutation_map, Object_entries_perm).
  split; [split|].
  - rewrite Hnames. apply (Permutation_NoDup (Permutation_sym Hkeys) Hnd).
  - intros t. rewrite Hnames. rewrite <- rows_of_nonempty_iff.
    split.
    + intros Hin. apply (Permutation_in _ Hkeys) in Hin.
      intros Hnil. apply (proj1 (own_None_iff grouped t)); [|exact Hin].
      rewrite Hown, Hnil. reflexivity.
    + intros Hne. apply (Permutation_in _ (Permutation_sym Hkeys)).
      destruct (in_dec string_dec t (map fst grouped)) as [Hin|Hnin]; [exact Hin|].
      apply own_None_iff in Hnin. rewrite Hown in Hnin.
      destruct (rows_of t footprints); [contradiction|discriminate].
  - clear Hm Hnames. apply List.Forall_forall. intros r Hr.
    destruct (Forall2_In_right _ _ _ _ Hall Hr) as ([k rows] & Hin & Hroute).
    destruct (Hentry k rows Hin) as [-> Hne].
    destruct (route_of_entry_ok k (rows_of k footprints) Hne)
      as (r' & Hr' & Hn & Hl & Hmin & Hmax & Hc).
    rewrite Hroute in Hr'. injection Hr' as <-.
    unfold aggregates. cbv zeta. rewrite Hn.
    split; [exact Hne|split; [exact Hl|split; [exact Hmin|split; [exact Hmax|exact Hc]]]].
Qed.

End Service.

(** C7. [fetchFootprints] on the single row titled constructor throws a
    TypeError instead of returning the route of that title: the title is
    read from the object [grouped], which has no own property of that name
    but inherits one, so no array is made for it and [push] is missing.
    On no rows at all it returns the empty list. *)
Theorem fetchFootprints_inherited_title (slug : string -> string)
    (Number_toString : Z -> string) :
  fetchFootprints slug Number_toString (Some [row_constructor])
    = Throw (TypeError "grouped[footprint.title].push is not a function") /\
  fetchFootprints slug Number_toString (Some []) = Return [].
Proof.
  split; reflexivity.
Qed.

(** Without such a title [fetchFootprints] returns one route per distinct
    title, each with the least and greatest time value and the number of
    the rows of its title; for no rows it returns no route. *)
Lemma fetchFootprints_groups (slug : string -> string) (Number_toString : Z -> string)
    (footprints : list Footprint) :
  (forall f, In f footprints -> inherited (title f) = false) ->
  exists routes,
    fetchFootprints slug Number_toString (Some footprints) = Return routes /\
    one_per_title footprints routes /\
    Forall (aggregates footprints) routes.
Proof.
  intros Hok. destruct footprints as [|f footprints].
  - exists []. split; [reflexivity|]. split; [|constructor].
    split; [constructor|]. intros t. cbn. tauto.
  - apply groupFootprintsByTitle_groups, Hok.
Qed.

End StorageServiceSpec.

(** ** The cases of the repository's test suites, on the embedding *)

Module Tests.

Import Location TestData.
Local Open Scope string_scope.

Example validateGPSAccuracy_best :
  validateGPSAccuracy (JsString "best") = true /\
  validateGPSAccuracy (JsString "three-kilometers") = true /\
  validateGPSAccuracy (JsString "unknown") = false /\
  validateGPSAccuracy JsUndefined = false.
Proof.
  repeat split; vm_compute; reflexivity.
Qed.

Example validateLocationPoint_valid (toStr : number -> string) :
  validateLocationPoint toStr mockLocationPoint1 = true /\
  validateLocationPoint toStr
    (SampleChecks.sample 91%float 139.75%float 5%float (Some 1.5%float) (Some 45%float)) = false /\
  validateLocationPoint toStr
    (SampleChecks.sample 35.5%float 139.75%float 5%float (Some 1.5%float) (Some 361%float)) = false /\
  validateLocationPoint toStr
    (SampleChecks.sample 35.5%float 139.75%float 5%float None (Some 360%float)) = true.
Proof. repeat split. Qed.

Example routeStore_newest_first :
  map RouteStore.id
    (RouteStore.getAllRoutes
       (RouteStore.addRoute mockRoute3
          (RouteStore.addRoute mockRoute2
             (RouteStore.addRoute mockRoute1 RouteStore.initialState))))
  = ["route-3"; "route-2"; "route-1"].
Proof. reflexivity. Qed.

Example routeStore_delete :
  let st := RouteStore.addRoute mockRoute3
              (RouteStore.addRoute mockRoute2
                 (RouteStore.addRoute mockRoute1 RouteStore.initialState)) in
  fst (RouteStore.deleteRouteByTitle "Evening Jog" st) = true /\
  map RouteStore.id (RouteStore.routes (snd (RouteStore.deleteRouteByTitle "Evening Jog" st)))
    = ["route-3"; "route-1"] /\
  fst (RouteStore.deleteRouteByTitle "Non-existent" st) = false /\
  snd (RouteStore.deleteRouteByTitle "Non-existent" st) = st.
Proof. repeat split. Qed.

Example fetchFootprints_morning_walk (slug : string -> string) (toStr : Z -> string) :
  StorageService.fetchFootprints slug toStr (Some mockFootprintRows) =
  Return
    [ {| RouteStore.id := slug "Morning Walk" ++ "-" ++ toStr 1;
         RouteStore.name := "Morning Walk";
         RouteStore.locationPoints :=
           map StorageService.transformFootprintToLocationPoint mockFootprintRows;
         RouteStore.startTime := 1641031200000;
         RouteStore.endTime := 1641031260000;
         RouteStore.pointCount := 2 |} ] /\
  StorageService.fetchFootprints slug toStr None
    = Throw (StorageService.Error "Database not initialized").
Proof. split; reflexivity. Qed.

(** Titles that are array indices come first in [Object.entries]. *)
Example fetchFootprints_entry_order (slug : string -> string) (toStr : Z -> string) :
  exists routes,
    StorageService.fetchFootprints slug toStr
      (Some [ footprintRow 1 "b" 10; footprintRow 2 "2" 20;
              footprintRow 3 "a" 30; footprintRow 4 "1" 40; footprintRow 5 "b" 50 ])
    = Return routes /\
    map (fun r => (RouteStore.name r, RouteStore.pointCount r)) routes
    = [("1", 1); ("2", 1); ("b", 2); ("a", 1)].
Proof. eexists. split; reflexivity. Qed.

End Tests.

(** ** stores/routeStore: queries, deletion and the order of the catalog *)

Module RouteCatalogSpec.

Import Location RouteStore SortFacts.

Lemma filter_nil_length {A : Type} (p : A -> bool) (l : list A) :
  (length (List.filter p l) =? 0)%nat = true -> List.filter p l = [].
Proof.
  destruct (List.filter p l); [reflexivity|discriminate].
Qed.

Lemma filter_filter_negb {A : Type} (p : A -> bool) (l : list A) :
  List.filter p (List.filter (fun x => negb (p x)) l) = [].
Proof.
  induction l as [|x l IH]; cbn; [reflexivity|].
  destruct (p x) eqn:E; cbn; [exact IH|]. rewrite E. exact IH.
Qed.

Lemma filter_filter_other {A : Type} (p q : A -> bool) (l : list A) :
  (forall x, q x = true -> p x = false) ->
  List.filter q (List.filter (fun x => negb (p x)) l) = List.filter q l.
Proof.
  intros H. induction l as [|x l IH]; cbn; [reflexivity|].
  destruct (p x) eqn:E; cbn.
  - destruct (q x) eqn:Eq; [|exact IH]. rewrite (H x Eq) in E. discriminate.
  - rewrite IH. reflexivity.
Qed.

Lemma filter_split_length {A : Type} (p : A -> bool) (l : list A) :
  (length (List.filter (fun x => negb (p x)) l) + length (List.filter p l))%nat
  = length l.
Proof.
  induction l as [|x l IH]; cbn; [reflexivity|].
  destruct (p x); cbn; lia.
Qed.

Lemma deleteRouteByTitle_cases (title : string) (st : RouteState) :
  (getRoutesByTitle title st = [] /\ deleteRouteByTitle title st = (false, st)) \/
  (getRoutesByTitle title st <> [] /\
   fst (deleteRouteByTitle title st) = true /\
   routes (snd (deleteRouteByTitle title st))
   = List.filter (fun route => negb (String.eqb (name route) title)) (routes st)).
Proof.
  unfold deleteRouteByTitle, getRoutesByTitle.
  destruct (List.filter (fun route => String.eqb (name route) title) (routes st))
    as [|r l] eqn:E; cbn.
  - left. split; reflexivity.
  - right. repeat split. discriminate.
Qed.

(** X1. [deleteRouteByTitle] answers [true] exactly when a route of the
    catalog carries the title; when it answers [false] the catalog is the
    one it was given, sequence and mapping alike. *)
Theorem deleteRouteByTitle_flag (title : string) (st : RouteState) :
  (fst (deleteRouteByTitle title st) = true <-> In title (map name (routes st))) /\
  (fst (deleteRouteByTitle title st) = false -> snd (deleteRouteByTitle title st) = st).
Proof.
  assert (Hin : getRoutesByTitle title st <> [] <-> In title (map name (routes st))).
  { unfold getRoutesByTitle. split.
    - intros H. destruct (List.filter _ (routes st)) as [|r l] eqn:E; [contradiction|].
      assert (Hr : In r (List.filter (fun route => String.eqb (name route) title)
                           (routes st))) by (rewrite E; left; reflexivity).
      apply filter_In in Hr. destruct Hr as [Hr Hn]. apply String.eqb_eq in Hn.
      rewrite <- Hn. apply in_map, Hr.
    - intros H Hnil. apply in_map_iff in H. destruct H as (r & <- & Hr).
      assert (Hf : In r (List.filter (fun route => String.eqb (name route) (name r))
                           (routes st)))
        by (apply filter_In; split; [exact Hr|apply String.eqb_refl]).
      rewrite Hnil in Hf. destruct Hf. }
  destruct (deleteRouteByTitle_cases title st) as [[Hnil ->]|(Hne & Ht & _)]; cbn.
  - split; [|reflexivity]. split; [discriminate|].
    intros H. apply Hin in H. contradiction.
  - rewrite Ht. split; [|discriminate]. split; [intros _; apply Hin, Hne|reflexivity].
Qed.

Lemma deleteRouteByTitle_flag_witness :
  snd (deleteRouteByTitle "Non-existent" (addRoute route1 initialState))
  = addRoute route1 initialState.
Proof.
  apply (deleteRouteByTitle_flag "Non-existent" (addRoute route1 initialState)).
  reflexivity.
Defined.

(** X2. After [deleteRouteByTitle title] no route of that title is left,
    the routes of every other title are the ones there were, in their
    order, and the count went down by the number of routes that carried
    the title. *)
Theorem deleteRouteByTitle_removes (title : string) (st : RouteState) :
  getRoutesByTitle title (snd (deleteRouteByTitle title st)) = [] /\
  (forall other, other <> title ->
     getRoutesByTitle other (snd (deleteRouteByTitle title st))
     = getRoutesByTitle other st) /\
  (getRouteCount (snd (deleteRouteByTitle title st))
   + length (getRoutesByTitle title st))%nat = getRouteCount st.
Proof.
  destruct (deleteRouteByTitle_cases title st) as [[Hnil ->]|(_ & _ & Hr)]; cbn [snd].
  - split; [exact Hnil|split; [reflexivity|]]. rewrite Hnil. cbn. lia.
  - unfold getRoutesByTitle, getRouteCount. rewrite Hr. split; [|split].
    + apply (filter_filter_negb (fun route => String.eqb (name route) title)).
    + intros other Hne.
      apply (filter_filter_other (fun route => String.eqb (name route) title)).
      intros x Hx. apply String.eqb_eq in Hx. apply String.eqb_neq. congruence.
    + apply (filter_split_length (fun route => String.eqb (name route) title)).
Qed.

Lemma deleteRouteByTitle_removes_witness :
  getRoutesByTitle "Evening Jog"
    (snd (deleteRouteByTitle "Morning Walk" (addRoute route1b (addRoute route1 initialState))))
  = [route1b].
Proof.
  destruct (deleteRouteByTitle_removes "Morning Walk"
              (addRoute route1b (addRoute route1 initialState))) as (_ & H & _).
  rewrite (H "Evening Jog"); [reflexivity|discriminate].
Defined.

(** *** The order of the catalog *)

Lemma newer_first_trans (a b c : Route) :
  newer_first a b -> newer_first b c -> newer_first a c.
Proof. unfold newer_first. lia. Qed.

Lemma strongly_sorted_of_sorted (l : list Route) :
  Sorted newer_first l -> StronglySorted newer_first l.
Proof.
  induction 1 as [|x l Hs IH Hhd]; constructor; [exact IH|].
  destruct Hhd as [|y l Hxy]; [constructor|].
  inversion IH as [|? ? Hl Hall]; subst.
  constructor; [exact Hxy|].
  apply (List.Forall_impl (P := newer_first y)); [|exact Hall].
  intros z Hz. exact (newer_first_trans x y z Hxy Hz).
Qed.

Lemma sorted_of_strongly_sorted (l : list Route) :
  StronglySorted newer_first l -> Sorted newer_first l.
Proof.
  induction 1 as [|x l Hs IH Hall]; constructor; [exact IH|].
  destruct l as [|y l]; constructor.
  inversion Hall; assumption.
Qed.

Lemma strongly_sorted_filter (p : Route -> bool) (l : list Route) :
  StronglySorted newer_first l -> StronglySorted newer_first (List.filter p l).
Proof.
  induction 1 as [|x l Hs IH Hall]; cbn; [constructor|].
  destruct (p x); [|exact IH]. constructor; [exact IH|].
  apply List.Forall_forall. intros y Hy. apply filter_In in Hy.
  exact (proj1 (List.Forall_forall _ _) Hall y (proj1 Hy)).
Qed.

Lemma sorted_filter (p : Route -> bool) (l : list Route) :
  Sorted newer_first l -> Sorted newer_first (List.filter p l).
Proof.
  intros H. apply sorted_of_strongly_sorted, strongly_sorted_filter,
    strongly_sorted_of_sorted, H.
Qed.

Lemma sorted_apply_op (st : RouteState) (op : Op) :
  Sorted newer_first (routes st) -> Sorted newer_first (routes (apply_op st op)).
Proof.
  intros H. destruct op as [r|title]; cbn [apply_op].
  - apply RouteStoreSpec.sortRoutesByTime_sorted.
  - destruct (deleteRouteByTitle_cases title st) as [[_ ->]|(_ & _ & ->)]; cbn [snd].
    + exact H.
    + apply sorted_filter, H.
Qed.

(** X3. In every state the catalog reaches from the empty one by
    [addRoute] and [deleteRouteByTitle], [getAllRoutes] is ordered newest
    first, and so is the answer of [getRoutesByTitle] for every title. *)
Theorem catalog_newest_first (ops : list Op) (title : string) :
  Sorted newer_first (getAllRoutes (foldl apply_op initialState ops)) /\
  Sorted newer_first (getRoutesByTitle title (foldl apply_op initialState ops)).
Proof.
  assert (H : forall st, Sorted newer_first (routes st) ->
                         Sorted newer_first (routes (foldl apply_op st ops))).
  { induction ops as [|op ops IH]; intros st Hst; cbn [foldl]; [exact Hst|].
    apply IH, sorted_apply_op, Hst. }
  specialize (H initialState (Sorted_nil _)).
  split; [exact H|]. apply sorted_filter, H.
Qed.

(** Where [sort_insert] puts a route that is not older than the head. *)
Lemma sort_insert_head (x : Route) (l : list Route) :
  Forall (newer_first x) l ->
  sort_insert (fun a b => startTime b - startTime a) x l = x :: l.
Proof.
  intros H. destruct l as [|y l]; [reflexivity|]. cbn.
  inversion H as [|? ? Hxy _]; subst. unfold newer_first in Hxy.
  destruct (startTime y - startTime x <=? 0) eqn:E; [reflexivity|lia].
Qed.

Lemma filter_older_nil (r x : Route) (l : list Route) :
  Forall (newer_first x) l -> startTime x < startTime r ->
  List.filter (fun y => startTime r <=? startTime y) l = [].
Proof.
  intros Hall Hlt. induction Hall as [|y l Hxy Hall IH]; [reflexivity|]. cbn.
  unfold newer_first in Hxy.
  destruct (startTime r <=? startTime y) eqn:Ey; [lia|exact IH].
Qed.

Lemma insert_into_sorted (r : Route) (l : list Route) :
  StronglySorted newer_first l ->
  foldr (sort_insert (fun a b => startTime b - startTime a)) [r] l =
  (List.filter (fun x => startTime r <=? startTime x) l
   ++ r :: List.filter (fun x => startTime x <? startTime r) l)%list.
Proof.
  induction 1 as [|x l Hs IH Hall]; [reflexivity|].
  cbn [foldr List.filter]. rewrite IH.
  destruct (startTime r <=? startTime x) eqn:E.
  - assert (Hlt : (startTime x <? startTime r) = false) by lia. rewrite Hlt.
    cbn [app]. apply sort_insert_head.
    apply Forall_app. split.
    + apply List.Forall_forall. intros y Hy. apply filter_In in Hy.
      exact (proj1 (List.Forall_forall _ _) Hall y (proj1 Hy)).
    + constructor; [unfold newer_first; lia|].
      apply List.Forall_forall. intros y Hy. apply filter_In in Hy.
      exact (proj1 (List.Forall_forall _ _) Hall y (proj1 Hy)).
  - assert (Hlt : (startTime x <? startTime r) = true) by lia. rewrite Hlt.
    rewrite (filter_older_nil r x l Hall) by lia. cbn [app sort_insert].
    destruct (startTime r - startTime x <=? 0) eqn:Ec; [lia|].
    f_equal. apply sort_insert_head.
    apply List.Forall_forall. intros y Hy. apply filter_In in Hy.
    exact (proj1 (List.Forall_forall _ _) Hall y (proj1 Hy)).
Qed.

(** X4. Into a catalog that is ordered newest first, [addRoute] puts the
    route behind the routes that started at the same time or later and in
    front of those that started earlier; the routes that were there keep
    their order. *)
Theorem addRoute_position (r : Route) (st : RouteState) :
  Sorted newer_first (routes st) ->
  routes (addRoute r st) =
  (List.filter (fun x => startTime r <=? startTime x) (routes st)
   ++ r :: List.filter (fun x => startTime x <? startTime r) (routes st))%list.
Proof.
  intros H. cbn. unfold sortRoutesByTime, sort.
  rewrite foldr_app. cbn [foldr sort_insert].
  apply insert_into_sorted, strongly_sorted_of_sorted, H.
Qed.

Lemma addRoute_position_witness :
  routes (addRoute route1 (addRoute route1b (addRoute route1 initialState)))
  = [route1b; route1; route1].
Proof.
  rewrite (addRoute_position route1 (addRoute route1b (addRoute route1 initialState))).
  - reflexivity.
  - repeat constructor; unfold newer_first; cbn; lia.
Defined.

(** X5. [addRoute] raises [getRouteCount] by one, also when the id is in
    the catalog already, and [getRoutesByTitle] then answers with the
    routes it answered with before and, for the title of the route, the
    route itself. *)
Theorem addRoute_lookup (r : Route) (st : RouteState) (title : string) (x : Route) :
  getRouteCount (addRoute r st) = S (getRouteCount st) /\
  (In x (getRoutesByTitle title (addRoute r st)) <->
   (x = r /\ name r = title) \/ In x (getRoutesByTitle title st)).
Proof.
  split.
  - unfold getRouteCount.
    rewrite (Permutation_length (RouteStoreSpec.routes_addRoute_perm r st)).
    reflexivity.
  - unfold getRoutesByTitle. rewrite !filter_In, RouteStoreSpec.In_routes_addRoute.
    rewrite String.eqb_eq. split.
    + intros [[->|Hin] Hn]; [left|right]; auto.
    + intros [[-> Hn]|[Hin Hn]]; auto.
Qed.

End RouteCatalogSpec.

(** ** stores/footprintStore: what every reachable session satisfies *)

Module FootprintSessionSpec.

Import Location FootprintStore FootprintSession.

Lemma session_ok_initial : session_ok initialState.
Proof.
  repeat split. discriminate.
Qed.

Lemma session_ok_step (s : FootprintState) (a : Action) :
  session_ok s -> session_ok (step s a).
Proof.
  intros Hs. destruct a as [now| | |p]; cbn [step].
  - destruct Hs as (_ & _ & Hloc & Hspeed).
    split; [discriminate|]. split; [intros _; exists now; reflexivity|].
    split; assumption.
  - apply session_ok_initial.
  - apply session_ok_initial.
  - unfold addLocationPoint. destruct (isCollecting s) eqn:E; cbn [negb]; [|exact Hs].
    destruct Hs as (_ & Hstart & _ & _).
    split; [cbn; discriminate|]. cbn.
    split; [intros _; apply Hstart, E|].
    rewrite last_snoc. split; reflexivity.
Qed.

(** X6. Whatever actions the store has run from its initial state: when
    it is not collecting, it is in the initial state; when it is
    collecting, it has a start time; and the current sample and the
    current speed are the last recorded sample and its speed (none when
    no sample is recorded). *)
Theorem session_invariant (actions : list Action) :
  session_ok (run initialState actions).
Proof.
  unfold run.
  assert (H : forall s, session_ok s -> session_ok (foldl step s actions)).
  { induction actions as [|a actions IH]; intros s Hs; cbn [foldl]; [exact Hs|].
    apply IH, session_ok_step, Hs. }
  apply H, session_ok_initial.
Qed.

End FootprintSessionSpec.

(** ** services/exportService: the escaped route name is read back *)

Module CsvEscapeSpec.

Import ExportService CsvReader.
Local Open Scope string_scope.

Lemma read_quoted_escaped (v tail : string) :
  read_quoted (double_quotes v ++ DQUOTE ++ "," ++ tail) = Some (v, "," ++ tail).
Proof.
  induction v as [|c v IH].
  - reflexivity.
  - cbn [double_quotes]. destruct (Ascii.eqb c "034") eqn:E.
    + apply Ascii.eqb_eq in E. subst c.
      change (read_quoted (String "034" (String "034"
                (double_quotes v ++ DQUOTE ++ "," ++ tail)))
              = Some (String "034" v, "," ++ tail)).
      cbn [read_quoted]. rewrite Ascii.eqb_refl, IH. reflexivity.
    + change (read_quoted (String c (double_quotes v ++ DQUOTE ++ "," ++ tail))
              = Some (String c v, "," ++ tail)).
      cbn [read_quoted]. rewrite E, IH. reflexivity.
Qed.

(** The characters of a value that [escapeCsvValue] leaves as it is. *)
Lemma needs_escape_cons (c : ascii) (v : string) :
  needs_escape (String c v) = false ->
  Ascii.eqb c "," = false /\ Ascii.eqb c "034" = false /\ Ascii.eqb c "010" = false /\
  needs_escape v = false.
Proof.
  cbn [needs_escape]. intros H.
  apply orb_false_elim in H. destruct H as [H Hv].
  apply orb_false_elim in H. destruct H as [H Hlf].
  apply orb_false_elim in H. destruct H as [Hc Hq]. auto.
Qed.

Lemma read_plain_unescaped (v tail : string) :
  needs_escape v = false -> has_CR v = false ->
  read_plain (v ++ "," ++ tail) = Some (v, "," ++ tail).
Proof.
  induction v as [|c v IH]; intros H Hcr.
  - reflexivity.
  - apply needs_escape_cons in H as (Hc & Hq & Hlf & Hv).
    cbn [has_CR] in Hcr. apply orb_false_elim in Hcr. destruct Hcr as [Hr Hcr].
    change (read_plain (String c (v ++ "," ++ tail)) = Some (String c v, "," ++ tail)).
    cbn [read_plain]. rewrite Hc, Hr, Hlf, Hq, (IH Hv Hcr). reflexivity.
Qed.

Lemma read_plain_bare_CR (v tail : string) :
  needs_escape v = false -> has_CR v = true ->
  read_plain (v ++ tail) = Some (fst (before_CR v), snd (before_CR v) ++ tail) /\
  fst (before_CR v) ++ snd (before_CR v) = v /\
  fst (before_CR v) <> v.
Proof.
  induction v as [|c v IH]; intros H Hcr; [discriminate|].
  apply needs_escape_cons in H as (Hc & Hq & Hlf & Hv).
  cbn [has_CR] in Hcr. cbn [before_CR].
  change (String c v ++ tail) with (String c (v ++ tail)). cbn [read_plain].
  destruct (Ascii.eqb c CR) eqn:Hr.
  - rewrite Hc. cbn. repeat split. discriminate.
  - rewrite Hc, Hlf, Hq. cbn [orb] in Hcr |- *.
    destruct (IH Hv Hcr) as (-> & E & N). split; [reflexivity|]. split.
    + change (String c (fst (before_CR v) ++ snd (before_CR v)) = String c v).
      rewrite E. reflexivity.
    + cbn [cons_field fst]. intros [= Heq]. contradiction.
Qed.

(** X7. The field reader reads the escaped route name back from the
    front of a row, returning the name itself and stopping at the comma
    that follows, also when the name holds commas, double quotes or line
    feeds: for every name that holds no carriage return, or holds one
    next to a comma, a double quote or a line feed.  A name whose only
    special character is a carriage return is written without quotes,
    and the reader stops at the carriage return: it returns the part of
    the name before it, not the name. *)
Theorem escapeCsvValue_read_back (value tail : string) :
  (needs_escape value = true \/ has_CR value = false ->
   read_field (escapeCsvValue value ++ "," ++ tail) = Some (value, "," ++ tail)) /\
  (needs_escape value = false -> has_CR value = true ->
   read_field (escapeCsvValue value ++ "," ++ tail)
     = Some (fst (before_CR value), snd (before_CR value) ++ "," ++ tail) /\
   fst (before_CR value) ++ snd (before_CR value) = value /\
   fst (before_CR value) <> value).
Proof.
  unfold escapeCsvValue. destruct (needs_escape value) eqn:E; split.
  - intros _. rewrite !ExportServiceSpec.append_assoc.
    change (DQUOTE ++ double_quotes value ++ DQUOTE ++ "," ++ tail)
      with (String "034" (double_quotes value ++ DQUOTE ++ "," ++ tail)).
    cbn [read_field]. rewrite Ascii.eqb_refl. apply read_quoted_escaped.
  - discriminate.
  - intros [H|Hcr]; [discriminate|].
    destruct value as [|c v]; [reflexivity|].
    pose proof (read_plain_unescaped (String c v) tail E Hcr) as H.
    apply needs_escape_cons in E as (_ & Hq & _).
    change (String c v ++ "," ++ tail) with (String c (v ++ "," ++ tail)) in *.
    cbn [read_field]. rewrite Hq. exact H.
  - intros _ Hcr.
    destruct value as [|c v]; [discriminate|].
    pose proof (read_plain_bare_CR (String c v) ("," ++ tail) E Hcr) as H.
    apply needs_escape_cons in E as (_ & Hq & _).
    change (String c v ++ "," ++ tail) with (String c (v ++ "," ++ tail)) in *.
    cbn [read_field]. rewrite Hq. exact H.
Qed.

(** A name with commas and quotes, and one with a bare carriage return. *)
Example escapeCsvValue_read_back_names :
  read_field (escapeCsvValue (String "a" (String "," (String "034" "b"))) ++ ",35.5")
    = Some (String "a" (String "," (String "034" "b")), ",35.5") /\
  read_field (escapeCsvValue (String "a" (String CR "b")) ++ ",35.5")
    = Some ("a", String CR "b,35.5").
Proof. split; reflexivity. Qed.

End CsvEscapeSpec.

Module MailExportSpec.

Import Location MailExport.
Local Open Scope string_scope.

Section Service.

Variable Number_toString : number -> string.
Variable Date_toISOString : Date -> string.
Variable Timestamp_toString : Z -> string.
Variable apis : Apis.
Variable now : Z.
Variable routes : list RouteStore.Route.
Variable recipientEmail : string.

Let path : string := temp_file_path Timestamp_toString apis now.
Let data : string := ExportService.makeCSVData Number_toString Date_toISOString routes.
Let run : list Call * completion Thrown ExportResult :=
  run_sendMailWithCSV Number_toString Date_toISOString Timestamp_toString apis now
    routes recipientEmail.

Lemma temp_file_path_nonempty : exists c p, path = String c p.
Proof.
  unfold path, temp_file_path. destruct (documentDirectory apis) as [|c d].
  - eexists _, _. reflexivity.
  - eexists _, _. reflexivity.
Qed.

(** What the cleanup adds to the log. *)
Lemma cleanup_run (st : Store) :
  tempFilePath st = Some path ->
  exists warn,
    (warn = [] \/ warn = [ConsoleWarn]) /\
    cleanupTempFile apis (Some path) st =
      ({| calls := calls st ++ DeleteAsync path :: warn; tempFilePath := Some path |},
       Return tt).
Proof.
  intros Hst. destruct temp_file_path_nonempty as (c & p & Hp). rewrite Hp in *.
  unfold cleanupTempFile, try_catch, call.
  destruct (deleteAsync apis (String c p)) as [[]|e].
  - exists []. split; [left; reflexivity|]. rewrite Hst. reflexivity.
  - exists [ConsoleWarn]. split; [right; reflexivity|]. cbn.
    rewrite Hst, <- app_assoc. reflexivity.
Qed.

(** The log and the result of a call, by the answers of the modules. *)
Lemma run_cases :
  match isAvailableAsync apis with
  | Return true =>
      exists warn r,
        (warn = [] \/ warn = [ConsoleWarn]) /\
        match writeAsStringAsync apis path data with
        | Throw e =>
            run = (IsAvailableAsync :: WriteAsStringAsync path data
                     :: DeleteAsync path :: warn, Return r) /\
            success r = false /\ exists m, error r = Some m
        | Return _ =>
            run = (IsAvailableAsync :: WriteAsStringAsync path data
                     :: ComposeAsync recipientEmail path
                     :: DeleteAsync path :: warn, Return r) /\
            match composeAsync apis recipientEmail path with
            | Return status =>
                if String.eqb status "cancelled"
                then success r = false /\ exists m, error r = Some m
                else r = {| success := true; error := None |}
            | Throw e => success r = false /\ exists m, error r = Some m
            end
        end
  | _ =>
      exists r, run = ([IsAvailableAsync], Return r) /\
                success r = false /\ exists m, error r = Some m
  end.
Proof.
  unfold run, run_sendMailWithCSV, sendMailWithCSV, try_finally, try_catch, bind,
    call, ret, set_tempFilePath, get_tempFilePath.
  fold path. fold data. cbn [calls tempFilePath app].
  destruct (isAvailableAsync apis) as [[|]|e]; cbn [negb calls tempFilePath].
  - destruct (writeAsStringAsync apis path data) as [[]|e].
    + destruct (composeAsync apis recipientEmail path) as [status|e].
      * destruct (String.eqb status "cancelled") eqn:Es.
        -- edestruct cleanup_run as (warn & Hw & ->); [reflexivity|].
           exists warn. eexists. split; [exact Hw|]. cbn. split; [reflexivity|].
           split; [reflexivity|eexists; reflexivity].
        -- edestruct cleanup_run as (warn & Hw & ->); [reflexivity|].
           exists warn. eexists. split; [exact Hw|]. cbn. split; reflexivity.
      * edestruct cleanup_run as (warn & Hw & ->); [reflexivity|].
        exists warn. eexists. split; [exact Hw|]. cbn. split; [reflexivity|].
        split; [reflexivity|eexists; reflexivity].
    + edestruct cleanup_run as (warn & Hw & ->); [reflexivity|].
      exists warn. eexists. split; [exact Hw|]. cbn. split; [reflexivity|].
      split; [reflexivity|eexists; reflexivity].
  - eexists. cbn. split; [reflexivity|]. split; [reflexivity|eexists; reflexivity].
  - eexists. cbn. split; [reflexivity|]. split; [reflexivity|eexists; reflexivity].
Qed.

End Service.

(** X8. [sendMailWithCSV] never throws: it always resolves to a result.
    The result is a success exactly when the mail composer is available,
    the temporary file was written and the composer answered with a status
    other than cancelled; every other result carries an error message. *)
Theorem sendMailWithCSV_result
    (Number_toString : number -> string) (Date_toISOString : Date -> string)
    (Timestamp_toString : Z -> string) (apis : Apis) (now : Z)
    (routes : list RouteStore.Route) (recipientEmail : string) :
  exists log r,
    run_sendMailWithCSV Number_toString Date_toISOString Timestamp_toString apis now
      routes recipientEmail = (log, Return r) /\
    (success r = true <->
     isAvailableAsync apis = Return true /\
     writeAsStringAsync apis (temp_file_path Timestamp_toString apis now)
       (ExportService.makeCSVData Number_toString Date_toISOString routes) = Return tt /\
     exists status,
       composeAsync apis recipientEmail (temp_file_path Timestamp_toString apis now)
         = Return status /\ status <> "cancelled") /\
    (success r = false -> exists m, error r = Some m).
Proof.
  pose proof (run_cases Number_toString Date_toISOString Timestamp_toString apis now
                routes recipientEmail) as H.
  destruct (isAvailableAsync apis) as [[|]|e].
  - destruct H as (warn & r & _ & H).
    destruct (writeAsStringAsync apis _ _) as [[]|e].
    + destruct H as [-> H]. eexists _, r. split; [reflexivity|].
      destruct (composeAsync apis recipientEmail _) as [status|e].
      * destruct (String.eqb status "cancelled") eqn:Es.
        -- destruct H as [Hs Hm]. split; [|intros _; exact Hm].
           rewrite Hs. split; [discriminate|].
           intros (_ & _ & status' & [= <-] & Hne).
           apply String.eqb_eq in Es. contradiction.
        -- subst r. cbn. split; [|discriminate]. split; [|reflexivity].
           intros _. repeat split. exists status. split; [reflexivity|].
           apply String.eqb_neq, Es.
      * destruct H as [Hs Hm]. split; [|intros _; exact Hm].
        rewrite Hs. split; [discriminate|].
        intros (_ & _ & status' & Hd & _). discriminate.
    + destruct H as (-> & Hs & Hm). eexists _, r. split; [reflexivity|].
      split; [|intros _; exact Hm]. rewrite Hs. split; [discriminate|].
      intros (_ & Hd & _). discriminate.
  - destruct H as (r & -> & Hs & Hm). eexists _, r. split; [reflexivity|].
    split; [|intros _; exact Hm]. rewrite Hs. split; [discriminate|].
    intros (Hd & _). discriminate.
  - destruct H as (r & -> & Hs & Hm). eexists _, r. split; [reflexivity|].
    split; [|intros _; exact Hm]. rewrite Hs. split; [discriminate|].
    intros (Hd & _). discriminate.
Qed.


End MailExportSpec.

(** ** services/storageService: ids of the routes, and the query for one title *)

Module StorageRoutesSpec.

Import StorageService StorageQueries StorageServiceSpec.
Local Open Scope string_scope.

(** X10. When no row carries a title that [Object.prototype] answers for,
    [fetchFootprints] returns, without an exception, one route per
    distinct title of the rows: each holds the rows of its title as points
    in the order of the query, has the least and the greatest of their
    time values as start and end time and their number as point count. *)
Theorem fetchFootprints_one_route_per_title (slug : string -> string)
    (Number_toString : Z -> string) (footprints : list Footprint) :
  (forall f, In f footprints -> inherited (title f) = false) ->
  exists routes,
    fetchFootprints slug Number_toString (Some footprints) = Return routes /\
    one_per_title footprints routes /\
    Forall (aggregates footprints) routes.
Proof.
  intros Hok. destruct footprints as [|f footprints].
  - exists []. split; [reflexivity|]. split; [|constructor].
    split; [constructor|]. intros t. cbn. tauto.
  - apply groupFootprintsByTitle_groups, Hok.
Qed.

Lemma fetchFootprints_one_route_per_title_witness :
  exists routes,
    fetchFootprints (fun t => t) (fun _ => "1") (Some TestData.mockFootprintRows)
      = Return routes /\
    one_per_title TestData.mockFootprintRows routes /\
    Forall (aggregates TestData.mockFootprintRows) routes.
Proof.
  apply (fetchFootprints_one_route_per_title (fun t => t) (fun _ => "1")
           TestData.mockFootprintRows).
  intros f [<-|[<-|[]]]; reflexivity.
Defined.

Section Service.
Variable slug : string -> string.
Variable Number_toString : Z -> string.

Lemma route_of_entry_id (k : string) (first : Footprint) (rest : list Footprint)
    (r : RouteStore.Route) :
  route_of_entry slug Number_toString (k, first :: rest) = Return r ->
  RouteStore.name r = k /\
  RouteStore.id r = generateRouteId slug Number_toString k (id first) /\
  RouteStore.locationPoints r = map transformFootprintToLocationPoint (first :: rest).
Proof.
  cbn. intros [= <-]. repeat split.
Qed.

Lemma map_entries_In (entries : list (string * list Footprint))
    (routes : list RouteStore.Route) (r : RouteStore.Route) :
  map_entries slug Number_toString entries = Return routes ->
  In r routes ->
  exists e, In e entries /\ route_of_entry slug Number_toString e = Return r.
Proof.
  revert routes. induction entries as [|e entries IH]; intros routes H Hr.
  - cbn in H. injection H as <-. destruct Hr.
  - cbn [map_entries] in H.
    destruct (route_of_entry slug Number_toString e) as [r0|x] eqn:E; [|discriminate].
    destruct (map_entries slug Number_toString entries) as [routes0|x]; [|discriminate].
    injection H as <-. destruct Hr as [<-|Hr].
    + exists e. split; [left; reflexivity|exact E].
    + destruct (IH routes0 eq_refl Hr) as (e' & He' & Hroute).
      exists e'. split; [right; exact He'|exact Hroute].
Qed.

Lemma map_entries_length (entries : list (string * list Footprint))
    (routes : list RouteStore.Route) :
  map_entries slug Number_toString entries = Return routes ->
  length routes = length entries.
Proof.
  revert routes. induction entries as [|e entries IH]; intros routes H.
  - cbn in H. injection H as <-. reflexivity.
  - cbn [map_entries] in H.
    destruct (route_of_entry slug Number_toString e) as [r0|x]; [|discriminate].
    destruct (map_entries slug Number_toString entries) as [routes0|x]; [|discriminate].
    injection H as <-. cbn. rewrite (IH routes0 eq_refl). reflexivity.
Qed.

(** What [groupFootprintsByTitle] returned, when it returned: every route
    stems from the rows of its title, the first of which gives the id. *)
Lemma grouped_route (footprints : list Footprint) (routes : list RouteStore.Route)
    (r : RouteStore.Route) :
  groupFootprintsByTitle slug Number_toString footprints = Return routes ->
  In r routes ->
  exists first rest,
    rows_of (RouteStore.name r) footprints = first :: rest /\
    RouteStore.id r
      = generateRouteId slug Number_toString (RouteStore.name r) (id first) /\
    RouteStore.locationPoints r
      = map transformFootprintToLocationPoint (first :: rest).
Proof.
  unfold groupFootprintsByTitle. intros H Hr.
  destruct (group_rows [] footprints) as [grouped|x] eqn:Hg; [|discriminate].
  destruct (map_entries_In _ _ _ H Hr) as ([k rows] & Hin & Hroute).
  assert (Hrows : rows = rows_of k footprints /\ rows <> []).
  { assert (Hgo : forall rest done g g',
               grouped_of done g -> group_rows g rest = Return g' ->
               grouped_of (done ++ rest) g').
    { induction rest as [|f rest IH]; intros done g g' Hok Hrun.
      - cbn in Hrun. injection Hrun as <-. rewrite app_nil_r. exact Hok.
      - cbn [group_rows] in Hrun.
        replace (done ++ f :: rest)%list with ((done ++ [f]) ++ rest)%list
          by (rewrite <- app_assoc; reflexivity).
        pose proof (proj2 Hok (title f)) as Hown.
        unfold get in Hrun. destruct (own g (title f)) as [rows0|] eqn:E.
        + apply (IH _ _ _ (grouped_of_step done g f rows0 Hok
                   ltac:(destruct (rows_of (title f) done); congruence)) Hrun).
        + destruct (inherited (title f)); [discriminate|].
          apply (IH _ _ _ (grouped_of_step done g f [] Hok
                   ltac:(destruct (rows_of (title f) done); congruence)) Hrun). }
    destruct (Hgo footprints [] [] grouped grouped_of_nil Hg) as [Hnd Hown].
    cbn [app] in Hown.
    apply (Permutation_in _ (Object_entries_perm grouped)) in Hin.
    apply (In_own _ _ _ Hnd) in Hin. rewrite Hown in Hin.
    destruct (rows_of k footprints); [discriminate|].
    injection Hin as <-. split; [reflexivity|discriminate]. }
  destruct Hrows as [-> Hne].
  destruct (rows_of k footprints) as [|first rest] eqn:Ek; [contradiction|].
  destruct (route_of_entry_id k first rest r Hroute) as (Hn & Hid & Hl).
  exists first, rest. rewrite Hn. rewrite Ek. auto.
Qed.

End Service.

(** X11. Every route [fetchFootprints] returns has the id made of the slug
    of its title, a hyphen and the id of the first row of that title in
    the order of the query, and its points are the rows of that title in
    that order; this holds whenever the call returns. *)
Theorem fetchFootprints_route_id (slug : string -> string) (Number_toString : Z -> string)
    (footprints : list Footprint) (routes : list RouteStore.Route)
    (r : RouteStore.Route) :
  fetchFootprints slug Number_toString (Some footprints) = Return routes ->
  In r routes ->
  exists first rest,
    rows_of (RouteStore.name r) footprints = first :: rest /\
    RouteStore.id r = (slug (RouteStore.name r) ++ "-" ++ Number_toString (id first)) /\
    RouteStore.locationPoints r
      = map transformFootprintToLocationPoint (first :: rest).
Proof.
  unfold fetchFootprints. destruct footprints as [|f footprints]; cbn [length Nat.eqb].
  - intros [= <-] [].
  - apply grouped_route.
Qed.

Lemma fetchFootprints_route_id_witness :
  exists first rest,
    rows_of "Morning Walk" TestData.mockFootprintRows = first :: rest /\
    id first = 1.
Proof.
  destruct (fetchFootprints_route_id (fun t => t) (fun _ => "1")
              TestData.mockFootprintRows _ _ eq_refl (or_introl eq_refl))
    as (first & rest & H & _).
  exists first, rest. split; [exact H|].
  cbn in H. injection H as <- _. reflexivity.
Defined.

(** X12. When the database answers the query for a title with rows of
    that title only, and the title is no name that [Object.prototype]
    answers for, [fetchFootprintsByTitle] returns no route when there are
    no rows and otherwise exactly one route: it carries the title and all
    the rows returned, as points in their order. *)
Theorem fetchFootprintsByTitle_single (slug : string -> string)
    (Number_toString : Z -> string) (getAllAsync : Query -> list Footprint)
    (title : string) :
  inherited title = false ->
  (forall f, In f (getAllAsync (SelectByTitle title)) -> StorageService.title f = title) ->
  (getAllAsync (SelectByTitle title) = [] /\
   fetchFootprintsByTitle slug Number_toString (Some getAllAsync) title = Return []) \/
  (exists r,
     fetchFootprintsByTitle slug Number_toString (Some getAllAsync) title = Return [r] /\
     RouteStore.name r = title /\
     RouteStore.locationPoints r
       = map transformFootprintToLocationPoint (getAllAsync (SelectByTitle title)) /\
     RouteStore.pointCount r
       = Z.of_nat (length (getAllAsync (SelectByTitle title)))).
Proof.
  intros Hinh Hrows. unfold fetchFootprintsByTitle.
  destruct (getAllAsync (SelectByTitle title)) as [|f rows] eqn:Eq.
  - left. split; reflexivity.
  - right. cbn [length Nat.eqb].
    assert (Hall : rows_of title (f :: rows) = f :: rows).
    { unfold rows_of. clear Eq. induction (f :: rows) as [|g l IH]; [reflexivity|].
      cbn. rewrite (proj2 (String.eqb_eq _ _) (Hrows g (or_introl eq_refl))).
      rewrite IH; [reflexivity|]. intros h Hh. apply Hrows. right. exact Hh. }
    destruct (groupFootprintsByTitle_groups slug Number_toString (f :: rows))
      as (routes & Hrun & [Hnd Hnames] & Hagg).
    { intros g Hg. rewrite (Hrows g Hg). exact Hinh. }
    assert (Hone : forall r, In r routes -> RouteStore.name r = title).
    { intros r Hr. assert (Hn : In (RouteStore.name r) (map RouteStore.name routes))
        by (apply in_map, Hr).
      apply Hnames in Hn. apply in_map_iff in Hn. destruct Hn as (g & <- & Hg).
      apply Hrows, Hg. }
    destruct routes as [|r routes].
    + exfalso. apply (proj2 (Hnames title)).
      apply in_map_iff. exists f. split; [apply Hrows|]; left; reflexivity.
    + destruct routes as [|r' routes].
      * exists r. split; [exact Hrun|].
        inversion Hagg as [|? ? (_ & Hl & _ & _ & Hc) _]; subst.
        rewrite (Hone r (or_introl eq_refl)) in Hl, Hc. rewrite Hall in Hl, Hc.
        split; [apply Hone; left; reflexivity|]. split; assumption.
      * exfalso. cbn in Hnd. apply NoDup_cons_iff in Hnd. destruct Hnd as [Hn _].
        apply Hn. left.
        rewrite (Hone r (or_introl eq_refl)), (Hone r' (or_intror (or_introl eq_refl))).
        reflexivity.
Qed.

Lemma fetchFootprintsByTitle_single_witness :
  exists r,
    fetchFootprintsByTitle (fun t => t) (fun _ => "1") (Some two_rows) "Morning Walk"
      = Return [r] /\
    RouteStore.pointCount r = 2.
Proof.
  destruct (fetchFootprintsByTitle_single (fun t => t) (fun _ => "1") two_rows
              "Morning Walk" eq_refl) as [[H _]|(r & Hr & _ & _ & Hc)].
  - intros f [<-|[<-|[]]]; reflexivity.
  - discriminate H.
  - exists r. split; [exact Hr|exact Hc].
Defined.

End StorageRoutesSpec.

(** ** Facts about binary64 comparisons, through their specification *)

Module FloatOrder.

Local Open Scope float_scope.

Lemma compare_cont_antisym (p q : positive) :
  Pos.compare_cont Eq q p = CompOpp (Pos.compare_cont Eq p q).
Proof. symmetry. exact (Pos.compare_cont_antisym p q Eq). Qed.

Lemma SFcompare_antisym (x y : spec_float) :
  SFcompare y x = option_map CompOpp (SFcompare x y).
Proof.
  destruct x as [sx|sx| |sx mx ex], y as [sy|sy| |sy my ey]; cbn;
    try reflexivity; try (destruct sx; reflexivity); try (destruct sy; reflexivity);
    try (destruct sx, sy; reflexivity).
  destruct sx, sy; cbn; try reflexivity.
  - rewrite (Z.compare_antisym ex ey).
    destruct (ex ?= ey)%Z; cbn; try reflexivity.
    rewrite (compare_cont_antisym mx my).
    destruct (Pos.compare_cont Eq mx my); reflexivity.
  - rewrite (Z.compare_antisym ex ey).
    destruct (ex ?= ey)%Z; cbn; try reflexivity.
    rewrite (compare_cont_antisym mx my). reflexivity.
Qed.

Lemma SFcompare_refl_finite (s : bool) (m : positive) (e : Z) :
  SFcompare (S754_finite s m e) (S754_finite s m e) = Some Eq.
Proof.
  cbn. rewrite Z.compare_refl.
  assert (H : Pos.compare_cont Eq m m = Eq) by apply Pos.compare_cont_refl.
  rewrite H. destruct s; reflexivity.
Qed.

(** The value a finite number has in the specification: a zero or a
    finite triple. *)
Lemma is_finite_SF (x : float) :
  is_finite x =
  match Prim2SF x with
  | S754_zero _ | S754_finite _ _ _ => true
  | _ => false
  end.
Proof.
  unfold is_finite, is_nan, is_infinity.
  rewrite !FloatAxioms.eqb_spec, FloatAxioms.abs_spec.
  change (Prim2SF infinity) with (S754_infinity false).
  destruct (Prim2SF x) as [s|s| |s m e]; try reflexivity;
    try (destruct s; reflexivity).
  unfold SFeqb at 1. rewrite SFcompare_refl_finite. reflexivity.
Qed.

(** Among numbers, [<=] and [<] of the opposite direction exclude each
    other and one of them holds. *)
Lemma ltb_negb_leb (x y : float) :
  is_nan x = false -> is_nan y = false -> (y <? x) = negb (x <=? y).
Proof.
  unfold is_nan. rewrite !FloatAxioms.eqb_spec, FloatAxioms.ltb_spec, FloatAxioms.leb_spec.
  unfold SFltb, SFleb. rewrite (SFcompare_antisym (Prim2SF x) (Prim2SF y)).
  destruct (Prim2SF x) as [sx|sx| |sx mx ex], (Prim2SF y) as [sy|sy| |sy my ey];
    try discriminate; intros _ _; cbn;
    try reflexivity; try (destruct sx; reflexivity);
    try (destruct sy; reflexivity); try (destruct sx, sy; reflexivity).
  destruct sx, sy; cbn; try reflexivity;
    destruct (ex ?= ey)%Z; cbn; try reflexivity;
    destruct (Pos.compare_cont _ _ _); reflexivity.
Qed.

(** A number whose magnitude is at most a finite bound is finite. *)
Lemma abs_leb_is_finite (x c : float) :
  is_finite c = true -> (abs x <=? c) = true -> is_finite x = true.
Proof.
  rewrite !is_finite_SF, FloatAxioms.leb_spec, FloatAxioms.abs_spec.
  destruct (Prim2SF x) as [sx|sx| |sx mx ex], (Prim2SF c) as [sc|sc| |sc mc ec];
    cbn; congruence.
Qed.

(** [|x| <= c] says that [x] lies between [-c] and [c]. *)
Lemma abs_leb_interval (x c : float) :
  (abs x <=? c) = (- c <=? x) && (x <=? c).
Proof.
  rewrite !FloatAxioms.leb_spec, FloatAxioms.abs_spec, FloatAxioms.opp_spec.
  unfold SFleb.
  destruct (Prim2SF x) as [sx|sx| |sx mx ex], (Prim2SF c) as [sc|sc| |sc mc ec];
    try reflexivity;
    try (destruct sx, sc; reflexivity); try (destruct sx; reflexivity);
    try (destruct sc; reflexivity).
  destruct sx, sc; cbn; rewrite ?andb_false_r, ?andb_true_r; try reflexivity.
  rewrite (Z.compare_antisym ex ec).
  destruct (ex ?= ec)%Z; cbn; try reflexivity.
  rewrite (compare_cont_antisym mx mc).
  destruct (Pos.compare_cont Eq mx mc); reflexivity.
Qed.

(** The difference of a finite number and itself is zero. *)
Lemma sub_diag_zero (x : float) :
  is_finite x = true -> exists s, Prim2SF (x - x) = S754_zero s.
Proof.
  rewrite is_finite_SF, FloatAxioms.sub_spec. unfold SF64sub.
  destruct (Prim2SF x) as [s|s| |s m e]; try discriminate; intros _.
  - destruct s; eexists; reflexivity.
  - cbn [SFsub]. rewrite Z.sub_diag. eexists. reflexivity.
Qed.

End FloatOrder.

(** ** utils/coordinates and the coordinate functions of utils/calculations *)

Module GeodesySpec.

Import Geodesy FloatOrder.
Local Open Scope string_scope.
Local Open Scope float_scope.

Lemma is_nan_abs (x : float) : is_nan (abs x) = is_nan x.
Proof.
  unfold is_nan. rewrite !FloatAxioms.eqb_spec, FloatAxioms.abs_spec.
  destruct (Prim2SF x) as [s|s| |s m e]; try reflexivity;
    try (destruct s; reflexivity).
  unfold SFeqb. cbn [SFabs]. rewrite !SFcompare_refl_finite. reflexivity.
Qed.

Lemma isValidLatitude_finite (x : number) :
  isValidLatitude x = true -> isFinite x = true.
Proof. apply abs_leb_is_finite. reflexivity. Qed.

Lemma isValidLongitude_finite (x : number) :
  isValidLongitude x = true -> isFinite x = true.
Proof. apply abs_leb_is_finite. reflexivity. Qed.

(** For a number that is not NaN, the test [|x| > c] of
    [validateLocationPoint] is the negation of the test [|x| <= c] of
    utils/coordinates. *)
Lemma gt_abs_negb (x c : number) :
  is_nan x = false -> is_nan c = false -> (c <? abs x) = negb (abs x <=? c).
Proof.
  intros Hx Hc. apply ltb_negb_leb; [|exact Hc]. rewrite is_nan_abs. exact Hx.
Qed.

(** What [validateLocationPoint] does with an object, by the range tests
    of utils/coordinates. *)
Lemma validateLocationPoint_cases (p : LocationPoint) (paramName : string) :
  if isValidCoordinate (latitude p) (longitude p)
  then validateLocationPoint (Some p) paramName = Return p
  else exists e, validateLocationPoint (Some p) paramName = Throw e.
Proof.
  unfold isValidCoordinate, validateLocationPoint.
  destruct (isFinite (latitude p)) eqn:Fa; cbn [negb orb].
  2:{ destruct (isValidLatitude (latitude p)) eqn:Va.
      - apply isValidLatitude_finite in Va. congruence.
      - cbn. eauto. }
  pose proof (FloatFacts.is_finite_not_nan _ Fa) as Na. unfold isNaN. rewrite Na.
  destruct (isFinite (longitude p)) eqn:Fo; cbn [negb orb].
  2:{ destruct (isValidLongitude (longitude p)) eqn:Vo.
      - apply isValidLongitude_finite in Vo. congruence.
      - rewrite andb_false_r. eauto. }
  pose proof (FloatFacts.is_finite_not_nan _ Fo) as No. rewrite No.
  unfold Math_abs.
  rewrite (gt_abs_negb (latitude p) 90 Na eq_refl).
  rewrite (gt_abs_negb (longitude p) 180 No eq_refl).
  unfold isValidLatitude, isValidLongitude, Math_abs, MAX_LATITUDE, MAX_LONGITUDE.
  destruct (abs (latitude p) <=? 90); cbn; [|eauto].
  destruct (abs (longitude p) <=? 180); cbn; eauto.
Qed.

Lemma isValidCoordinate_finite_both (latitude longitude : number) :
  isValidCoordinate latitude longitude = true ->
  isFinite latitude = true /\ isFinite longitude = true.
Proof.
  unfold isValidCoordinate. intros H. apply andb_true_iff in H as [Ha Ho].
  split; [apply isValidLatitude_finite, Ha|apply isValidLongitude_finite, Ho].
Qed.

(** X13. [isValidCoordinate] is the test of two closed intervals: the
    latitude lies between -90 and 90 and the longitude between -180 and
    180, bounds included. *)
Theorem isValidCoordinate_interval (latitude longitude : number) :
  isValidCoordinate latitude longitude =
  ((- MAX_LATITUDE <=? latitude) && (latitude <=? MAX_LATITUDE)) &&
  ((- MAX_LONGITUDE <=? longitude) && (longitude <=? MAX_LONGITUDE)).
Proof.
  unfold isValidCoordinate, isValidLatitude, isValidLongitude, Math_abs.
  rewrite !abs_leb_interval. reflexivity.
Qed.

(** X14. Coordinates that pass [isValidCoordinate] are finite numbers:
    the range test alone rejects NaN and both infinities. *)
Theorem isValidCoordinate_finite (latitude longitude : number) :
  isValidCoordinate latitude longitude = true ->
  isFinite latitude = true /\ isNaN latitude = false /\
  isFinite longitude = true /\ isNaN longitude = false.
Proof.
  unfold isValidCoordinate. intros H. apply andb_true_iff in H as [Ha Ho].
  apply isValidLatitude_finite in Ha. apply isValidLongitude_finite in Ho.
  unfold isNaN. auto using FloatFacts.is_finite_not_nan.
Qed.

Lemma isValidCoordinate_finite_witness :
  isValidCoordinate 35.5 139.75 = true /\
  (isFinite 35.5 = true /\ isNaN 35.5 = false /\
   isFinite 139.75 = true /\ isNaN 139.75 = false).
Proof.
  split; [reflexivity|].
  apply (isValidCoordinate_finite 35.5 139.75). reflexivity.
Defined.

(** X15. [validateLocationPoint] of utils/calculations returns normally
    on an object exactly when its coordinates pass [isValidCoordinate] of
    utils/coordinates; on every other object it throws. *)
Theorem validateLocationPoint_accepts_iff (p : LocationPoint) (paramName : string) :
  (validateLocationPoint (Some p) paramName = Return p <->
   isValidCoordinate (latitude p) (longitude p) = true) /\
  (isValidCoordinate (latitude p) (longitude p) = false <->
   exists e, validateLocationPoint (Some p) paramName = Throw e).
Proof.
  pose proof (validateLocationPoint_cases p paramName) as H.
  destruct (isValidCoordinate (latitude p) (longitude p)).
  - rewrite H. split; split; try reflexivity; try discriminate.
    intros [e He]. discriminate.
  - destruct H as [e He]. rewrite He. split; split; try discriminate; eauto.
Qed.

(** X16. The two kinds of error of [validateLocationPoint]: a range error
    is thrown only for finite coordinates, for the latitude when its
    magnitude exceeds 90 and for the longitude when the latitude is in
    range and the longitude's magnitude exceeds 180; a coordinate that is
    NaN or infinite gives the validation error INVALID_VALUE for the
    first such coordinate, the latitude before the longitude. *)
Theorem validateLocationPoint_error_kind (p : LocationPoint) (paramName : string)
    (t : Thrown) :
  validateLocationPoint (Some p) paramName = Throw t ->
  match t with
  | ThrownValidation e =>
      ve_code e = INVALID_VALUE /\
      (isFinite (latitude p) = false /\ ve_field e = Some (paramName ++ ".latitude") \/
       isFinite (latitude p) = true /\ isFinite (longitude p) = false /\
       ve_field e = Some (paramName ++ ".longitude"))
  | ThrownLocation e =>
      isFinite (latitude p) = true /\ isFinite (longitude p) = true /\
      (le_code e = LATITUDE_OUT_OF_RANGE /\ isValidLatitude (latitude p) = false /\
       le_field e = Some (paramName ++ ".latitude") \/
       le_code e = LONGITUDE_OUT_OF_RANGE /\ isValidLatitude (latitude p) = true /\
       isValidLongitude (longitude p) = false /\
       le_field e = Some (paramName ++ ".longitude"))
  end.
Proof.
  unfold validateLocationPoint.
  destruct (isFinite (latitude p)) eqn:Fa; cbn [negb orb].
  2:{ intros [= <-]. cbn. auto. }
  pose proof (FloatFacts.is_finite_not_nan _ Fa) as Na. unfold isNaN. rewrite Na.
  destruct (isFinite (longitude p)) eqn:Fo; cbn [negb orb].
  2:{ intros [= <-]. cbn. auto. }
  pose proof (FloatFacts.is_finite_not_nan _ Fo) as No. rewrite No.
  unfold Math_abs.
  rewrite (gt_abs_negb (latitude p) 90 Na eq_refl).
  rewrite (gt_abs_negb (longitude p) 180 No eq_refl).
  unfold isValidLatitude, isValidLongitude, Math_abs, MAX_LATITUDE, MAX_LONGITUDE.
  destruct (abs (latitude p) <=? 90); cbn [negb].
  2:{ intros [= <-]. cbn. auto 6. }
  destruct (abs (longitude p) <=? 180); cbn [negb].
  2:{ intros [= <-]. cbn. auto 8. }
  discriminate.
Qed.

Lemma validateLocationPoint_error_kind_witness :
  exists e,
    validateLocationPoint (Some {| latitude := infinity; longitude := 200 |}) "from"
      = Throw (ThrownValidation e) /\
    ve_code e = INVALID_VALUE /\ ve_field e = Some "from.latitude".
Proof.
  eexists. split; [reflexivity|].
  pose proof (validateLocationPoint_error_kind
                {| latitude := infinity; longitude := 200 |} "from" _ eq_refl) as H.
  cbn in H. destruct H as [Hc _]. split; [exact Hc|reflexivity].
Defined.

Section Trigonometry.

Variables Math_sin Math_cos : number -> number.
Variable Math_atan2 : number -> number -> number.
Variable Number_remainder : number -> number -> number.

(** A valid point is equal to itself within the tolerance. *)
Lemma arePointsEqual_refl (p : LocationPoint) :
  isValidCoordinate (latitude p) (longitude p) = true -> arePointsEqual p p = true.
Proof.
  intros H. apply isValidCoordinate_finite_both in H as (Fa & Fo).
  unfold arePointsEqual, Math_abs.
  assert (Z : forall x, is_finite x = true -> (abs (x - x) <? EPSILON) = true).
  { intros x Fx. destruct (sub_diag_zero x Fx) as [s Hs].
    rewrite FloatAxioms.ltb_spec, FloatAxioms.abs_spec, Hs. reflexivity. }
  rewrite (Z _ Fa), (Z _ Fo). reflexivity.
Qed.

End Trigonometry.

(** X17. Between a valid point and itself [calculateDistance] returns 0
    and [calculateDirection] throws the location error IDENTICAL_POINTS,
    without a field. *)
Theorem same_point (Math_sin Math_cos : number -> number)
    (Math_atan2 Number_remainder : number -> number -> number) (p : LocationPoint) :
  isValidCoordinate (latitude p) (longitude p) = true ->
  calculateDistance Math_sin Math_cos Math_atan2 (Some p) (Some p) = Return 0 /\
  exists e,
    calculateDirection Math_sin Math_cos Math_atan2 Number_remainder (Some p) (Some p)
      = Throw (ThrownLocation e) /\
    le_code e = IDENTICAL_POINTS /\ le_field e = None.
Proof.
  intros H. pose proof (validateLocationPoint_cases p "from") as Hf.
  pose proof (validateLocationPoint_cases p "to") as Ht.
  rewrite H in Hf, Ht.
  unfold calculateDistance, calculateDirection.
  rewrite Hf, Ht, (arePointsEqual_refl p H). split; [reflexivity|].
  eexists. split; [reflexivity|]. split; reflexivity.
Qed.

Lemma same_point_witness :
  calculateDistance const0 const0 const0_2
    (Some {| latitude := 35.5; longitude := 139.75 |})
    (Some {| latitude := 35.5; longitude := 139.75 |}) = Return 0.
Proof.
  apply (same_point const0 const0 const0_2 const0_2
           {| latitude := 35.5; longitude := 139.75 |}).
  reflexivity.
Defined.

(** [Math.max(0, d)] is NaN, or a number that is at least 0 and is not
    the negative zero. *)
Lemma Math_max_0 (d : number) :
  isNaN (Math_max 0 d) = true \/
  (0 <=? Math_max 0 d) = true /\ get_sign (Math_max 0 d) = false.
Proof.
  unfold Math_max, isNaN. change (is_nan 0) with false. cbn [orb].
  destruct (is_nan d) eqn:Nd; [left; reflexivity|].
  right. destruct (0 <? d) eqn:Hd.
  - assert (Hz : PrimFloat.is_zero d = false).
    { revert Hd. unfold PrimFloat.is_zero.
      rewrite FloatAxioms.ltb_spec, FloatAxioms.eqb_spec.
      change (Prim2SF 0) with (S754_zero false).
      destruct (Prim2SF d) as [s|s| |s m e]; try (destruct s); cbn; congruence. }
    unfold get_sign. rewrite Hz. revert Hd.
    rewrite FloatAxioms.leb_spec, !FloatAxioms.ltb_spec.
    change (Prim2SF 0) with (S754_zero false).
    destruct (Prim2SF d) as [s|s| |s m e]; try (destruct s); cbn; try discriminate;
      intros _; split; reflexivity.
  - destruct (d <? 0); split; reflexivity.
Qed.

(** X18. [calculateDistance] never returns a negative number, whatever
    the engine's trigonometric functions give: a returned distance is at
    least 0 and not the negative zero, or it is NaN. *)
Theorem calculateDistance_not_negative (Math_sin Math_cos : number -> number)
    (Math_atan2 : number -> number -> number) (from to : option LocationPoint)
    (d : number) :
  calculateDistance Math_sin Math_cos Math_atan2 from to = Return d ->
  isNaN d = true \/ (0 <=? d) = true /\ get_sign d = false.
Proof.
  unfold calculateDistance.
  destruct (validateLocationPoint from "from") as [f|e]; [|discriminate].
  destruct (validateLocationPoint to "to") as [t|e]; [|discriminate].
  destruct (arePointsEqual f t).
  - intros [= <-]. right. split; reflexivity.
  - intros [= <-]. apply Math_max_0.
Qed.

Lemma calculateDistance_not_negative_witness :
  calculateDistance const0 const0 const0_2
    (Some {| latitude := 35.5; longitude := 139.75 |})
    (Some {| latitude := 34.75; longitude := 135.5 |}) = Return 0 /\
  (isNaN 0 = true \/ (0 <=? 0) = true /\ get_sign 0 = false).
Proof.
  split; [reflexivity|].
  apply (calculateDistance_not_negative const0 const0 const0_2
           (Some {| latitude := 35.5; longitude := 139.75 |})
           (Some {| latitude := 34.75; longitude := 135.5 |}) 0).
  reflexivity.
Defined.

(** X19. The samples that [validateLocationPoint] of types/location
    accepts are points on which the functions of utils/calculations do
    not throw a validation or range error: [calculateDistance] returns
    for any two of them. *)
Theorem validated_samples_have_distance (Number_toString : number -> string)
    (Math_sin Math_cos : number -> number) (Math_atan2 : number -> number -> number)
    (a b : Location.LocationPoint) :
  Location.validateLocationPoint Number_toString a = true ->
  Location.validateLocationPoint Number_toString b = true ->
  exists d,
    calculateDistance Math_sin Math_cos Math_atan2
      (Some (coordinates_of a)) (Some (coordinates_of b)) = Return d.
Proof.
  assert (V : forall p, Location.validateLocationPoint Number_toString p = true ->
            isValidCoordinate (Location.latitude p) (Location.longitude p) = true).
  { intros p. unfold Location.validateLocationPoint, Location.validateLocationPointDetailed,
      isValidCoordinate.
    destruct (isValidLatitude (Location.latitude p)); [|discriminate].
    destruct (isValidLongitude (Location.longitude p)); [|discriminate].
    reflexivity. }
  intros Ha Hb. apply V in Ha, Hb.
  pose proof (validateLocationPoint_cases (coordinates_of a) "from") as Hf.
  pose proof (validateLocationPoint_cases (coordinates_of b) "to") as Ht.
  cbn [coordinates_of latitude longitude] in Hf, Ht. rewrite Ha in Hf. rewrite Hb in Ht.
  unfold calculateDistance. rewrite Hf, Ht.
  destruct (arePointsEqual _ _); eauto.
Qed.

Lemma validated_samples_have_distance_witness :
  exists d,
    calculateDistance const0 const0 const0_2
      (Some (coordinates_of TestData.mockLocationPoint1))
      (Some (coordinates_of TestData.mockLocationPoint2)) = Return d.
Proof.
  apply (validated_samples_have_distance (fun _ => EmptyString) const0 const0 const0_2
           TestData.mockLocationPoint1 TestData.mockLocationPoint2); reflexivity.
Defined.

End GeodesySpec.

(** ** The sign of what [calculateSpeed] returns

    The operations of binary64 are specified on [spec_float]; the lemmas
    below follow the sign through the rounding of a product and of a
    quotient. *)

Module SpeedSign.

Import Calculations FloatSign.

Lemma iter_pos_invariant {A : Type} (f : A -> A) (P : A -> Prop) :
  (forall x, P x -> P (f x)) -> forall n x, P x -> P (SpecFloat.iter_pos f n x).
Proof. intros Hf. induction n; intros x Hx; cbn; auto. Qed.

Lemma shr_1_nonneg (mrs : shr_record) : 0 <= shr_m mrs -> 0 <= shr_m (shr_1 mrs).
Proof. destruct mrs as [m r s]. destruct m as [|[p|p|]|[p|p|]]; cbn; lia. Qed.

Lemma shr_nonneg (mrs : shr_record) (e n : Z) :
  0 <= shr_m mrs -> 0 <= shr_m (fst (shr mrs e n)).
Proof.
  intros H. unfold shr. destruct n; cbn [fst]; try exact H.
  apply (iter_pos_invariant shr_1 (fun r => 0 <= shr_m r)); [apply shr_1_nonneg|exact H].
Qed.

Lemma shr_fexp_nonneg (m e : Z) (l : location) :
  0 <= m -> 0 <= shr_m (fst (shr_fexp prec emax m e l)).
Proof.
  intros H. unfold shr_fexp. apply shr_nonneg. destruct l as [|[]]; exact H.
Qed.

Lemma round_nearest_even_nonneg (m : Z) (l : location) :
  0 <= m -> 0 <= round_nearest_even m l.
Proof.
  intros H. destruct l as [|[]]; cbn; try lia. destruct (Z.even m); lia.
Qed.

(** Rounding a mantissa that is not negative with the positive sign. *)
Lemma binary_round_aux_sign (m e : Z) (l : location) :
  0 <= m -> at_least_zero (binary_round_aux prec emax false m e l) = true.
Proof.
  intros H. unfold binary_round_aux.
  pose proof (shr_fexp_nonneg m e l H) as H1.
  destruct (shr_fexp prec emax m e l) as [mrs' e']. cbn [fst] in H1.
  pose proof (shr_fexp_nonneg _ e' loc_Exact
                (round_nearest_even_nonneg _ (loc_of_shr_record mrs') H1)) as H2.
  destruct (shr_fexp prec emax _ e' loc_Exact) as [mrs'' e'']. cbn [fst] in H2.
  destruct (shr_m mrs'') as [|p|p]; [reflexivity| |lia].
  destruct (e'' <=? emax - prec); reflexivity.
Qed.

Lemma SFmul_sign (x y : spec_float) :
  at_least_zero x = true -> positive_finite y = true ->
  at_least_zero (SFmul prec emax x y) = true.
Proof.
  destruct x as [sx|sx| |sx mx ex], y as [sy|sy| |sy my ey]; cbn [positive_finite at_least_zero];
    try discriminate; intros Hx Hy; apply negb_true_iff in Hy; subst sy.
  - reflexivity.
  - cbn. rewrite xorb_false_r. exact Hx.
  - apply negb_true_iff in Hx. subst sx. apply binary_round_aux_sign. lia.
Qed.

Lemma SFdiv_sign (x y : spec_float) :
  at_least_zero x = true -> positive_finite y = true ->
  at_least_zero (SFdiv prec emax x y) = true.
Proof.
  destruct x as [sx|sx| |sx mx ex], y as [sy|sy| |sy my ey]; cbn [positive_finite at_least_zero];
    try discriminate; intros Hx Hy; apply negb_true_iff in Hy; subst sy.
  - reflexivity.
  - cbn. rewrite xorb_false_r. exact Hx.
  - apply negb_true_iff in Hx. subst sx. cbn [SFdiv xorb].
    unfold SFdiv_core_binary.
    set (m' := match _ - _ - _ with Z.pos _ => _ | Z0 => _ | Z.neg _ => _ end).
    assert (Hm : 0 <= m').
    { subst m'. destruct (_ - _ - _) eqn:E; try lia.
      apply Z.shiftl_nonneg. lia. }
    pose proof (Z.div_pos m' (Z.pos my) Hm ltac:(lia)) as Hq.
    unfold Z.div in Hq. destruct (Z.div_eucl m' (Z.pos my)) as [q r].
    apply binary_round_aux_sign. exact Hq.
Qed.

Local Open Scope float_scope.

Lemma mul_sign (x c : float) :
  at_least_zero (Prim2SF x) = true -> positive_finite (Prim2SF c) = true ->
  at_least_zero (Prim2SF (x * c)) = true.
Proof. rewrite FloatAxioms.mul_spec. apply SFmul_sign. Qed.

Lemma div_sign (x c : float) :
  at_least_zero (Prim2SF x) = true -> positive_finite (Prim2SF c) = true ->
  at_least_zero (Prim2SF (x / c)) = true.
Proof. rewrite FloatAxioms.div_spec. apply SFdiv_sign. Qed.

Lemma of_uint63_sign (n : int) : at_least_zero (Prim2SF (of_uint63 n)) = true.
Proof.
  rewrite FloatAxioms.of_uint63_spec.
  pose proof (Uint63.to_Z_bounded n) as [H _].
  destruct (Uint63.to_Z n) as [|p|p]; [reflexivity| |lia].
  cbn [binary_normalize]. unfold binary_round.
  destruct (shl_align _ _ _) as [mz ez]. apply binary_round_aux_sign. lia.
Qed.

Lemma Math_round_sign (x : number) :
  at_least_zero (Prim2SF x) = true -> at_least_zero (Prim2SF (Math_round x)) = true.
Proof.
  intros H. unfold Math_round.
  destruct (Prim2SF x) as [s|s| |s m e] eqn:E; try (rewrite E; exact H).
  cbn in H. apply negb_true_iff in H. subst s.
  destruct (e <? 0)%Z eqn:He; [|rewrite E; reflexivity].
  apply Z.ltb_lt in He.
  set (n := ((2 * Z.pos m + 2 ^ (- e)) / 2 ^ (1 - e))%Z).
  assert (Hn : (0 <= n)%Z).
  { subst n. apply Z.div_pos.
    - assert (0 < 2 ^ (- e))%Z by (apply Z.pow_pos_nonneg; lia). lia.
    - apply Z.pow_pos_nonneg; lia. }
  destruct (n =? 0)%Z; [reflexivity|].
  destruct (n <? 0)%Z eqn:Hlt; [apply Z.ltb_lt in Hlt; lia|].
  apply of_uint63_sign.
Qed.

(** [0 <= x] in terms of the specification. *)
Lemma leb_0_sign (x : float) : (0 <=? x) = at_least_zero (Prim2SF x).
Proof.
  rewrite FloatAxioms.leb_spec. change (Prim2SF 0) with (S754_zero false).
  destruct (Prim2SF x) as [s|s| |s m e]; try destruct s; reflexivity.
Qed.

(** A number that is not NaN and not below zero is at least zero; one
    that is finite and not at most zero is positive and finite. *)
Lemma not_ltb_0_sign (x : float) :
  is_nan x = false -> (x <? 0) = false -> at_least_zero (Prim2SF x) = true.
Proof.
  unfold is_nan. rewrite FloatAxioms.eqb_spec, FloatAxioms.ltb_spec.
  change (Prim2SF 0) with (S754_zero false).
  destruct (Prim2SF x) as [s|s| |s m e]; try destruct s; cbn; congruence.
Qed.

Lemma not_leb_0_sign (x : float) :
  is_finite x = true -> (x <=? 0) = false -> positive_finite (Prim2SF x) = true.
Proof.
  rewrite FloatOrder.is_finite_SF, FloatAxioms.leb_spec.
  change (Prim2SF 0) with (S754_zero false).
  destruct (Prim2SF x) as [s|s| |s m e]; try destruct s; cbn; congruence.
Qed.

(** X20. [calculateSpeed] never returns a negative speed and never
    NaN: whenever it returns, the speed is at least 0. *)
Theorem calculateSpeed_not_negative (distanceInMeters timeInSeconds r : number) :
  calculateSpeed distanceInMeters timeInSeconds = Return r -> (0 <=? r) = true.
Proof.
  unfold calculateSpeed, isNaN, isFinite.
  destruct (is_finite distanceInMeters) eqn:Fd; cbn [negb orb]; [|discriminate].
  rewrite (FloatFacts.is_finite_not_nan _ Fd).
  destruct (is_finite timeInSeconds) eqn:Ft; cbn [negb orb]; [|discriminate].
  rewrite (FloatFacts.is_finite_not_nan _ Ft).
  destruct (distanceInMeters <? 0) eqn:Hd; [discriminate|].
  destruct (timeInSeconds <=? 0) eqn:Ht; [discriminate|].
  intros [= <-]. rewrite leb_0_sign.
  apply div_sign; [|reflexivity].
  apply Math_round_sign.
  apply mul_sign; [|reflexivity].
  apply div_sign; [|reflexivity].
  apply mul_sign; [|reflexivity].
  apply div_sign.
  - apply not_ltb_0_sign; [apply FloatFacts.is_finite_not_nan, Fd|exact Hd].
  - apply not_leb_0_sign; assumption.
Qed.

Lemma calculateSpeed_not_negative_witness :
  calculateSpeed 1000 3600 = Return 1 /\ (0 <=? 1) = true.
Proof.
  split; [reflexivity|].
  apply (calculateSpeed_not_negative 1000 3600 1). reflexivity.
Defined.

End SpeedSign.

(** ** services/locationService: configuration and location data *)

Module LocationDataSpec.

Import Location LocationService FloatOrder.
Local Open Scope string_scope.

Section Service.

Variable Number_toString : number -> string.
Variable Date_parse : string -> JsDate.
Variable Thrown : Type.
Variable TypeError : Thrown.

Lemma accuracyMap_entries :
  accuracyMap Number_toString =
  [ ("undefined", 1); ("best", 2); ("nearest-ten-meters", 3); ("hundred-meters", 4);
    ("kilometer", 5); ("three-kilometers", 6) ].
Proof. reflexivity. Qed.

Lemma validateConfig_accuracy (c : LocationServiceConfig) :
  validateConfig (Some c) = true -> validateGPSAccuracy (accuracy c) = true.
Proof.
  unfold validateConfig, validateGPSAccuracy.
  change validGPSAccuracies with VALID_GPS_ACCURACIES.
  destruct (Set_has VALID_GPS_ACCURACIES (accuracy c)); [reflexivity|discriminate].
Qed.

End Service.

(** X21. A configuration that [validateConfig] accepts has an accuracy
    that [mapGPSAccuracyToExpo] maps to a level of the location module
    between 2 and 6; level 1 is not among them. *)
Theorem validated_accuracy_level (Number_toString : number -> string)
    (c : LocationServiceConfig) :
  validateConfig (Some c) = true ->
  exists level,
    mapGPSAccuracyToExpo Number_toString (accuracy c) = StorageService.OwnValue level /\
    2 <= level <= 6.
Proof.
  intros H%validateConfig_accuracy.
  apply LocationSpec.validateGPSAccuracy_true_iff in H as (s & -> & H).
  unfold mapGPSAccuracyToExpo. rewrite accuracyMap_entries. cbn [ToPropertyKey].
  destruct H as [ -> | [ -> | [ -> | [ -> | -> ] ] ] ]; eexists; (split; [reflexivity|lia]).
Qed.

Lemma validated_accuracy_level_witness :
  validateConfig (Some config0) = true /\
  exists level,
    mapGPSAccuracyToExpo (fun _ => EmptyString) (accuracy config0)
      = StorageService.OwnValue level /\
    2 <= level <= 6.
Proof.
  split; [reflexivity|].
  apply (validated_accuracy_level (fun _ => EmptyString) config0). reflexivity.
Defined.

(** X22. [mapGPSAccuracyToExpo] answers with level 1, the one meant for
    best-for-navigation, exactly for a key that stands for the property
    name undefined; for the string best-for-navigation it answers
    [undefined]. *)
Theorem best_for_navigation_level (Number_toString : number -> string) (g : JsValue) :
  (mapGPSAccuracyToExpo Number_toString g = StorageService.OwnValue 1 <->
   ToPropertyKey Number_toString g = "undefined") /\
  mapGPSAccuracyToExpo Number_toString JsUndefined = StorageService.OwnValue 1 /\
  mapGPSAccuracyToExpo Number_toString (JsString "best-for-navigation")
    = StorageService.Undefined.
Proof.
  split; [|split; reflexivity].
  unfold mapGPSAccuracyToExpo. rewrite accuracyMap_entries.
  generalize (ToPropertyKey Number_toString g). intros k. split.
  - unfold StorageService.get. cbn [StorageService.own].
    destruct (String.eqb "undefined" k) eqn:E0.
    { intros _. symmetry. apply String.eqb_eq, E0. }
    repeat (destruct (String.eqb _ k); [discriminate|]).
    destruct (StorageService.inherited k); discriminate.
  - intros ->. reflexivity.
Qed.

Section Data.

Variable Number_toString : number -> string.
Variable Date_parse : string -> JsDate.
Variable Thrown : Type.
Variable TypeError : Thrown.

Local Open Scope float_scope.

(** A positive number is clipped to a date exactly when it is at most
    8.64e15. *)
Lemma TimeClip_positive (t : number) :
  (0 <? t) = true ->
  TimeClip t = if 8640000000000000 <? t then None else Some (ToIntegerOrInfinity t).
Proof.
  unfold TimeClip, isFinite, Math_abs. rewrite is_finite_SF.
  rewrite !FloatAxioms.ltb_spec, FloatAxioms.abs_spec.
  change (Prim2SF 0) with (S754_zero false).
  destruct (Prim2SF t) as [s|s| |s m e]; try destruct s; cbn; try discriminate;
    intros _; reflexivity.
Qed.

Lemma ToIntegerOrInfinity_positive (t : number) :
  (0 <? t) = true -> (0 <= ToIntegerOrInfinity t)%Z.
Proof.
  unfold ToIntegerOrInfinity. rewrite FloatAxioms.ltb_spec.
  change (Prim2SF 0) with (S754_zero false).
  destruct (Prim2SF t) as [s|s| |s m e]; try destruct s; cbn; try discriminate;
    intros _; try lia.
  destruct (0 <=? e)%Z eqn:He.
  - apply Z.leb_le in He. apply Z.mul_nonneg_nonneg; [lia|]. apply Z.pow_nonneg. lia.
  - apply Z.leb_gt in He. apply Z.div_pos; [lia|]. apply Z.pow_pos_nonneg; lia.
Qed.

(** What [validateLocationData] accepts. *)
Lemma validateLocationData_true (d : option LocationData) :
  validateLocationData d = true ->
  exists data c lat lon t,
    d = Some data /\ coords data = Some c /\
    coords_latitude c = JsNumber lat /\ coords_longitude c = JsNumber lon /\
    timestamp data = JsNumber t /\
    isValidCoordinate lat lon = true /\ (0 <? t) = true.
Proof.
  unfold validateLocationData.
  destruct d as [data|]; [|discriminate].
  destruct (coords data) as [c|] eqn:Ec; [|discriminate].
  destruct (coords_latitude c) as [| | |lat|] eqn:Ea; try discriminate.
  destruct (coords_longitude c) as [| | |lon|] eqn:Eo; try discriminate.
  destruct (timestamp data) as [| | |t|] eqn:Et; try discriminate.
  intros [H1 H2]%andb_true_iff. exists data, c, lat, lon, t. auto 10.
Qed.

End Data.

(** X23. A datum that [validateLocationData] accepts is an object with
    coordinates whose latitude and longitude are finite numbers within
    range and whose timestamp is a positive number.  On it
    [transformLocationData] returns, without throwing, the point with
    that latitude and longitude, with the accuracy of the datum when it
    is truthy and the number 0 otherwise, with the speed and the heading
    of the datum as they are, and with a timestamp that is an invalid
    date exactly when the datum's exceeds 8.64e15 (+Infinity included)
    and otherwise the date of its integral part, which is not
    negative. *)
Theorem validated_data_point (Date_parse : string -> JsDate) (Thrown : Type)
    (TypeError : Thrown) (d : option LocationData) :
  validateLocationData d = true ->
  exists data c lat lon t,
    d = Some data /\ coords data = Some c /\
    coords_latitude c = JsNumber lat /\ coords_longitude c = JsNumber lon /\
    timestamp data = JsNumber t /\
    isValidCoordinate lat lon = true /\ isFinite lat = true /\ isFinite lon = true /\
    (0 <? t)%float = true /\
    transformLocationData Date_parse TypeError d =
      Return {| point_latitude := JsNumber lat;
                point_longitude := JsNumber lon;
                point_timestamp :=
                  if (8640000000000000 <? t)%float then None
                  else Some (ToIntegerOrInfinity t);
                point_accuracy :=
                  if ToBoolean (coords_accuracy c) then coords_accuracy c
                  else JsNumber 0%float;
                point_speed := coords_speed c;
                point_heading := coords_heading c |} /\
    (0 <= ToIntegerOrInfinity t)%Z.
Proof.
  intros H. apply validateLocationData_true in H
    as (data & c & lat & lon & t & -> & Ec & Ea & Eo & Et & Hv & Ht).
  pose proof (GeodesySpec.isValidCoordinate_finite_both lat lon Hv) as [Fa Fo].
  exists data, c, lat, lon, t. repeat (split; [assumption || reflexivity|]).
  split; [|apply ToIntegerOrInfinity_positive, Ht].
  unfold transformLocationData. rewrite Ec, Ea, Eo, Et. cbn [new_Date].
  rewrite (TimeClip_positive t Ht). reflexivity.
Qed.

Lemma validated_data_point_witness :
  transformLocationData (fun _ => None) tt (Some data0) =
    Return {| point_latitude := JsNumber 35.5%float;
              point_longitude := JsNumber 139.75%float;
              point_timestamp := Some 1672567200000;
              point_accuracy := JsNumber 5%float;
              point_speed := JsNull;
              point_heading := JsNull |}.
Proof.
  destruct (validated_data_point (fun _ => None) unit tt (Some data0) eq_refl)
    as (data & c & lat & lon & t & [= <-] & [= <-] & [= <-] & [= <-] & [= <-] & _ & _ & _
        & _ & H & _).
  exact H.
Defined.

End LocationDataSpec.

(** ** services/locationService: tracking *)

Module LocationTrackingSpec.

Import Location LocationService.
Local Open Scope string_scope.

Section Service.

Variable Number_toString : number -> string.
Variable Date_parse : string -> JsDate.
Context {Thrown : Type}.
Variable TypeError : Thrown.
Variable apis : @Apis Thrown.

(** Running a method on a service given by its fields. *)
Ltac exec :=
  cbv beta iota zeta delta
    [startTracking stopTracking configure setStatus set_status notify emitError
     createLocationServiceError checkLocationServices requestPermissions
     setupBackgroundTask handleLocationUpdate getCurrentLocation
     try_catch bind ret throw call record set_config set_locationSubscription
     setEventHandlers config status events locationSubscription trace
     fst snd negb andb made].

Ltac decompose_hyps :=
  repeat match goal with
         | H : _ /\ _ |- _ => destruct H
         | H : exists _, _ |- _ => destruct H
         | H : _ \/ _ |- _ => destruct H
         | H : False |- _ => destruct H
         | H : ?a = ?a -> _ |- _ => specialize (H eq_refl)
         end.

Ltac finish :=
  intros; decompose_hyps; subst; try congruence; eauto 12;
  try (eexists; split; [reflexivity|congruence]).

(** X25. [startTracking] with a configuration object completes normally
    in two cases only.  It ends in the status RUNNING exactly when
    [validateConfig] accepts the configuration, the location services are
    enabled, the foreground permission is granted, the request of the
    background permission and the definition of the background task,
    made when [enableBackground] is truthy, do not fail, and the watch is
    started; the subscription is then the one of the watch.  It ends in
    the status ERROR exactly when the configuration is accepted, the
    services are enabled and the foreground permission is answered but
    not granted.  In every other case the construction of the error to
    report throws a TypeError: the method is rejected with it, the
    subscription is the one held before, and the status is left at
    STARTING, or, for a configuration that is not accepted, the service
    is left as it was. *)
Theorem startTracking_status (c : LocationServiceConfig) (s : Service) :
  let r := startTracking Number_toString TypeError apis (Some c) s in
  let running :=
    validateConfig (Some c) = true /\
    hasServicesEnabledAsync apis = Return true /\
    (exists answer, requestForegroundPermissionsAsync apis = Return answer /\
                    mapPermissionStatus answer = GRANTED) /\
    (ToBoolean (enableBackground c) = true ->
     (exists answer, requestBackgroundPermissionsAsync apis = Return answer) /\
     defineTask apis = Return tt) /\
    exists sub, watchPositionAsync apis (watchOptions Number_toString c) = Return sub in
  let refused :=
    validateConfig (Some c) = true /\
    hasServicesEnabledAsync apis = Return true /\
    exists answer, requestForegroundPermissionsAsync apis = Return answer /\
                   mapPermissionStatus answer <> GRANTED in
  (snd r = Return tt /\ status (fst r) = RUNNING <-> running) /\
  (snd r = Return tt /\ status (fst r) = ERROR <-> refused) /\
  (snd r = Return tt /\ (status (fst r) = RUNNING \/ status (fst r) = ERROR) \/
   snd r = Throw TypeError /\
   locationSubscription (fst r) = locationSubscription s /\
   if validateConfig (Some c) then status (fst r) = STARTING else fst r = s) /\
  (running ->
   watchPositionAsync apis (watchOptions Number_toString c)
     = Return (locationSubscription (fst r))) /\
  (refused -> locationSubscription (fst r) = locationSubscription s).
Proof.
  cbn zeta. destruct s as [cfg st ev sub tr].
  unfold startTracking, configure, checkLocationServices, requestPermissions,
    setupBackgroundTask.
  destruct (validateConfig (Some c)) eqn:Ec.
  2:{ exec. repeat split; finish. }
  destruct (hasServicesEnabledAsync apis) as [[|]|e0] eqn:E0.
  2,3: destruct ev; exec; repeat split; finish.
  destruct (requestForegroundPermissionsAsync apis) as [a|e1] eqn:E1.
  2: destruct ev; exec; repeat split; finish.
  destruct (ToBoolean (enableBackground c)) eqn:Eb;
    destruct (mapPermissionStatus a) eqn:Ea;
    try (destruct ev; exec; rewrite Ea; exec; repeat split; finish; fail).
  - destruct (requestBackgroundPermissionsAsync apis) as [b|e2] eqn:E2.
    2: destruct ev; exec; rewrite Ea; exec; repeat split; finish.
    destruct (defineTask apis) as [[]|e3] eqn:E3.
    2: destruct ev; exec; rewrite Ea; exec; repeat split; finish.
    destruct (watchPositionAsync apis _) as [w|e4] eqn:E4;
      destruct ev; exec; rewrite Ea; exec; repeat split; finish.
  - destruct (watchPositionAsync apis _) as [w|e4] eqn:E4;
      destruct ev; exec; rewrite Ea; exec; repeat split; finish.
Qed.


(** The calls made, case by case: the trace grows, and no call hands
    an error to the handlers. *)
Ltac grown :=
  eexists; split;
  [ split;
    [ reflexivity
    | first [rewrite <- ?app_assoc; reflexivity|symmetry; apply app_nil_r] ]
  | ].

Lemma startTracking_frame (c : option LocationServiceConfig) (s : Service) :
  exists l,
    made s l (fst (startTracking Number_toString TypeError apis c s)) /\
    List.filter is_onError l = [] /\
    config (fst (startTracking Number_toString TypeError apis c s))
      = (if validateConfig c then c else config s) /\
    (validateConfig c = false ->
     startTracking Number_toString TypeError apis c s = (s, Throw TypeError)).
Proof.
  destruct s as [cfg st ev sub tr].
  destruct c as [c|].
  2:{ exists []. exec. rewrite app_nil_r. repeat split. }
  unfold startTracking, configure, checkLocationServices, requestPermissions,
    setupBackgroundTask.
  destruct (validateConfig (Some c)) eqn:Ec.
  2:{ exists []. exec. rewrite app_nil_r. repeat split. }
  destruct (hasServicesEnabledAsync apis) as [[|]|e0] eqn:E0.
  2,3: destruct ev; exec; grown; repeat split; discriminate.
  destruct (requestForegroundPermissionsAsync apis) as [a|e1] eqn:E1.
  2: destruct ev; exec; grown; repeat split; discriminate.
  destruct (ToBoolean (enableBackground c)) eqn:Eb;
    destruct (mapPermissionStatus a) eqn:Ea;
    try (destruct ev; exec; rewrite Ea; exec; grown; repeat split; discriminate).
  - destruct (requestBackgroundPermissionsAsync apis) as [b|e2] eqn:E2.
    2: destruct ev; exec; rewrite Ea; exec; grown; repeat split; discriminate.
    destruct (defineTask apis) as [[]|e3] eqn:E3.
    2: destruct ev; exec; rewrite Ea; exec; grown; repeat split; discriminate.
    destruct (watchPositionAsync apis _) as [w|e4] eqn:E4;
      destruct ev; exec; rewrite Ea; exec; grown; repeat split; discriminate.
  - destruct (watchPositionAsync apis _) as [w|e4] eqn:E4;
      destruct ev; exec; rewrite Ea; exec; grown; repeat split; discriminate.
Qed.

(** X26. A configuration that [validateConfig] does not accept, [null]
    and [undefined] among them, stops [startTracking] at once: it throws
    a TypeError and leaves the service as it was, with no status
    change, no call to a handler or a module.  With a configuration that
    is accepted, the stored configuration is that one afterwards,
    however the call ends. *)
Theorem startTracking_config (c : option LocationServiceConfig) (s : Service) :
  (validateConfig c = false ->
   startTracking Number_toString TypeError apis c s = (s, Throw TypeError)) /\
  (validateConfig c = true ->
   config (fst (startTracking Number_toString TypeError apis c s)) = c).
Proof.
  destruct (startTracking_frame c s) as (l & _ & _ & Hc & Hn). split.
  - exact Hn.
  - intros V. rewrite Hc, V. reflexivity.
Qed.

Ltac calls_leaf :=
  grown;
  (split; [reflexivity|]); (split; [reflexivity|]);
  (split; [eexists; split; [reflexivity|cbn; finish]|]);
  (split; [cbn; intros; decompose_hyps; try discriminate; repeat split; finish
         |intros; cbn; finish]).

(** X27. The calls of [startTracking] with a configuration that
    [validateConfig] accepts.  The status changes reported to the
    handlers are STARTING, followed by the final status when the method
    completes normally and by nothing when it throws.  No error is
    handed to [onError].  The first call into the modules asks whether
    the location services are enabled; the others ask for permissions,
    define the background task and start the watch: no subscription is
    removed and no background task is stopped.  The watch is started
    exactly when the services are enabled, the foreground permission is
    granted and, for a truthy [enableBackground], the background request
    and the definition of the task do not fail. *)
Theorem startTracking_calls (c : LocationServiceConfig) (s : Service) :
  validateConfig (Some c) = true ->
  exists l,
    made s l (fst (startTracking Number_toString TypeError apis (Some c) s)) /\
    status_changes l =
      (if events s
       then STARTING ::
            match snd (startTracking Number_toString TypeError apis (Some c) s) with
            | Return _ => [status (fst (startTracking Number_toString TypeError apis (Some c) s))]
            | Throw _ => []
            end
       else []) /\
    List.filter is_onError l = [] /\
    (exists rest,
       module_calls l = HasServicesEnabledAsync :: rest /\
       forall e, In e rest ->
         e = RequestForegroundPermissionsAsync \/ e = RequestBackgroundPermissionsAsync \/
         e = DefineTask \/ e = WatchPositionAsync (watchOptions Number_toString c)) /\
    (In (WatchPositionAsync (watchOptions Number_toString c)) l <->
     hasServicesEnabledAsync apis = Return true /\
     (exists answer, requestForegroundPermissionsAsync apis = Return answer /\
                     mapPermissionStatus answer = GRANTED) /\
     (ToBoolean (enableBackground c) = true ->
      (exists answer, requestBackgroundPermissionsAsync apis = Return answer) /\
      defineTask apis = Return tt)).
Proof.
  intros Ec. destruct s as [cfg st ev sub tr].
  unfold startTracking, configure, checkLocationServices, requestPermissions,
    setupBackgroundTask.
  rewrite Ec.
  destruct (hasServicesEnabledAsync apis) as [[|]|e0] eqn:E0.
  2,3: destruct ev; exec; calls_leaf.
  destruct (requestForegroundPermissionsAsync apis) as [a|e1] eqn:E1.
  2: destruct ev; exec; calls_leaf.
  destruct (ToBoolean (enableBackground c)) eqn:Eb;
    destruct (mapPermissionStatus a) eqn:Ea;
    try (destruct ev; exec; rewrite Ea; exec; calls_leaf; fail).
  - destruct (requestBackgroundPermissionsAsync apis) as [b|e2] eqn:E2.
    2: destruct ev; exec; rewrite Ea; exec; calls_leaf.
    destruct (defineTask apis) as [[]|e3] eqn:E3.
    2: destruct ev; exec; rewrite Ea; exec; calls_leaf.
    destruct (watchPositionAsync apis _) as [w|e4] eqn:E4;
      destruct ev; exec; rewrite Ea; exec; calls_leaf.
  - destruct (watchPositionAsync apis _) as [w|e4] eqn:E4;
      destruct ev; exec; rewrite Ea; exec; calls_leaf.
Qed.


(** X28. [stopTracking] completes normally, in the status STOPPED,
    exactly when the removal of the subscription, made when there is
    one, and the stop of the background task, made when the stored
    configuration enables it, do not fail.  When one of them fails the
    construction of the error to report throws a TypeError: the method
    is rejected with it and the status is left at STOPPING.  The
    subscription is dropped when its removal returns and kept when it
    throws, in which case the background task is not stopped.  The
    configuration stays as it was, no error is handed to [onError], and
    the status changes reported are STOPPING, followed by STOPPED when
    the method completes normally. *)
Theorem stopTracking_spec (s : Service) :
  let r := stopTracking TypeError apis s in
  let background :=
    match config s with
    | Some c => ToBoolean (enableBackground c)
    | None => false
    end in
  let removed :=
    match locationSubscription s with
    | Some sub => match remove apis sub with Return _ => true | Throw _ => false end
    | None => true
    end in
  (snd r = Return tt /\ status (fst r) = STOPPED <->
   removed = true /\
   (background = true -> exists u, stopLocationUpdatesAsync apis = Return u)) /\
  (snd r = Return tt \/ snd r = Throw TypeError /\ status (fst r) = STOPPING) /\
  config (fst r) = config s /\
  locationSubscription (fst r) = (if removed then None else locationSubscription s) /\
  exists l,
    made s l (fst r) /\
    status_changes l =
      (if events s
       then STOPPING :: match snd r with Return _ => [STOPPED] | Throw _ => [] end
       else []) /\
    List.filter is_onError l = [] /\
    (In StopLocationUpdatesAsync l <-> removed = true /\ background = true) /\
    (forall e, In e (module_calls l) ->
       e = StopLocationUpdatesAsync \/
       exists sub, locationSubscription s = Some sub /\ e = SubscriptionRemove sub).
Proof.
  cbn zeta. destruct s as [cfg st ev sub tr].
  unfold stopTracking.
  cbn [config locationSubscription].
  destruct sub as [sub|]; [destruct (remove apis sub) as [[]|e] eqn:Er|];
    try (destruct (match cfg with Some c => _ | None => _ end) eqn:Eb;
         [destruct (stopLocationUpdatesAsync apis) as [[]|e'] eqn:Es|]);
    destruct ev; exec; rewrite ?Er, ?Eb; exec; rewrite ?Es; exec;
    (split; [repeat split; finish|]); (split; [finish|]);
    (split; [reflexivity|]); (split; [reflexivity|]);
    grown;
    (split; [reflexivity|]); (split; [reflexivity|]);
    (split; [cbn; repeat split; finish|]); cbn; finish.
Qed.

(** X24. For a datum that [validateLocationData] accepts,
    [handleLocationUpdate] hands [onLocationUpdate], when handlers are
    installed, the transformed point, whose coordinates are numbers
    within range, and returns.  For any other datum the construction of
    the error to report throws a TypeError: no handler is called and the
    service stays as it was.  No call into the modules is made. *)
Theorem handleLocationUpdate_spec (d : option LocationData) (s : Service) :
  if validateLocationData d then
    exists p lat lon,
      handleLocationUpdate Date_parse TypeError d s
        = (if events s then record (OnLocationUpdate p) s else s, Return tt) /\
      transformLocationData Date_parse TypeError d = Return p /\
      point_latitude p = JsNumber lat /\ point_longitude p = JsNumber lon /\
      isValidCoordinate lat lon = true
  else handleLocationUpdate Date_parse TypeError d s = (s, Throw TypeError).
Proof.
  unfold handleLocationUpdate.
  destruct (validateLocationData d) eqn:V; cbn [negb]; [|reflexivity].
  apply LocationDataSpec.validateLocationData_true in V
    as (data & c & lat & lon & t & -> & Ec & Ea & Eo & Et & Hv & Ht).
  unfold transformLocationData. rewrite Ec.
  eexists _, lat, lon. split; [reflexivity|]. cbn. auto.
Qed.

(** X30. [getCurrentLocation] makes one call into the modules, the
    request of the position at the level of the stored configuration
    (level 2 when none is stored), and leaves the status, the
    configuration and the subscription as they were.  For an answer
    that [validateLocationData] accepts it returns the transformed
    point, whose coordinates are numbers within range; for any other
    answer it returns [null]; when the request fails, the construction
    of the error to report throws a TypeError and the method is rejected
    with it.  No handler is called. *)
Theorem getCurrentLocation_spec (s : Service) :
  let r := getCurrentLocation Number_toString Date_parse TypeError apis s in
  let level :=
    match config s with
    | Some c => mapGPSAccuracyToExpo Number_toString (accuracy c)
    | None => StorageService.OwnValue 2
    end in
  fst r = record (GetCurrentPositionAsync level) s /\
  match getCurrentPositionAsync apis level with
  | Return d =>
      if validateLocationData d then
        exists p lat lon,
          snd r = Return (Some p) /\
          transformLocationData Date_parse TypeError d = Return p /\
          point_latitude p = JsNumber lat /\ point_longitude p = JsNumber lon /\
          isValidCoordinate lat lon = true
      else snd r = Return None
  | Throw error => snd r = Throw TypeError
  end.
Proof.
  cbn zeta. destruct s as [cfg st ev sub tr]. unfold getCurrentLocation.
  cbn [config].
  set (level := match cfg with Some c => _ | None => _ end).
  destruct (getCurrentPositionAsync apis level) as [d|error] eqn:Eg.
  - destruct (validateLocationData d) eqn:V.
    + pose proof V as V'. apply LocationDataSpec.validateLocationData_true in V'
        as (data & c & lat & lon & t & -> & Ec & Ea & Eo & Et & Hv & Ht).
      unfold transformLocationData. exec. fold level. rewrite Eg, V. exec. rewrite Ec.
      split; [reflexivity|]. eexists _, lat, lon. split; [reflexivity|].
      split; [reflexivity|]. cbn. auto.
    + exec. fold level. rewrite Eg, V. split; reflexivity.
  - exec. fold level. rewrite Eg. split; reflexivity.
Qed.

Lemma stopTracking_frame (s : Service) :
  config (fst (stopTracking TypeError apis s)) = config s /\
  exists l, made s l (fst (stopTracking TypeError apis s)) /\
            List.filter is_onError l = [].
Proof.
  destruct s as [cfg st ev sub tr].
  unfold stopTracking.
  cbn [config locationSubscription].
  destruct (match cfg with Some c => ToBoolean (enableBackground c) | None => false end)
    eqn:Eb;
    (destruct sub as [sub|]; [destruct (remove apis sub) as [[]|e] eqn:Er|]);
    destruct (stopLocationUpdatesAsync apis) as [[]|e'] eqn:Es;
    destruct ev; exec; rewrite ?Er, ?Eb; exec; rewrite ?Es; exec;
    (split; [reflexivity|]); grown; reflexivity.
Qed.

Lemma configure_frame (c : option LocationServiceConfig) (s : Service) :
  trace (fst (configure TypeError c s)) = trace s /\
  config (fst (configure TypeError c s)) = (if validateConfig c then c else config s).
Proof.
  destruct s as [cfg st ev sub tr]. unfold configure.
  destruct (validateConfig c); exec; split; reflexivity.
Qed.

Lemma handleLocationUpdate_frame (d : option LocationData) (s : Service) :
  config (fst (handleLocationUpdate Date_parse TypeError d s)) = config s /\
  exists l, made s l (fst (handleLocationUpdate Date_parse TypeError d s)) /\
            List.filter is_onError l = [].
Proof.
  destruct s as [cfg st ev sub tr]. unfold handleLocationUpdate.
  destruct (validateLocationData d).
  - destruct (transformLocationData Date_parse TypeError d) as [p|e];
      destruct ev; exec; (split; [reflexivity|]); grown; reflexivity.
  - exec. split; [reflexivity|]. grown. reflexivity.
Qed.

Lemma getCurrentLocation_frame (s : Service) :
  config (fst (getCurrentLocation Number_toString Date_parse TypeError apis s)) = config s /\
  exists l, made s l (fst (getCurrentLocation Number_toString Date_parse TypeError apis s)) /\
            List.filter is_onError l = [].
Proof.
  destruct s as [cfg st ev sub tr]. unfold getCurrentLocation.
  pose (level := match cfg with
                 | Some c => mapGPSAccuracyToExpo Number_toString (accuracy c)
                 | None => StorageService.OwnValue 2
                 end).
  destruct (getCurrentPositionAsync apis level) as [d|error] eqn:Eg.
  - destruct (validateLocationData d) eqn:V.
    + destruct (transformLocationData Date_parse TypeError d) as [p|e] eqn:Et;
        exec; fold level; rewrite Eg, V; exec; rewrite Et;
        (split; [reflexivity|]); grown; reflexivity.
    + exec. fold level. rewrite Eg, V. split; [reflexivity|]. grown. reflexivity.
  - exec. fold level. rewrite Eg. split; [reflexivity|]. grown. reflexivity.
Qed.

End Service.

Section Runs.

Variable Number_toString : number -> string.
Variable Date_parse : string -> JsDate.
Context {Thrown : Type}.
Variable TypeError : Thrown.

Lemma validateConfig_boolean (c : LocationServiceConfig) :
  validateConfig (Some c) = true -> exists b, enableBackground c = JsBoolean b.
Proof.
  unfold validateConfig.
  destruct (Set_has validGPSAccuracies (accuracy c)); [|discriminate].
  destruct (enableBackground c); try discriminate. eauto.
Qed.

Lemma made_no_onError (s s' : Service) (l : list Effect) :
  made s l s' -> List.filter is_onError l = [] ->
  List.filter is_onError (trace s) = [] -> List.filter is_onError (trace s') = [].
Proof.
  intros [_ Ht] Hl Hs. rewrite Ht, List.filter_app, Hs, Hl. reflexivity.
Qed.

(** What every call keeps: the stored configuration is one that
    [validateConfig] accepts, and [onError] was not called. *)
Lemma step_keeps (s : Service) (c : @Call Thrown) :
  (forall c', config s = Some c' -> validateConfig (Some c') = true) ->
  List.filter is_onError (trace s) = [] ->
  (forall c', config (step Number_toString Date_parse TypeError s c) = Some c' ->
              validateConfig (Some c') = true) /\
  List.filter is_onError (trace (step Number_toString Date_parse TypeError s c)) = [].
Proof.
  intros Hc Ht. destruct c as [c| |apis c|apis|d|apis]; cbn [step].
  - destruct (configure_frame TypeError c s) as [-> ->]. split; [|exact Ht].
    destruct (validateConfig c) eqn:V; [|exact Hc]. intros c' ->. exact V.
  - split; [exact Hc|exact Ht].
  - destruct (startTracking_frame Number_toString TypeError apis c s)
      as (l & Hm & Hl & -> & _).
    split; [|exact (made_no_onError _ _ _ Hm Hl Ht)].
    destruct (validateConfig c) eqn:V; [|exact Hc]. intros c' ->. exact V.
  - destruct (stopTracking_frame TypeError apis s) as (-> & l & Hm & Hl).
    split; [exact Hc|exact (made_no_onError _ _ _ Hm Hl Ht)].
  - destruct (handleLocationUpdate_frame Date_parse TypeError d s) as (-> & l & Hm & Hl).
    split; [exact Hc|exact (made_no_onError _ _ _ Hm Hl Ht)].
  - destruct (getCurrentLocation_frame Number_toString Date_parse TypeError apis s)
      as (-> & l & Hm & Hl).
    split; [exact Hc|exact (made_no_onError _ _ _ Hm Hl Ht)].
Qed.

(** X29. After every sequence of calls of the public methods on a new
    service, whatever the modules answer and whichever calls throw: the
    stored configuration is [null] or a configuration that
    [validateConfig] accepts, whose [enableBackground] is a boolean; and
    the handler [onError] has never been called, because every
    construction of an error to report throws. *)
Theorem run_invariant (calls : list (@Call Thrown)) :
  (forall c, config (run Number_toString Date_parse TypeError calls) = Some c ->
             validateConfig (Some c) = true /\ exists b, enableBackground c = JsBoolean b) /\
  List.filter is_onError (trace (run Number_toString Date_parse TypeError calls)) = [].
Proof.
  unfold run.
  assert (H : forall s,
             (forall c, config s = Some c -> validateConfig (Some c) = true) ->
             List.filter is_onError (trace s) = [] ->
             (forall c, config (fold_left (step Number_toString Date_parse TypeError) calls s)
                          = Some c -> validateConfig (Some c) = true) /\
             List.filter is_onError
               (trace (fold_left (step Number_toString Date_parse TypeError) calls s)) = []).
  { induction calls as [|c calls IH]; intros s Hc Ht; cbn [fold_left]; [auto|].
    destruct (step_keeps s c Hc Ht) as [Hc' Ht']. apply IH; assumption. }
  destruct (H initial) as [Hc Ht]; [discriminate|reflexivity|].
  split; [|exact Ht].
  intros c E. specialize (Hc c E). split; [exact Hc|apply validateConfig_boolean, Hc].
Qed.

End Runs.

Lemma startTracking_calls_witness :
  exists l,
    made (fst (setEventHandlers (Thrown := string) initial)) l
      (fst (startTracking (fun _ => EmptyString) "TypeError" apis0 (Some config0)
              (fst (setEventHandlers (Thrown := string) initial)))) /\
    status_changes l = [STARTING; RUNNING] /\
    module_calls l =
      [ HasServicesEnabledAsync; RequestForegroundPermissionsAsync;
        WatchPositionAsync (watchOptions (fun _ => EmptyString) config0) ].
Proof.
  destruct (startTracking_calls (fun _ => EmptyString) "TypeError" apis0 config0
              (fst (setEventHandlers (Thrown := string) initial)) eq_refl)
    as (l & Hm & Hs & _).
  exists l. split; [exact Hm|]. split; [exact Hs|].
  destruct Hm as [_ Ht]. cbn in Ht. subst l. reflexivity.
Defined.

(** With the location services disabled [startTracking] is rejected
    with the TypeError and the status stays STARTING: the handlers hear
    of STARTING and of nothing more. *)
Example startTracking_services_disabled :
  startTracking (fun _ => EmptyString) "TypeError" apis_disabled (Some config0)
    (fst (setEventHandlers (Thrown := string) initial))
  = ({| config := Some config0; status := STARTING; events := true;
        locationSubscription := None;
        trace := [OnStatusChange STARTING; HasServicesEnabledAsync] |},
     Throw "TypeError").
Proof. reflexivity. Qed.

(** A second [startTracking] replaces the subscription of the first
    without removing it. *)
Example startTracking_twice :
  let s := run (fun _ => EmptyString) (fun _ => None) "TypeError"
             [ StartTracking apis0 (Some config0); StartTracking apis0 (Some config0) ] in
  status s = RUNNING /\
  module_calls (trace s) =
    [ HasServicesEnabledAsync; RequestForegroundPermissionsAsync;
      WatchPositionAsync (watchOptions (fun _ => EmptyString) config0);
      HasServicesEnabledAsync; RequestForegroundPermissionsAsync;
      WatchPositionAsync (watchOptions (fun _ => EmptyString) config0) ].
Proof. split; reflexivity. Qed.

End LocationTrackingSpec.

(** ** [Math.round] gives the nearest integer, and what [calculateSpeed]
    returns *)

Module SpeedRounding.

Import Calculations FloatSign Rounding.

Lemma digits2_pos_bounds (p : positive) :
  2 ^ (Z.pos (digits2_pos p) - 1) <= Z.pos p < 2 ^ Z.pos (digits2_pos p).
Proof.
  induction p as [p IH|p IH|]; cbn [digits2_pos].
  - rewrite Pos2Z.inj_succ.
    replace (Z.succ (Z.pos (digits2_pos p)) - 1) with (Z.succ (Z.pos (digits2_pos p) - 1)) by lia.
    rewrite !Z.pow_succ_r by lia. lia.
  - rewrite Pos2Z.inj_succ.
    replace (Z.succ (Z.pos (digits2_pos p)) - 1) with (Z.succ (Z.pos (digits2_pos p) - 1)) by lia.
    rewrite !Z.pow_succ_r by lia. lia.
  - cbn. lia.
Qed.

Lemma digits2_pos_le_53 (p : positive) :
  Z.pos p < 2 ^ 53 -> Z.pos (digits2_pos p) <= 53.
Proof.
  intros H. destruct (digits2_pos_bounds p) as [Hl _].
  destruct (Z.le_gt_cases (Z.pos (digits2_pos p)) 53) as [|Hgt]; [assumption|].
  assert (2 ^ 53 <= 2 ^ (Z.pos (digits2_pos p) - 1)) by (apply Z.pow_le_mono_r; lia).
  lia.
Qed.

Lemma iter_xO (p q : positive) :
  digits2_pos (Pos.iter xO p q) = (digits2_pos p + q)%positive /\
  Z.pos (Pos.iter xO p q) = Z.pos p * 2 ^ Z.pos q.
Proof.
  apply (Pos.iter_ind positive xO p
           (fun q a => digits2_pos a = (digits2_pos p + q)%positive /\
                       Z.pos a = Z.pos p * 2 ^ Z.pos q)).
  - cbn [digits2_pos]. split; [lia|]. rewrite Pos2Z.inj_xO. lia.
  - intros q' a [Hd Hv]. cbn [digits2_pos]. rewrite Hd. split; [lia|].
    rewrite Pos2Z.inj_xO, Hv, Pos2Z.inj_succ, Z.pow_succ_r by lia. lia.
Qed.

(** A significand of 53 digits with an exponent within range is kept as
    it is. *)
Lemma binary_round_aux_canonical (s : bool) (m : positive) (e : Z) :
  Z.pos (digits2_pos m) = 53 -> -1074 <= e <= 971 ->
  binary_round_aux prec emax s (Z.pos m) e loc_Exact = S754_finite s m e.
Proof.
  intros Hd He. unfold binary_round_aux, shr_fexp. cbn [Zdigits2 shr_record_of_loc].
  rewrite Hd.
  assert (F : fexp prec emax (53 + e) - e = 0).
  { unfold fexp, emin, prec, emax. lia. }
  rewrite F. cbn [shr shr_m loc_of_shr_record round_nearest_even Zdigits2].
  rewrite Hd, F. cbn [shr shr_m].
  assert (L : (e <=? emax - prec) = true) by (apply Z.leb_le; unfold prec, emax; lia).
  rewrite L. reflexivity.
Qed.

(** The binary64 number made of a positive integer below 2^53 is that
    integer. *)
Lemma binary_normalize_exact (p : positive) :
  Z.pos p < 2 ^ 53 ->
  exists m e,
    binary_normalize prec emax (Z.pos p) 0 false = S754_finite false m e /\
    e <= 0 /\ Z.pos m = Z.pos p * 2 ^ (- e).
Proof.
  intros H. pose proof (digits2_pos_le_53 p H) as Hd.
  cbn [binary_normalize]. unfold binary_round.
  assert (F : fexp prec emax (Z.pos (digits2_pos p) + 0) = Z.pos (digits2_pos p) - 53).
  { unfold fexp, emin, prec, emax. lia. }
  rewrite F. unfold shl_align.
  destruct (Z.pos (digits2_pos p) - 53 - 0) as [|q|q] eqn:E; try lia.
  - exists p, 0. split; [|split; [lia|cbn; lia]].
    apply binary_round_aux_canonical; lia.
  - destruct (iter_xO p q) as [Hq Hv].
    exists (Pos.iter xO p q), (Z.pos (digits2_pos p) - 53). split; [|split; [lia|]].
    + apply binary_round_aux_canonical; [rewrite Hq|]; lia.
    + rewrite Hv. f_equal. f_equal. lia.
Qed.

(** The significand of a binary64 number is below 2^53. *)
Lemma valid_significand (x : float) (s : bool) (m : positive) (e : Z) :
  Prim2SF x = S754_finite s m e -> Z.pos m < 2 ^ 53.
Proof.
  intros E. pose proof (FloatAxioms.Prim2SF_valid x) as V. rewrite E in V.
  cbn [valid_binary] in V. unfold bounded, canonical_mantissa in V.
  apply andb_true_iff in V as [V _]. apply Z.eqb_eq in V.
  assert (Hd : Z.pos (digits2_pos m) <= 53).
  { revert V. unfold fexp, emin, prec, emax. lia. }
  destruct (digits2_pos_bounds m) as [_ Hu].
  assert (2 ^ Z.pos (digits2_pos m) <= 2 ^ 53) by (apply Z.pow_le_mono_r; lia).
  lia.
Qed.

Lemma of_uint63_exact (n : Z) :
  0 < n < 2 ^ 53 ->
  exists m e,
    Prim2SF (of_uint63 (Uint63.of_Z n)) = S754_finite false m e /\
    e <= 0 /\ Z.pos m = n * 2 ^ (- e).
Proof.
  intros H. rewrite FloatAxioms.of_uint63_spec.
  change (Uint63Axioms.to_Z (Uint63.of_Z n)) with (Uint63.to_Z (Uint63.of_Z n)).
  rewrite Uint63.of_Z_spec, Z.mod_small.
  - destruct n as [|p|p]; try lia. apply binary_normalize_exact. lia.
  - change wB with (2 ^ 63). assert (2 ^ 53 < 2 ^ 63) by (apply Z.pow_lt_mono_r; lia). lia.
Qed.

(** [Math.round] of a finite number is the integer nearest to it, the
    larger one when two are as near; of another value, the value. *)
Lemma Math_round_nearest (x : number) :
  match Prim2SF x with
  | S754_zero _ | S754_finite _ _ _ =>
      exists n, nearest_up (Prim2SF x) n /\ holds_integer (Prim2SF (Math_round x)) n
  | _ => Math_round x = x
  end.
Proof.
  unfold Math_round.
  destruct (Prim2SF x) as [s|s| |s m e] eqn:E; try reflexivity.
  - exists 0. rewrite E. split; reflexivity.
  - pose proof (valid_significand x s m e E) as Hm.
    cbn [nearest_up]. fold (signed s m).
    destruct (e <? 0) eqn:He.
    2:{ apply Z.ltb_ge in He. apply Z.leb_le in He as He'. rewrite He'.
        exists (signed s m * 2 ^ e). rewrite E. cbn [holds_integer]. rewrite He'.
        split; reflexivity. }
    apply Z.ltb_lt in He.
    assert (He' : (0 <=? e) = false) by (apply Z.leb_gt; exact He). rewrite He'.
    set (D := 2 ^ (- e)).
    assert (HD : 2 <= D).
    { subst D. change 2 with (2 ^ 1) at 1. apply Z.pow_le_mono_r; lia. }
    assert (HD2 : 2 ^ (1 - e) = 2 * D).
    { subst D. replace (1 - e) with (Z.succ (- e)) by lia. rewrite Z.pow_succ_r by lia.
      reflexivity. }
    rewrite HD2.
    set (n := (2 * signed s m + D) / (2 * D)).
    assert (Hn : 2 * signed s m - D < 2 * D * n <= 2 * signed s m + D).
    { pose proof (Z.div_mod (2 * signed s m + D) (2 * D) ltac:(lia)) as Hdm.
      pose proof (Z.mod_pos_bound (2 * signed s m + D) (2 * D) ltac:(lia)) as Hb.
      fold n in Hdm. lia. }
    exists n. split; [exact Hn|].
    destruct (n =? 0) eqn:H0.
    { apply Z.eqb_eq in H0. rewrite H0. destruct s; reflexivity. }
    apply Z.eqb_neq in H0.
    destruct (n <? 0) eqn:Hneg.
    + apply Z.ltb_lt in Hneg.
      assert (Hs : s = true).
      { destruct s; [reflexivity|]. unfold signed in Hn. nia. }
      subst s. unfold signed in Hn.
      assert (Hb : 0 < - n < 2 ^ 53) by nia.
      destruct (of_uint63_exact (- n) Hb) as (mz & ez & Ez & Hez & Hmz).
      rewrite FloatAxioms.opp_spec, Ez. cbn [SFopp negb holds_integer signed].
      destruct (0 <=? ez) eqn:Hz.
      * apply Z.leb_le in Hz. assert (ez = 0) by lia. subst ez. cbn in Hmz |- *. lia.
      * rewrite Hmz. lia.
    + apply Z.ltb_ge in Hneg.
      assert (Hs : s = false).
      { destruct s; [|reflexivity]. unfold signed in Hn. nia. }
      subst s. unfold signed in Hn.
      assert (Hb : 0 < n < 2 ^ 53) by nia.
      destruct (of_uint63_exact n Hb) as (mz & ez & Ez & Hez & Hmz).
      rewrite Ez. cbn [holds_integer signed].
      destruct (0 <=? ez) eqn:Hz.
      * apply Z.leb_le in Hz. assert (ez = 0) by lia. subst ez. cbn in Hmz |- *. lia.
      * exact Hmz.
Qed.

Local Open Scope float_scope.

(** The specification's formula fails on accepted inputs.  For 1e305 m in
    1 s the speed distance / time * 3.6 is a finite number, and
    [calculateSpeed] returns +Infinity: the product by 3600 overflows.
    For 10217.659000013888 m in 0.7 s the speed rounded to 6 decimal
    digits is 52547.960572, and [calculateSpeed] returns 52547.960571. *)
Lemma calculateSpeed_not_speedKmh :
  (isFinite 0x1.23a516e82d9bap+1013 = true /\ isFinite 1 = true /\
   (0 <=? 0x1.23a516e82d9bap+1013) = true /\ (0 <? 1) = true /\
   is_finite (0x1.23a516e82d9bap+1013 / 1 * 0x1.ccccccccccccdp+1) = true /\
   calculateSpeed 0x1.23a516e82d9bap+1013 1 = Return infinity) /\
  (isFinite 0x1.3f4d45a1cc9dbp+13 = true /\ isFinite 0x1.6666666666666p-1 = true /\
   (0 <=? 0x1.3f4d45a1cc9dbp+13) = true /\ (0 <? 0x1.6666666666666p-1) = true /\
   speedKmh 0x1.3f4d45a1cc9dbp+13 0x1.6666666666666p-1 = 0x1.9a87ebd017dafp+15 /\
   calculateSpeed 0x1.3f4d45a1cc9dbp+13 0x1.6666666666666p-1
     = Return 0x1.9a87ebcff64d0p+15 /\
   (0x1.9a87ebcff64d0p+15 <? 0x1.9a87ebd017dafp+15) = true).
Proof. repeat split. Qed.

(** C8. [calculateSpeed] throws INVALID_VALUE when either argument is not
    finite (NaN or an infinity); otherwise NEGATIVE_VALUE when the distance
    is negative; otherwise ZERO_OR_NEGATIVE_VALUE when the time is zero or
    negative.  On every remaining input (finite distance >= 0, finite
    time > 0) it returns, without throwing, [Math.round(p) / 1000000]
    where [p] is the binary64 number [distance / time * 3600 / 1000 *
    1000000], every operation rounded: when [p] is finite,
    [Math.round(p)] is the integer nearest to [p], the larger one when
    two are as near, and when [p] has overflowed the result is
    +Infinity; the result is at least 0, so it is not NaN.  And
    [calculateSpeed 1000 600] is 6. *)
Theorem calculateSpeed_rounded (d t : number) :
  (isFinite d = false \/ isFinite t = false ->
     exists field, fails_with (calculateSpeed d t) INVALID_VALUE field) /\
  (isFinite d = true -> isFinite t = true -> (d <? 0) = true ->
     fails_with (calculateSpeed d t) NEGATIVE_VALUE "distanceInMeters") /\
  (isFinite d = true -> isFinite t = true -> (0 <=? d) = true -> (t <=? 0) = true ->
     fails_with (calculateSpeed d t) ZERO_OR_NEGATIVE_VALUE "timeInSeconds") /\
  (isFinite d = true -> isFinite t = true -> (0 <=? d) = true -> (0 <? t) = true ->
     calculateSpeed d t
       = Return (Math_round (d / t * 3600 / 1000 * 1000000) / 1000000) /\
     (0 <=? Math_round (d / t * 3600 / 1000 * 1000000) / 1000000) = true /\
     match Prim2SF (d / t * 3600 / 1000 * 1000000) with
     | S754_infinity _ =>
         Math_round (d / t * 3600 / 1000 * 1000000) / 1000000 = infinity
     | p =>
         exists n, nearest_up p n /\
                   holds_integer (Prim2SF (Math_round (d / t * 3600 / 1000 * 1000000))) n
     end) /\
  calculateSpeed 1000 600 = Return 6.
Proof.
  destruct (CalculationsSpec.calculateSpeed_outcomes d t) as (H1 & H2 & H3 & H4).
  split; [exact H1|]. split; [exact H2|]. split; [exact H3|]. split; [|reflexivity].
  intros Hd Ht Hpos Hlt. split; [exact (H4 Hd Ht Hpos Hlt)|].
  assert (Sp : at_least_zero (Prim2SF (d / t * 3600 / 1000 * 1000000)) = true).
  { apply SpeedSign.mul_sign; [|reflexivity].
    apply SpeedSign.div_sign; [|reflexivity].
    apply SpeedSign.mul_sign; [|reflexivity].
    apply SpeedSign.div_sign.
    - rewrite <- SpeedSign.leb_0_sign. exact Hpos.
    - apply SpeedSign.not_leb_0_sign; [exact Ht|].
      apply FloatFacts.ltb_zero_not_leb, Hlt. }
  split.
  { rewrite SpeedSign.leb_0_sign.
    apply SpeedSign.div_sign; [|reflexivity]. apply SpeedSign.Math_round_sign, Sp. }
  pose proof (Math_round_nearest (d / t * 3600 / 1000 * 1000000)) as Hr.
  destruct (Prim2SF (d / t * 3600 / 1000 * 1000000)) as [s|s| |s m e] eqn:E;
    try exact Hr; [|discriminate].
  destruct s; [discriminate|].
  rewrite <- (FloatAxioms.SF2Prim_Prim2SF (d / t * 3600 / 1000 * 1000000)), E.
  reflexivity.
Qed.

Lemma calculateSpeed_rounded_witness :
  (exists field, fails_with (calculateSpeed nan 600) INVALID_VALUE field) /\
  fails_with (calculateSpeed (-1000) 600) NEGATIVE_VALUE "distanceInMeters" /\
  fails_with (calculateSpeed 1000 0) ZERO_OR_NEGATIVE_VALUE "timeInSeconds" /\
  calculateSpeed 1000 600 = Return 6 /\
  (exists n, nearest_up (Prim2SF (1000 / 600 * 3600 / 1000 * 1000000)) n /\
             holds_integer (Prim2SF (Math_round (1000 / 600 * 3600 / 1000 * 1000000))) n) /\
  calculateSpeed 0x1.23a516e82d9bap+1013 1 = Return infinity.
Proof.
  split; [|split; [|split; [|split; [|split]]]].
  - apply (calculateSpeed_rounded nan 600). left. reflexivity.
  - apply (calculateSpeed_rounded (-1000) 600); reflexivity.
  - apply (calculateSpeed_rounded 1000 0); reflexivity.
  - apply (calculateSpeed_rounded 1000 600).
  - destruct (calculateSpeed_rounded 1000 600) as (_ & _ & _ & H & _).
    destruct (H eq_refl eq_refl eq_refl eq_refl) as (_ & _ & Hn). exact Hn.
  - destruct (calculateSpeed_rounded 0x1.23a516e82d9bap+1013 1) as (_ & _ & _ & H & _).
    destruct (H eq_refl eq_refl eq_refl eq_refl) as (Hc & _ & Hi).
    exact (eq_trans Hc (f_equal Return Hi)).
Defined.

End SpeedRounding.
